(** * Pollen Swarm: storefront state, data scripts and recommendation core

    A shallow embedding of the JavaScript storefront (basket reducer,
    interaction provider, API client, product search and paging, ad copy,
    interaction feed, discount game), of the data scripts (catalogue and
    customer-map generators, image filler) and of the recommendation
    pipeline described by the design documents, together with the
    properties stated about them.

    Conventions.
    - A JavaScript string is modelled by the [string] of the bytes of its
      UTF-8 encoding, the encoding in which the scripts read and write
      their files; a string with an unpaired surrogate has no encoding and
      is not represented.  No byte of a character outside ASCII is in the
      ASCII range, so splitting at a comma, a quote or a line feed and
      searching for a substring give on the bytes what they give on the
      code units.
    - A JavaScript object used as a dictionary is a [gmap string _]; a
      property read that misses the own properties falls through to
      [Object.prototype], which is modelled where the source reads a
      dictionary with a computed key.
    - A value that may be [undefined] is an [option]. *)

From Stdlib Require Import ZArith QArith Qround String Ascii List Lia Reals Lra.
From stdpp Require Import gmap strings list fin_maps pretty.

Local Open Scope string_scope.
Local Open Scope Z_scope.

(** ** JavaScript values shared by the storefront modules *)

Module Js.

(** Numbers that stand for counts and clock readings: an integer, or [NaN].
    Every quantity the storefront passes around is a whole number (a
    product is added by 1 and a basket line is stepped by 1). *)
Inductive num : Type :=
  | NaN
  | Num (z : Z).

(** The whole numbers up to 2^53 in absolute value.  A double holds each of
    them exactly, and the sum of two of them, computed in doubles, is the
    exact sum whenever that is in the range too. *)
Definition safe (z : Z) : Prop := - 2 ^ 53 <= z <= 2 ^ 53.

(** [a + b] on whole numbers, exact within the range of [safe]. *)
Definition num_add (a b : num) : num :=
  match a, b with
  | Num x, Num y => Num (x + y)
  | _, _ => NaN
  end.

(** [a <= b]; every comparison with [NaN] is false. *)
Definition num_leb (a b : num) : bool :=
  match a, b with
  | Num x, Num y => x <=? y
  | _, _ => false
  end.

(** [Math.max(a, b)]: [NaN] if either argument is [NaN]. *)
Definition num_max (a b : num) : num :=
  match a, b with
  | Num x, Num y => Num (Z.max x y)
  | _, _ => NaN
  end.

(** Names of the properties every plain object inherits from
    [Object.prototype]; reading one of them on an object that has no own
    property of that name yields a function or object, which is truthy. *)
Definition object_prototype_keys : list string :=
  [ "constructor"; "__defineGetter__"; "__defineSetter__"; "hasOwnProperty";
    "__lookupGetter__"; "__lookupSetter__"; "isPrototypeOf";
    "propertyIsEnumerable"; "toString"; "valueOf"; "__proto__";
    "toLocaleString" ].

Definition inherited (k : string) : bool :=
  bool_decide (k ∈ object_prototype_keys).

(** Result of [obj[k]] on a dictionary object. *)
Inductive prop (A : Type) : Type :=
  | Own (v : A)
  | Inherited
  | Undefined.
Arguments Own {A} v.
Arguments Inherited {A}.
Arguments Undefined {A}.

Definition get {A} (obj : gmap string A) (k : string) : prop A :=
  match obj !! k with
  | Some v => Own v
  | None => if inherited k then Inherited else Undefined
  end.

End Js.

(** ** Strings as the scripts and pages use them *)

Module JsString.

Definition chars (s : string) : list ascii := list_ascii_of_string s.
Definition of_chars (l : list ascii) : string := string_of_list_ascii l.

Definition code (c : ascii) : nat := nat_of_ascii c.

(** UTF-16 code units a byte accounts for: one for an ASCII byte and for
    the lead byte of a two- or three-byte character, two for the lead byte
    of a four-byte character (a surrogate pair), none for a continuation
    byte. *)
Definition units (c : ascii) : nat :=
  let n := code c in
  if (n <? 128)%nat then 1%nat
  else if (n <? 192)%nat then 0%nat
  else if (n <? 240)%nat then 1%nat else 2%nat.

(** [s.length] *)
Definition length_utf16 (s : string) : nat :=
  fold_right (fun c n => (units c + n)%nat) 0%nat (chars s).

(** Text in the ASCII range. *)
Definition ascii_text (s : string) : bool :=
  forallb (fun c => (code c <? 128)%nat) (chars s).

(** White space and line terminators removed by [String.prototype.trim].
    One byte: TAB, LF, VT, FF, CR and SPACE. *)
Definition is_space (c : ascii) : bool :=
  let n := code c in
  ((9 <=? n)%nat && (n <=? 13)%nat) || (n =? 32)%nat.

(** Two bytes: the no-break space U+00A0 (C2 A0). *)
Definition is_space2 (a b : ascii) : bool :=
  ((code a =? 194)%nat && (code b =? 160)%nat)%bool.

(** Three bytes: U+1680 (E1 9A 80), U+2000 to U+200A (E2 80 80 to 8A), the
    line and paragraph separators U+2028 and U+2029 (E2 80 A8, A9), U+202F
    (E2 80 AF), U+205F (E2 81 9F), U+3000 (E3 80 80) and the byte order
    mark U+FEFF (EF BB BF). *)
Definition is_space3 (a b c : ascii) : bool :=
  let x := code a in
  let y := code b in
  let z := code c in
  (((x =? 225)%nat && (y =? 154)%nat && (z =? 128)%nat)
   || ((x =? 226)%nat && (y =? 128)%nat
       && (((128 <=? z)%nat && (z <=? 138)%nat)
           || (z =? 168)%nat || (z =? 169)%nat || (z =? 175)%nat))
   || ((x =? 226)%nat && (y =? 129)%nat && (z =? 159)%nat)
   || ((x =? 227)%nat && (y =? 128)%nat && (z =? 128)%nat)
   || ((x =? 239)%nat && (y =? 187)%nat && (z =? 191)%nat))%bool.

Section Strip.

(** Tests for a character of one, two and three bytes. *)
Variable p1 : ascii -> bool.
Variable p2 : ascii -> ascii -> bool.
Variable p3 : ascii -> ascii -> ascii -> bool.

(** The text starts with a character that the tests accept. *)
Definition matched (l : list ascii) : bool :=
  match l with
  | [] => false
  | a :: l1 =>
      p1 a
      || match l1 with
         | [] => false
         | b :: l2 =>
             p2 a b
             || match l2 with
                | [] => false
                | c :: _ => p3 a b c
                end
         end
  end.

(** The text without the accepted characters at its start. *)
Fixpoint strip (l : list ascii) : list ascii :=
  match l with
  | [] => []
  | a :: l1 =>
      if p1 a then strip l1
      else
        match l1 with
        | b :: l2 =>
            if p2 a b then strip l2
            else
              match l2 with
              | c :: l3 => if p3 a b c then strip l3 else l
              | [] => l
              end
        | [] => l
        end
  end.

End Strip.

(** The text without its leading white space. *)
Definition drop_spaces (l : list ascii) : list ascii :=
  strip is_space is_space2 is_space3 l.

(** The same on the reversed text, for the white space at the end: the
    bytes of a character come last byte first. *)
Definition drop_spaces_end (l : list ascii) : list ascii :=
  strip is_space (fun c b => is_space2 b c) (fun c b a => is_space3 a b c) l.

Definition trim (s : string) : string :=
  of_chars (rev (drop_spaces_end (rev (drop_spaces (chars s))))).

(** A string is truthy iff it is not empty. *)
Definition truthy (s : string) : bool :=
  match s with EmptyString => false | _ => true end.

Definition lower_char (c : ascii) : ascii :=
  let n := nat_of_ascii c in
  if ((65 <=? n)%nat && (n <=? 90)%nat)%bool then ascii_of_nat (n + 32) else c.

(** [s.toLowerCase()] on the bytes of the text.  A to Z lower to a to z.
    Two characters outside ASCII lower into ASCII: U+0130 (C4 B0) to i
    followed by U+0307 (CC 87), and the Kelvin sign U+212A (E2 84 AA) to k.
    Every other character outside ASCII is kept as it is: where it has a
    lower-case form, that form is outside ASCII too, so the result is exact
    up to characters outside ASCII. *)
Fixpoint lower_chars (l : list ascii) : list ascii :=
  match l with
  | [] => []
  | a :: l1 =>
      match l1 with
      | b :: l2 =>
          if ((code a =? 196)%nat && (code b =? 176)%nat)%bool
          then "i"%char :: ascii_of_nat 204 :: ascii_of_nat 135 :: lower_chars l2
          else
            match l2 with
            | c :: l3 =>
                if ((code a =? 226)%nat && (code b =? 132)%nat
                    && (code c =? 170)%nat)%bool
                then "k"%char :: lower_chars l3
                else lower_char a :: lower_chars l1
            | [] => lower_char a :: lower_chars l1
            end
      | [] => [lower_char a]
      end
  end.

Definition toLowerCase (s : string) : string :=
  of_chars (lower_chars (chars s)).

Fixpoint repeat_char (c : ascii) (n : nat) : string :=
  match n with
  | O => EmptyString
  | S n' => String c (repeat_char c n')
  end.

(** [s.padStart(width, "0")] *)
Definition padStart0 (width : nat) (s : string) : string :=
  repeat_char "0"%char (width - length_utf16 s) ++ s.

(** [String(n)] for a non-negative integer. *)
Definition of_nat (n : nat) : string := pretty n.

End JsString.

(** ** Catalogue generator (the script that writes src/data/products.js) *)

Module Catalog.
Import JsString.

(** *** Reading the CSV text *)

Definition CR : ascii := ascii_of_nat 13.
Definition LF : ascii := ascii_of_nat 10.
Definition QUOTE : ascii := ascii_of_nat 34.
Definition COMMA : ascii := ","%char.
Definition DASH : ascii := "-"%char.

Definition is_char (a b : ascii) : bool := Ascii.eqb a b.

(** [text.split(/\r?\n/)]; [cur] is the line read so far, reversed. *)
Fixpoint split_lines (l cur : list ascii) : list string :=
  match l with
  | [] => [of_chars (rev cur)]
  | c :: l' =>
      if is_char c LF then of_chars (rev cur) :: split_lines l' []
      else if is_char c CR then
        match l' with
        | d :: l'' =>
            if is_char d LF then of_chars (rev cur) :: split_lines l'' []
            else split_lines l' (c :: cur)
        | [] => split_lines l' (c :: cur)
        end
      else split_lines l' (c :: cur)
  end.

Definition count_quotes (l : list ascii) : nat :=
  length (filter (fun c => is_char c QUOTE = true) l).

(** The [split] of [splitCsvLine]: its pattern is a comma whose lookahead
    requires the rest of the line to hold an even number of double quotes,
    so a comma separates two cells exactly when an even number of quotes
    follows it. *)
Fixpoint split_cells (l cur : list ascii) : list string :=
  match l with
  | [] => [of_chars (rev cur)]
  | c :: l' =>
      if (is_char c COMMA && Nat.even (count_quotes l'))%bool
      then of_chars (rev cur) :: split_cells l' []
      else split_cells l' (c :: cur)
  end.

(** A line terminator, which the dot of a regular expression does not
    match, occurs in the text: LF, CR, U+2028 or U+2029 (E2 80 A8, A9). *)
Fixpoint has_line_terminator (l : list ascii) : bool :=
  match l with
  | [] => false
  | a :: l1 =>
      is_char a LF || is_char a CR
      || match l1 with
         | b :: c :: _ =>
             (code a =? 226)%nat && (code b =? 128)%nat
             && ((code c =? 168)%nat || (code c =? 169)%nat)
         | _ => false
         end
      || has_line_terminator l1
  end.

(** The [replace] of [splitCsvLine]: a cell that starts and ends with a
    double quote, with no line terminator in between, loses the two
    quotes; any other cell is kept. *)
Definition unquote (cell : string) : string :=
  match chars cell with
  | q :: rest =>
      match rev rest with
      | q' :: rmid =>
          if (is_char q QUOTE && is_char q' QUOTE
              && negb (has_line_terminator (rev rmid)))%bool
          then of_chars (rev rmid) else cell
      | [] => cell
      end
  | [] => cell
  end.

Definition splitCsvLine (line : string) : list string :=
  map unquote (split_cells (chars line) []).

Definition is_slug_char (c : ascii) : bool :=
  let n := nat_of_ascii c in
  ((97 <=? n)%nat && (n <=? 122)%nat) || ((48 <=? n)%nat && (n <=? 57)%nat).

(** [.replace(/[^a-z0-9]+/g, DASH)]: every maximal run of other characters
    becomes one dash. *)
Fixpoint dash_runs (l : list ascii) (in_run : bool) : list ascii :=
  match l with
  | [] => []
  | c :: l' =>
      if is_slug_char c then c :: dash_runs l' false
      else if in_run then dash_runs l' true
      else DASH :: dash_runs l' true
  end.

Fixpoint drop_dashes (l : list ascii) : list ascii :=
  match l with
  | c :: l' => if is_char c DASH then drop_dashes l' else l
  | [] => []
  end.

Definition slugify (text : string) : string :=
  of_chars (rev (drop_dashes (rev (drop_dashes
    (dash_runs (chars (toLowerCase text)) false))))).

(** *** Number parsing *)

(** Values of [Number.parseFloat]; a finite value is kept as the decimal
    that was read, of which the double is the rounding: the two agree on the
    decimals a double holds exactly, and on whether the text is a number at
    all. *)
Inductive number : Type :=
  | NotANumber
  | Infinity (negative : bool)
  | Finite (q : Q).

Definition is_digit (c : ascii) : bool :=
  let n := nat_of_ascii c in (48 <=? n)%nat && (n <=? 57)%nat.

Definition digit_value (c : ascii) : Z := Z.of_nat (nat_of_ascii c - 48).

Fixpoint take_digits (l : list ascii) : list ascii * list ascii :=
  match l with
  | c :: l' =>
      if is_digit c then let '(ds, r) := take_digits l' in (c :: ds, r)
      else ([], l)
  | [] => ([], [])
  end.

Definition digits_value (ds : list ascii) : Z :=
  fold_left (fun acc c => 10 * acc + digit_value c) ds 0.

(** An optional sign: [true] when negative. *)
Definition take_sign (l : list ascii) : bool * list ascii :=
  match l with
  | c :: l' =>
      if is_char c "-"%char then (true, l')
      else if is_char c "+"%char then (false, l') else (false, l)
  | [] => (false, [])
  end.

Definition starts_with (p l : list ascii) : bool :=
  bool_decide (take (length p) l = p).

(** The exponent part [e[+-]digits], when it is complete. *)
Definition take_exponent (l : list ascii) : Z :=
  match l with
  | c :: l' =>
      if (is_char c "e"%char || is_char c "E"%char)%bool then
        let '(neg, l'') := take_sign l' in
        let '(ds, _) := take_digits l'' in
        match ds with
        | [] => 0
        | _ => if neg then - digits_value ds else digits_value ds
        end
      else 0
  | [] => 0
  end.

Definition pow10 (e : Z) : Q := Qpower (10 # 1) e.

(** [Number.parseFloat(s)] *)
Definition parseFloat (s : string) : number :=
  let '(neg, l) := take_sign (drop_spaces (chars s)) in
  if starts_with (chars "Infinity") l then Infinity neg
  else
    let '(int_ds, l1) := take_digits l in
    let '(frac_ds, l2) :=
      match l1 with
      | c :: l1' => if is_char c "."%char then take_digits l1' else ([], l1)
      | [] => ([], [])
      end in
    match int_ds, frac_ds with
    | [], [] => NotANumber
    | _, _ =>
        let mant := digits_value (int_ds ++ frac_ds) in
        let e := take_exponent l2 - Z.of_nat (length frac_ds) in
        let q := Qred (inject_Z mant * pow10 e) in
        Finite (if neg then Qopp q else q)
    end.

(** [Number.parseInt(s, 10)] *)
Definition parseInt10 (s : string) : Js.num :=
  let '(neg, l) := take_sign (drop_spaces (chars s)) in
  let '(ds, _) := take_digits l in
  match ds with
  | [] => Js.NaN
  | _ => Js.Num (if neg then - digits_value ds else digits_value ds)
  end.



(** [x || 0] on a number: [NaN] and zero are falsy. *)
Definition or_zero (x : number) : number :=
  match x with
  | NotANumber => Finite 0
  | Finite q => if Qeq_bool q 0 then Finite 0 else Finite q
  | Infinity n => Infinity n
  end.

Definition newline : string := String LF EmptyString.

(** *** Rows to products *)

Record StoreProduct : Type := mkStoreProduct {
  id : string;
  name : option string;
  description : option string;
  brand : option string;
  category : option string;
  subCategory : option string;
  price : number;
  image : string;
  stock : Js.num;
}.

(** [Object.fromEntries(entries)]: a later entry overwrites an earlier one. *)
Definition fromEntries {A} (entries : list (string * A)) : gmap string A :=
  fold_left (fun m e => <[fst e := snd e]> m) entries ∅.

(** [Object.fromEntries(headers.map((h, idx) => [h, cells[idx] ?? empty]))] *)
Definition make_record (headers cells : list string) : gmap string string :=
  fromEntries (imap (fun idx h => (h, default EmptyString (cells !! idx))) headers).

(** [a || b] where [a] may be undefined. *)
Definition first_truthy (a : option string) : option string :=
  match a with
  | Some s => if truthy s then Some s else None
  | None => None
  end.

(** The product built from the record of a row; [None] is the [TypeError]
    raised by [slugify(undefined)]. *)
Definition product_of_record (record : gmap string string) : option StoreProduct :=
  let sku :=
    match first_truthy (record !! "sku_id") with
    | Some s => Some s
    | None =>
        match first_truthy (record !! "id") with
        | Some s => Some s
        | None =>
            match record !! "product_name" with
            | Some n => Some (slugify n)
            | None => None
            end
        end
    end in
  match sku with
  | None => None
  | Some sku =>
      Some {| id := sku;
              name := record !! "product_name";
              description := record !! "description";
              brand := record !! "brand";
              category := record !! "category";
              subCategory := record !! "sub_category";
              price := or_zero (parseFloat (default "undefined" (record !! "price")));
              image := default EmptyString (first_truthy (record !! "image_url"));
              stock := parseInt10 (default "0" (first_truthy (record !! "stock_quantity"))) |}
  end.

(** The body of the [map] callback. *)
Definition to_product (headers : list string) (line : string) : option StoreProduct :=
  product_of_record (make_record headers (splitCsvLine line)).

(** [rows.map(f)], stopping at the first exception. *)
Fixpoint map_all {A B} (f : A -> option B) (l : list A) : option (list B) :=
  match l with
  | [] => Some []
  | x :: l' =>
      match f x with
      | None => None
      | Some y =>
          match map_all f l' with
          | None => None
          | Some ys => Some (y :: ys)
          end
      end
  end.

(** What a run of the script leaves behind: an uncaught exception, or the
    product list written to the output file and the console lines. *)
Inductive Run : Type :=
  | Threw
  | Wrote (written : list StoreProduct) (console : list string).

Definition nonblank (line : string) : bool := truthy (trim line).

(** [const products = rows.filter(...).map(...)] *)
Definition products (headers rows : list string) : option (list StoreProduct) :=
  map_all (to_product headers) (List.filter nonblank rows).

Definition generate_products (outputPath csvRaw : string) : Run :=
  match split_lines (chars (trim csvRaw)) [] with
  | [] => Threw
  | headerLine :: rows =>
      match products (splitCsvLine headerLine) rows with
      | None => Threw
      | Some ps =>
          Wrote ps ["Wrote " ++ of_nat (length ps) ++ " products to " ++ outputPath]
      end
  end.

(** The columns the script reads from a row. *)
Definition used_columns : list string :=
  [ "sku_id"; "id"; "product_name"; "description"; "brand"; "category";
    "sub_category"; "price"; "image_url"; "stock_quantity" ].

(** A product none of whose text fields is undefined. *)
Definition complete (p : StoreProduct) : bool :=
  match name p, description p, brand p, category p, subCategory p with
  | Some _, Some _, Some _, Some _, Some _ => true
  | _, _, _, _, _ => false
  end.

(** The statement that a row with a missing column is never loaded: a run
    does not abort and writes only products with every field present. *)
Definition loads_only_complete_rows : Prop :=
  forall outputPath csvRaw : string,
    match generate_products outputPath csvRaw with
    | Threw => False
    | Wrote written _ => Forall (fun p => complete p = true) written
    end.

End Catalog.

(** ** Customer-map generator (the script that writes src/data/customerMap.js) *)

Module CustomerMap.
Import JsString.

Definition adjectives : list string :=
  [ "citrus"; "amber"; "sunny"; "fresh"; "mellow"; "zesty"; "crisp";
    "breezy"; "velvet"; "brisk" ].

Definition nouns : list string :=
  [ "otter"; "sparrow"; "baker"; "sprout"; "harvest"; "grove"; "market";
    "orchard"; "ridge"; "meadow" ].

(** The nested loops that fill [randomNamePool]. *)
Definition randomNamePool : list string :=
  flat_map (fun adj =>
    imap (fun j noun => adj ++ "-" ++ noun ++ "-" ++ padStart0 2 (of_nat (j + 1)))
         nouns)
    adjectives.

(** [line.split(",")[0]]: the text before the first comma. *)
Fixpoint first_cell (l : list ascii) : list ascii :=
  match l with
  | [] => []
  | c :: l' => if Catalog.is_char c Catalog.COMMA then [] else c :: first_cell l'
  end.

(** [Array.from(new Set(l))]: first occurrences, in order; [seen] holds the
    values met so far. *)
Fixpoint distinct (l seen : list string) : list string :=
  match l with
  | [] => []
  | x :: l' =>
      if bool_decide (x ∈ seen) then distinct l' seen
      else x :: distinct l' (x :: seen)
  end.

(** The customer ids found in the clickstream CSV, before the numeric sort.
    The sort only permutes this list, and the customers generated below
    depend on positions alone. *)
Definition found_ids (csvText : string) : list string :=
  let csv := Catalog.split_lines (chars (trim csvText)) [] in
  let rows := drop 1 csv in
  distinct
    (List.filter (fun id => truthy id && negb (String.eqb id "customer_id"))
       (map (fun line => of_chars (first_cell (chars line))) rows))
    [].

Record Customer : Type := mkCustomer {
  id : string;
  username : string;
}.

(** [ids.map((id, idx) => ({ id: "C" + pad3(idx + 1), username: pool[idx] }))];
    the length guard of the script keeps [idx] inside the pool. *)
Definition customer_at (idx : nat) : Customer :=
  {| id := "C" ++ padStart0 3 (of_nat (idx + 1));
     username := nth idx randomNamePool EmptyString |}.

Definition customers (ids : list string) : list Customer :=
  imap (fun idx _ => customer_at idx) ids.

Definition usernameToCustomerId (cs : list Customer) : gmap string string :=
  Catalog.fromEntries (map (fun c => (username c, id c)) cs).

Definition customerIdToUsername (cs : list Customer) : gmap string string :=
  Catalog.fromEntries (map (fun c => (id c, username c)) cs).

(** [id] is the text of [line] before its first comma, the whole line when
    it has none. *)
Definition leads (id line : string) : Prop :=
  ~ In Catalog.COMMA (chars id) /\
  exists rest,
    chars line = (chars id ++ rest)%list /\
    (rest = [] \/ exists r, rest = Catalog.COMMA :: r).

(** A run of the script on the ids it found: the thrown error when the
    pool is too small, otherwise the generated customers. *)
Definition generate_customers (ids : list string) : option (list Customer) :=
  if (length randomNamePool <? length ids)%nat then None
  else Some (customers ids).

End CustomerMap.

(** ** Basket reducer (FrontEnd/src/context/BasketContext.jsx) *)

Module Basket.
Import Js.

(** The products in the basket are the ones of the generated catalogue. *)
Abbreviation Product := Catalog.StoreProduct.

(** A basket entry [{ product, quantity }].  The [product] field is absent
    from an entry rebuilt by spreading an inherited value, and [quantity]
    is [NaN] when it was computed from an inherited value. *)
Record Item : Type := mkItem {
  product : option Product;
  quantity : num;
}.

Record State : Type := mkState {
  items : gmap string Item;
}.

Definition initialState : State := {| items := ∅ |}.

Inductive Action : Type :=
  | add (product : Product) (quantity : num)
  | update (productId : string) (quantity : num)
  | clear
  | other.

Definition reducer (state : State) (action : Action) : State :=
  match action with
  | add p q =>
      (* existing = state.items[product.id] || { product, quantity: 0 } *)
      let existing_quantity :=
        match get (items state) (Catalog.id p) with
        | Own it => quantity it
        | Inherited => NaN          (* undefined + quantity *)
        | Undefined => Num 0
        end in
      let nextQty := num_add existing_quantity q in
      {| items := <[Catalog.id p := {| product := Some p; quantity := nextQty |}]>
                    (items state) |}
  | update productId q =>
      if num_leb q (Num 0) then
        {| items := delete productId (items state) |}
      else
        match get (items state) productId with
        | Undefined => state
        | Own current =>
            {| items := <[productId := {| product := product current;
                                          quantity := q |}]> (items state) |}
        | Inherited =>
            (* { ...current, quantity }: no own enumerable property is copied *)
            {| items := <[productId := {| product := None; quantity := q |}]>
                          (items state) |}
        end
  | clear => initialState
  | other => state
  end.

(** [handleQuantity] of the basket page: [updateQuantity(id, Math.max(0, qty))]. *)
Definition handleQuantity (state : State) (pid : string) (qty : num) : State :=
  reducer state (update pid (num_max (Num 0) qty)).

End Basket.

(** ** Interaction provider and the pages that record events
    (src/context/InteractionContext.jsx, services/api.js, pages) *)

Module Interaction.
Import Js.

(** One line of a purchase event: [{ productId, quantity, price }]. *)
Record Line : Type := mkLine {
  line_productId : string;
  line_quantity : num;
  line_price : Catalog.number;
}.

(** An interaction event object; absent properties are [None]. *)
Record Event : Type := mkEvent {
  type : option string;
  eventType : option string;
  productId : option string;
  source : option string;
  query : option string;
  username : option string;
  total : option Catalog.number;
  items : option (list Line);
  user : option string;
  timestamp : option Z;
}.

Definition blank : Event :=
  {| type := None; eventType := None; productId := None; source := None;
     query := None; username := None; total := None; items := None;
     user := None; timestamp := None |}.

(** A truthy result of reading one of the generated tables: a string of the
    table, or the member of [Object.prototype] found under that key. *)
Inductive Entry : Type :=
  | Str (s : string)
  | PrototypeMember (key : string).

Record Profile : Type := mkProfile {
  email : string;
  name : string;
  customerId : Entry;
  profile_username : Entry;
  previousInteractions : list Event;
}.

Section Api.

(** The generated tables of src/data/customerMap.js. *)
Variable usernameToCustomerId : gmap string string.
Variable customerIdToUsername : gmap string string.

(** [fetchUserProfile(identifier)]; [now1] and [now2] are the two readings
    of [Date.now()], in evaluation order.  [None] is the thrown
    [Error("User not found")]. *)
Definition fetchUserProfile (identifier : string) (now1 now2 : Z)
  : option Profile :=
  let username := if JsString.truthy identifier then identifier else "guest" in
  let found :=
    match get usernameToCustomerId username with
    | Own cid => if JsString.truthy cid then Some (Str cid) else None
    | Inherited => Some (PrototypeMember username)
    | Undefined => None
    end in
  match found with
  | None => None
  | Some ref =>
      let mapped :=
        match ref with
        | Str cid =>
            match get customerIdToUsername cid with
            | Own u => Str (if JsString.truthy u then u else username)
            | Inherited => PrototypeMember cid
            | Undefined => Str username
            end
        | PrototypeMember _ =>
            (* the key is the text of the member, not a key of the
               generated table, whose keys are customer ids *)
            Str username
        end in
      Some {| email := username ++ "@example.com";
              name := username;
              customerId := ref;
              profile_username := mapped;
              previousInteractions :=
                [ {| type := Some "view"; eventType := None;
                     productId := Some "sourdough"; source := None;
                     query := None; username := None; total := None;
                     items := None; user := None;
                     timestamp := Some (now1 - 86400000) |};
                  {| type := Some "search"; eventType := None;
                     productId := None; source := None;
                     query := Some "berries"; username := None; total := None;
                     items := None; user := None;
                     timestamp := Some (now2 - 43200000) |} ] |}
  end.

(** State of [InteractionProvider], together with the events handed to the
    API stub [sendInteraction], oldest first. *)
Record Provider : Type := mkProvider {
  st_user : option Profile;
  interactions : list Event;
  sent : list Event;
}.

Definition initial : Provider :=
  {| st_user := None; interactions := []; sent := [] |}.

(** [login(username)]: a rejected profile fetch leaves the state as it is. *)
Definition login (uname : string) (now1 now2 : Z) (s : Provider) : Provider :=
  match fetchUserProfile uname now1 now2 with
  | None => s
  | Some profile =>
      {| st_user := Some profile;
         interactions := previousInteractions profile;
         sent := sent s |}
  end.

Definition logout (s : Provider) : Provider :=
  {| st_user := None; interactions := []; sent := sent s |}.

(** [{ ...event, user: user?.email ?? "anonymous", timestamp: Date.now() }];
    [closure_user] is the [user] captured by the callback that is invoked. *)
Definition payload (closure_user : option Profile) (event : Event) (now : Z)
  : Event :=
  {| type := type event; eventType := eventType event;
     productId := productId event; source := source event;
     query := query event; username := username event;
     total := total event; items := items event;
     user := Some (match closure_user with
                   | Some p => email p
                   | None => "anonymous"
                   end);
     timestamp := Some now |}.

(** [trackInteraction(event)]:
    [setInteractions(prev => [payload, ...prev].slice(0, 50))], then the
    payload goes to the API stub. *)
Definition trackInteraction (closure_user : option Profile) (event : Event)
    (now : Z) (s : Provider) : Provider :=
  let p := payload closure_user event now in
  {| st_user := st_user s;
     interactions := take 50 (p :: interactions s);
     sent := sent s ++ [p] |}.

(** [lastInteraction: interactions[0] ?? null] *)
Definition lastInteraction (s : Provider) : option Event :=
  head (interactions s).

Inductive Step : Type :=
  | DoLogin (uname : string) (now1 now2 : Z)
  | DoLogout
  | DoTrack (closure_user : option Profile) (event : Event) (now : Z).

Definition step (s : Provider) (a : Step) : Provider :=
  match a with
  | DoLogin u n1 n2 => login u n1 n2 s
  | DoLogout => logout s
  | DoTrack cu e n => trackInteraction cu e n s
  end.

Definition run (trace : list Step) : Provider := fold_left step trace initial.

End Api.

(** *** Events built by the pages *)

(** ProductListPage: [handleSearch] and the debounced search effect. *)
Definition search_event (term : string) : Event :=
  {| type := Some "search"; eventType := None; productId := None;
     source := None; query := Some term; username := None; total := None;
     items := None; user := None; timestamp := None |}.

Definition handleSearch (query : string) : option Event :=
  let term := JsString.trim query in
  if JsString.truthy term then Some (search_event term) else None.

Definition view_event (pid src : string) : Event :=
  {| type := Some "view"; eventType := Some "view"; productId := Some pid;
     source := Some src; query := None; username := None; total := None;
     items := None; user := None; timestamp := None |}.

Definition add_event (pid src : string) : Event :=
  {| type := Some "add_to_basket"; eventType := Some "add_to_cart";
     productId := Some pid; source := Some src; query := None;
     username := None; total := None; items := None; user := None;
     timestamp := None |}.

(** ProductListPage: [handleProductClick(product)]. *)
Definition handleProductClick (pid : string) : Event :=
  view_event pid "product_list".

(** ProductListPage and ProductDetailPage: [handleAdd]; a visitor who is
    not signed in is sent to the login page and nothing is recorded. *)
Definition handleAdd (signed_in : option Profile) (pid src : string)
  : option Event :=
  match signed_in with
  | None => None
  | Some _ => Some (add_event pid src)
  end.

(** ProductDetailPage: the load effect. *)
Definition detail_load (pid : string) : Event :=
  view_event pid "product_detail".

(** CheckoutPage: [handleSubmit]. *)
Definition checkout_submit (totalCost : Catalog.number) (lines : list Line)
  : Event :=
  {| type := Some "purchase"; eventType := Some "purchase"; productId := None;
     source := None; query := None; username := None;
     total := Some totalCost; items := Some lines; user := None;
     timestamp := None |}.

(** LoginPage: [handleSubmit], after a successful login. *)
Definition login_submit (uname : string) : Event :=
  {| type := Some "login"; eventType := None; productId := None;
     source := None; query := None; username := Some uname; total := None;
     items := None; user := None; timestamp := None |}.

(** HomePage: [onProductClick]. *)
Definition hero_click (pid : string) : Event :=
  {| type := Some "hero_view"; eventType := None; productId := Some pid;
     source := None; query := None; username := None; total := None;
     items := None; user := None; timestamp := None |}.

(** The events the storefront pages hand to [trackInteraction]. *)
Inductive recorded : Event -> Prop :=
  | rec_search query e : handleSearch query = Some e -> recorded e
  | rec_auto_search query :
      (3 <= JsString.length_utf16 (JsString.trim query))%nat ->
      recorded (search_event (JsString.trim query))
  | rec_click pid : recorded (handleProductClick pid)
  | rec_add u pid src e :
      src = "product_list" \/ src = "product_detail" ->
      handleAdd u pid src = Some e -> recorded e
  | rec_detail pid : recorded (detail_load pid)
  | rec_checkout t ls : ls <> [] -> recorded (checkout_submit t ls)
  | rec_login u : recorded (login_submit u)
  | rec_hero pid : recorded (hero_click pid).

(** *** Vocabulary of the statements about the history *)

Definition time_of (e : Event) : Z := default 0 (timestamp e).

(** Timestamps never increase from the head of the list to its tail. *)
Fixpoint newest_first (l : list Event) : bool :=
  match l with
  | a :: l' =>
      match l' with
      | b :: _ => (time_of b <=? time_of a) && newest_first l'
      | [] => true
      end
  | [] => true
  end.

(** No entry of the history is more recent than [e]. *)
Definition most_recent (l : list Event) (e : Event) : bool :=
  forallb (fun x => time_of x <=? time_of e) l.

(** The readings of the clock along a trace, in order. *)
Definition clock_readings (trace : list Step) : list Z :=
  flat_map (fun a => match a with
                     | DoLogin _ n1 n2 => [n1; n2]
                     | DoLogout => []
                     | DoTrack _ _ n => [n]
                     end) trace.

Fixpoint nondecreasing (l : list Z) : bool :=
  match l with
  | a :: l' =>
      match l' with
      | b :: _ => (a <=? b) && nondecreasing l'
      | [] => true
      end
  | [] => true
  end.

(** A trace whose tracked events all come from the storefront pages. *)
Definition storefront_trace (trace : list Step) : Prop :=
  Forall (fun a => match a with
                   | DoTrack _ e _ => recorded e
                   | _ => True
                   end) trace.

(** The event types of the InteractionEvent data model. *)
Definition model_event_types : list string := ["view"; "click"; "add_to_cart"].

(** The [type] values and the [eventType] values the pages use. *)
Definition page_types : list string :=
  ["view"; "search"; "add_to_basket"; "purchase"; "login"; "hero_view"].
Definition page_event_types : list string := ["view"; "add_to_cart"; "purchase"].

(** An event whose [type] or [eventType] is one of the model's event types. *)
Definition model_typed (e : Event) : bool :=
  match type e with
  | Some ty => bool_decide (ty ∈ model_event_types)
  | None => false
  end
  || match eventType e with
     | Some ty => bool_decide (ty ∈ model_event_types)
     | None => false
     end.

(** A run of tracked events: the captured user, the event and the clock
    reading of each call, in call order. *)
Definition track_all (calls : list (option Profile * Event * Z)) (s : Provider)
  : Provider :=
  fold_left (fun s c => trackInteraction (fst (fst c)) (snd (fst c)) (snd c) s)
            calls s.

Definition payloads (calls : list (option Profile * Event * Z)) : list Event :=
  map (fun c => payload (fst (fst c)) (snd (fst c)) (snd c)) calls.

(** An event whose [type] is one the pages use and whose [eventType], when
    it has one, is one the pages use. *)
Definition page_typed (e : Event) : bool :=
  match type e with
  | Some ty => bool_decide (ty ∈ page_types)
  | None => false
  end
  && match eventType e with
     | Some ty => bool_decide (ty ∈ page_event_types)
     | None => true
     end.

(** The statement that every event the storefront sends to the API carries
    an event type of the InteractionEvent data model. *)
Definition sent_events_model_typed : Prop :=
  forall (u2c c2u : gmap string string) (trace : list Step),
    storefront_trace trace ->
    forall p, In p (sent (run u2c c2u trace)) -> model_typed p = true.

(** The statement that the history is always bounded by 50, ordered
    newest-first, and headed by its most recent event. *)
Definition history_newest_first : Prop :=
  forall (u2c c2u : gmap string string) (trace : list Step),
    nondecreasing (clock_readings trace) = true ->
    let s := run u2c c2u trace in
    (length (interactions s) <= 50)%nat /\
    newest_first (interactions s) = true /\
    match lastInteraction s with
    | None => interactions s = []
    | Some e => most_recent (interactions s) e = true
    end.

End Interaction.

(** ** Recommendation client (services/api.js, [fetchRecommendation]) *)

Module RecoClient.

(** JSON values as [resp.json()] yields them. *)
#[local] Unset Elimination Schemes.
Inductive Json : Type :=
  | JNull
  | JBool (b : bool)
  | JNum (q : Q)
  | JStr (s : string)
  | JArr (l : list Json)
  | JObj (fields : list (string * Json)).
#[local] Set Elimination Schemes.

(** Build-time environment: the optional [VITE_RECO_*] overrides. *)
Record Env : Type := mkEnv {
  VITE_RECO_PRODUCTS_PATH : option string;
  VITE_RECO_TRANSACTIONS_PATH : option string;
  VITE_RECO_CLICKSTREAM_PATH : option string;
}.

(** [a || b] on an optional string. *)
Definition or_default (a : option string) (b : string) : string :=
  match a with
  | Some s => if JsString.truthy s then s else b
  | None => b
  end.

Definition RECO_PRODUCTS_PATH (env : Env) : string :=
  or_default (VITE_RECO_PRODUCTS_PATH env) "data/products.csv".
Definition RECO_TRANSACTIONS_PATH (env : Env) : string :=
  or_default (VITE_RECO_TRANSACTIONS_PATH env) "data/transactions.csv".
Definition RECO_CLICKSTREAM_PATH (env : Env) : string :=
  or_default (VITE_RECO_CLICKSTREAM_PATH env) "data/clickstream.csv".

(** An optional path argument of [fetchRecommendation]: left out (or
    [undefined]), [null], or a string. *)
Inductive PathArg : Type :=
  | Unset
  | Null
  | Path (s : string).

(** Argument object of [fetchRecommendation].  The pages pass the
    [customerId] of the signed-in profile, which is a string of the
    generated table or, after a sign-in under the name of an inherited
    member, that member of [Object.prototype]. *)
Record Args : Type := mkArgs {
  customerId : Interaction.Entry;
  productsPath : PathArg;
  transactionsPath : PathArg;
  clickstreamPath : PathArg;
}.

(** A property of the request body as [JSON.stringify] writes it: a
    string, [null], the empty object, or nothing at all. *)
Inductive Field : Type :=
  | Text (s : string)
  | NullValue
  | EmptyObject
  | LeftOut.

(** Body of the POST request to [/recommend]. *)
Record Request : Type := mkRequest {
  customer_id : Field;
  products_path : Field;
  transactions_path : Field;
  clickstream_path : Field;
}.

(** The [customer_id] property.  An inherited member is a function, which
    [JSON.stringify] leaves out, except under the key [__proto__], where it
    is [Object.prototype] itself, an object without enumerable
    properties. *)
Definition customer_field (e : Interaction.Entry) : Field :=
  match e with
  | Interaction.Str s => Text s
  | Interaction.PrototypeMember k =>
      if String.eqb k "__proto__" then EmptyObject else LeftOut
  end.

(** A parameter default applies only when the argument is [undefined]. *)
Definition param (a : PathArg) (dflt : string) : Field :=
  match a with
  | Unset => Text dflt
  | Null => NullValue
  | Path s => Text s
  end.

Definition request_of (env : Env) (a : Args) : Request :=
  {| customer_id := customer_field (customerId a);
     products_path := param (productsPath a) (RECO_PRODUCTS_PATH env);
     transactions_path := param (transactionsPath a) (RECO_TRANSACTIONS_PATH env);
     clickstream_path := param (clickstreamPath a) (RECO_CLICKSTREAM_PATH env) |}.

(** An HTTP response: [text] is what [resp.text()] resolves to and [json]
    what [resp.json()] resolves to ([None] when the body is not JSON and
    the parse rejects). *)
Record Response : Type := mkResponse {
  status : nat;
  statusText : string;
  text : string;
  json : option Json;
}.

(** [resp.ok]: the status is in the range 200-299. *)
Definition ok (r : Response) : bool :=
  ((200 <=? status r)%nat && (status r <=? 299)%nat)%bool.

(** What [fetch] settles to. *)
Inductive Fetched : Type :=
  | NetworkFailure
  | Responded (r : Response).

Inductive Exn : Type :=
  | Error (message : string)
  | SyntaxError
  | TypeError.

(** Settlement of the promise an [async] function returns. *)
Inductive Outcome : Type :=
  | Resolved (v : Json)
  | Rejected (e : Exn).

Definition failure_message (r : Response) : string :=
  "Recommendation API failed (" ++ JsString.of_nat (status r) ++ "): "
    ++ (if JsString.truthy (text r) then text r else statusText r).

Definition fetchRecommendation (env : Env) (backend : Request -> Fetched)
    (a : Args) : Outcome :=
  match backend (request_of env a) with
  | NetworkFailure => Rejected TypeError
  | Responded resp =>
      if negb (ok resp) then Rejected (Error (failure_message resp))
      else match json resp with
           | Some v => Resolved v
           | None => Rejected SyntaxError
           end
  end.

(** The statement that the entry point never throws: whatever the backend
    answers, the caller gets a value (the record, or a not-found signal). *)
Definition always_resolves : Prop :=
  forall (env : Env) (a : Args) (resp : Response),
    exists v, fetchRecommendation env (fun _ => Responded resp) a = Resolved v.

End RecoClient.

(** ** Recommendation core

    The scoring engine, constraint filter, selector and orchestrator are not
    among the sources; they are modelled from the design (spec sections 3,
    4 and 7) over the real numbers, so rounding is not represented.  Time
    is a real number of hours. *)

Module Reco.
Local Open Scope R_scope.

(** *** Data model *)

(** Modelled from the spec: the Product record of section 3; a flag that is
    missing or malformed in the table is [None]. *)
Record Product : Type := mkProduct {
  product_id : string;
  product_name : string;
  product_category : string;
  is_discounted : option bool;
  in_stock : option bool;
}.

(** Modelled from the spec: the Transaction record of section 3.  A date
    that cannot be parsed and a quantity whose column is missing are [None]
    (the data errors of section 7). *)
Record Transaction : Type := mkTransaction {
  t_customer : string;
  t_product : string;
  t_date : option R;
  t_quantity : option nat;
  t_category : string;
}.

(** Modelled from the spec: the event types of an InteractionEvent. *)
Inductive EventType : Type := view | click | add_to_cart.

(** Modelled from the spec: the InteractionEvent record of section 3.  A
    timestamp that cannot be parsed is [None] (section 7). *)
Record InteractionEvent : Type := mkInteractionEvent {
  e_customer : string;
  e_time : option R;
  e_type : EventType;
  e_product : option string;
}.

(** Modelled from the spec: the five scoring components, a fixed set of
    variants behind one interface (section 9). *)
Inductive Component : Type :=
  | CategoryAffinity
  | RepurchaseLikelihood
  | ClickstreamIntent
  | ProductPopularity
  | Exploration.

(** Modelled from the spec: the component names of the score breakdown. *)
Definition component_name (c : Component) : string :=
  match c with
  | CategoryAffinity => "category_affinity"
  | RepurchaseLikelihood => "repurchase_likelihood"
  | ClickstreamIntent => "clickstream_intent"
  | ProductPopularity => "product_popularity"
  | Exploration => "exploration"
  end.

(** Modelled from the spec: the five components, in the order of section 4.1. *)
Definition all_components : list Component :=
  [ CategoryAffinity; RepurchaseLikelihood; ClickstreamIntent;
    ProductPopularity; Exploration ].

(** Modelled from the spec: the configuration document of section 6. *)
Record Config : Type := mkConfig {
  weight : Component -> R;
  decay_days : R;
  cycle_std_days : R;
  min_purchases : nat;
  recency_weight : R;
  intent_decay_hours : R;
  event_weight : EventType -> R;
  customer_weight : R;
  frequency_weight : R;
  exclude_recent_purchases_days : option R;
  exclude_discounted : bool;
  exclude_out_of_stock : bool;
  top_k : nat;
  shown_decay_hours : R;
}.

(** Modelled from the spec: ScoreBreakdown, a mapping from component name to
    score plus the weighted final score. *)
Record ScoreBreakdown : Type := mkScoreBreakdown {
  components : gmap string R;
  final_score : R;
}.

(** Modelled from the spec: a candidate with its scores. *)
Record Scored : Type := mkScored {
  candidate : Product;
  breakdown : ScoreBreakdown;
}.

(** Modelled from the spec: the Recommendation record of section 3. *)
Record Recommendation : Type := mkRecommendation {
  r_customer : string;
  r_product_id : string;
  r_product_name : string;
  r_product_category : string;
  r_scores : ScoreBreakdown;
  r_rank : nat;
  r_total_candidates : nat;
  r_timestamp : R;
}.

(** Modelled from the spec: the ShownRecord store, customer id to the list
    of (product id, shown timestamp) entries. *)
Abbreviation ShownStore := (gmap string (list (string * R))).

(** *** Arithmetic helpers *)

(** Modelled from the spec: the sums written with a capital sigma. *)
Definition Rsum (l : list R) : R := fold_right Rplus 0 l.

(** Modelled from the spec: the maximum of a list, absent for no value. *)
Fixpoint list_max (l : list R) : option R :=
  match l with
  | [] => None
  | x :: l' =>
      Some (match list_max l' with
            | None => x
            | Some m => Rmax x m
            end)
  end.

(** Modelled from the spec: division by the maximum, 0 when there is no
    value to take the maximum of or when the maximum is 0. *)
Definition normalise (x : R) (m : option R) : R :=
  match m with
  | None => 0
  | Some m => if Req_dec_T m 0 then 0 else x / m
  end.

(** Modelled from the spec: hours between an instant and [now]. *)
Definition hours_between (t now : R) : R := now - t.

(** Modelled from the spec: days between an instant and [now]. *)
Definition days_between (t now : R) : R := (now - t) / 24.

(** *** Scoring engine (section 4.1) *)

Section Scoring.

Variable cfg : Config.
Variable catalog : list Product.
Variable transactions : list Transaction.
Variable events : list InteractionEvent.
(** The exploration draw of each candidate, from the injected generator. *)
Variable draw : Product -> R.
Variable customer : string.
Variable now : R.

(** Modelled from the spec: the customer's past purchases. *)
Definition history : list Transaction :=
  filter (fun t => t_customer t = customer) transactions.

(** Modelled from the spec: weight times ln(1 + quantity) for one purchase.
    A purchase whose date cannot be parsed or whose quantity is missing is
    skipped (section 7). *)
Definition purchase_term (t : Transaction) : option R :=
  match t_date t, t_quantity t with
  | Some d, Some q =>
      Some (exp (- days_between d now / decay_days cfg) * ln (1 + INR q))
  | _, _ => None
  end.

(** Modelled from the spec: the terms of the customer's purchases in
    category [c], summed. *)
Definition category_score (c : string) : R :=
  Rsum (omap purchase_term (filter (fun t => t_category t = c) history)).

(** Modelled from the spec: category affinity of a candidate. *)
Definition category_affinity (p : Product) : R :=
  normalise (category_score (product_category p))
            (list_max (map (fun t => category_score (t_category t)) history)).

(** Modelled from the spec: insertion of a date into a list ordered by date. *)
Fixpoint insert_date (d : R) (l : list R) : list R :=
  match l with
  | [] => [d]
  | x :: l' => if Rle_dec d x then d :: l else x :: insert_date d l'
  end.

(** Modelled from the spec: purchase dates ordered by date. *)
Definition ordered_dates (l : list R) : list R := fold_right insert_date [] l.

(** Modelled from the spec: consecutive purchase-date deltas, in days. *)
Fixpoint deltas (dates : list R) : list R :=
  match dates with
  | d1 :: rest =>
      match rest with
      | d2 :: _ => (d2 - d1) / 24 :: deltas rest
      | [] => []
      end
  | [] => []
  end.

(** Modelled from the spec: the mean of a list, absent for no value. *)
Definition mean (l : list R) : option R :=
  match l with
  | [] => None
  | _ => Some (Rsum l / INR (length l))
  end.

(** Modelled from the spec: repurchase likelihood of a candidate, from the
    customer's purchases of it whose date could be parsed.  A single
    purchase has no cycle; a loaded configuration asks for two at least. *)
Definition repurchase_likelihood (p : Product) : R :=
  let dates :=
    ordered_dates
      (omap t_date (filter (fun t => t_product t = product_id p) history)) in
  match dates with
  | [] => 0
  | d :: _ =>
      if (length dates <? min_purchases cfg)%nat then 0
      else
        match mean (deltas dates) with
        | None => 0
        | Some avg_cycle =>
            let deviation :=
              Rabs (days_between (List.last dates d) now - avg_cycle) in
            exp (- (deviation ^ 2 / (2 * cycle_std_days cfg ^ 2)))
        end
  end.

(** Modelled from the spec: the combined score of one interaction event; an
    event whose timestamp cannot be parsed is skipped (section 7). *)
Definition combined (e : InteractionEvent) : option R :=
  match e_time e with
  | Some t =>
      Some (recency_weight cfg
              * exp (- hours_between t now / intent_decay_hours cfg)
            + (1 - recency_weight cfg) * event_weight cfg (e_type e))
  | None => None
  end.

(** Modelled from the spec: the combined scores of the customer's events
    that reference a product, summed. *)
Definition intent_sum (pid : string) : R :=
  Rsum (omap combined
             (filter (fun e => e_customer e = customer /\ e_product e = Some pid)
                     events)).

(** Modelled from the spec: clickstream intent of a candidate, normalised by
    the maximum over all candidates. *)
Definition clickstream_intent (p : Product) : R :=
  normalise (intent_sum (product_id p))
            (list_max (map (fun q => intent_sum (product_id q)) catalog)).

(** Modelled from the spec: first occurrences of customer ids. *)
Fixpoint unique (l : list string) : list string :=
  match l with
  | [] => []
  | x :: l' => x :: filter (fun y => y <> x) (unique l')
  end.

(** Modelled from the spec: number of distinct customers who bought a product. *)
Definition unique_customers (pid : string) : R :=
  INR (length (unique (map t_customer
                           (filter (fun t => t_product t = pid) transactions)))).

(** Modelled from the spec: total quantity sold of a product; a purchase
    whose quantity is missing is skipped (section 7). *)
Definition total_quantity (pid : string) : R :=
  Rsum (map INR (omap t_quantity
                   (filter (fun t => t_product t = pid) transactions))).

(** Modelled from the spec: popularity of a candidate. *)
Definition product_popularity (p : Product) : R :=
  customer_weight cfg
    * normalise (unique_customers (product_id p))
                (list_max (map (fun q => unique_customers (product_id q)) catalog))
  + frequency_weight cfg
    * normalise (total_quantity (product_id p))
                (list_max (map (fun q => total_quantity (product_id q)) catalog)).

(** Modelled from the spec: the common interface of the five components. *)
Definition component_score (c : Component) (p : Product) : R :=
  match c with
  | CategoryAffinity => category_affinity p
  | RepurchaseLikelihood => repurchase_likelihood p
  | ClickstreamIntent => clickstream_intent p
  | ProductPopularity => product_popularity p
  | Exploration => draw p
  end.

(** Modelled from the spec: the scoring engine (scoring_engine.py is not
    among the sources); the breakdown of a candidate, every component
    entered under its name, and the weighted final score. *)
Definition score_product (p : Product) : ScoreBreakdown :=
  {| components :=
       fold_right (fun c m => <[component_name c := component_score c p]> m)
                  ∅ all_components;
     final_score :=
       Rsum (map (fun c => weight cfg c * component_score c p) all_components) |}.

(** Modelled from the spec: a ScoreBreakdown for every catalog product. *)
Definition score_all : list Scored :=
  map (fun p => {| candidate := p; breakdown := score_product p |}) catalog.

End Scoring.

(** Modelled from the spec: the score a breakdown holds for a component. *)
Definition component_value (b : ScoreBreakdown) (c : Component) : R :=
  default 0 (components b !! component_name c).

(** *** Configuration loading (sections 4.1 and 7) *)

(** Modelled from the spec: the sum of the five scoring weights. *)
Definition weight_sum (cfg : Config) : R := Rsum (map (weight cfg) all_components).

(** Modelled from the spec: the comparisons of the checks at load time. *)
Definition Rleb (x y : R) : bool := if Rle_dec x y then true else false.
Definition Rltb (x y : R) : bool := if Rlt_dec x y then true else false.

(** Modelled from the spec: parameters that are not malformed (section 7),
    that is, with which every formula of section 4.1 is defined and every
    component stays in [0,1]: no scoring weight is negative, the two decay
    windows and the cycle deviation are positive, a cycle is taken from two
    purchases at least, the recency weight is in [0,1], no event weight is
    negative, and the popularity sub-weights are not negative and sum to at
    most 1. *)
Definition well_formed (cfg : Config) : Prop :=
  (forall c, 0 <= weight cfg c) /\
  0 < decay_days cfg /\
  0 < cycle_std_days cfg /\
  (2 <= min_purchases cfg)%nat /\
  0 <= recency_weight cfg <= 1 /\
  0 < intent_decay_hours cfg /\
  (forall ty, 0 <= event_weight cfg ty) /\
  0 <= customer_weight cfg /\ 0 <= frequency_weight cfg /\
  customer_weight cfg + frequency_weight cfg <= 1.

(** Modelled from the spec: the check of the parameters at load time. *)
Definition valid_parameters (cfg : Config) : bool :=
  forallb (fun c => Rleb 0 (weight cfg c)) all_components
  && Rltb 0 (decay_days cfg)
  && Rltb 0 (cycle_std_days cfg)
  && (2 <=? min_purchases cfg)%nat
  && Rleb 0 (recency_weight cfg) && Rleb (recency_weight cfg) 1
  && Rltb 0 (intent_decay_hours cfg)
  && forallb (fun ty => Rleb 0 (event_weight cfg ty)) [view; click; add_to_cart]
  && Rleb 0 (customer_weight cfg) && Rleb 0 (frequency_weight cfg)
  && Rleb (customer_weight cfg + frequency_weight cfg) 1.

(** Modelled from the spec: configuration loading (the loader of main.py is
    not among the sources); weights that do not sum to 1 within [epsilon]
    and malformed parameters are fatal configuration errors ([None]),
    raised before any scoring runs. *)
Definition load_config (epsilon : R) (raw : Config) : option Config :=
  if Rleb (Rabs (weight_sum raw - 1)) epsilon && valid_parameters raw
  then Some raw else None.

(** Modelled from the spec: a configuration document, with the values the
    design document gives as its example. *)
Definition example_config : Config :=
  {| weight := fun c => match c with
                        | CategoryAffinity => 30 / 100
                        | RepurchaseLikelihood => 25 / 100
                        | ClickstreamIntent => 25 / 100
                        | ProductPopularity => 10 / 100
                        | Exploration => 10 / 100
                        end;
     decay_days := 90;
     cycle_std_days := 7;
     min_purchases := 2;
     recency_weight := 7 / 10;
     intent_decay_hours := 24;
     event_weight := fun ty => match ty with
                               | view => 3 / 10
                               | click => 5 / 10
                               | add_to_cart => 1
                               end;
     customer_weight := 6 / 10;
     frequency_weight := 4 / 10;
     exclude_recent_purchases_days := Some 14;
     exclude_discounted := true;
     exclude_out_of_stock := true;
     top_k := 20;
     shown_decay_hours := 24 |}.

(** Modelled from the spec: the first catalog row of the design document. *)
Definition milk : Product :=
  {| product_id := "P001"; product_name := "Organic Milk 1L";
     product_category := "dairy"; is_discounted := Some false;
     in_stock := Some true |}.

(** Modelled from the spec: the second catalog row of the design document. *)
Definition bread : Product :=
  {| product_id := "P002"; product_name := "Whole Wheat Bread";
     product_category := "bakery"; is_discounted := Some false;
     in_stock := Some true |}.

(** Modelled from the spec: a scored candidate whose five components and
    final score all equal [s] (example data for the selector). *)
Definition flat_scored (p : Product) (s : R) : Scored :=
  {| candidate := p;
     breakdown :=
       {| components :=
            fold_right (fun c m => <[component_name c := s]> m) ∅ all_components;
          final_score := s |} |}.

(** *** Constraint filter (section 4.2) *)

Section Filter.

Variable cfg : Config.
Variable transactions : list Transaction.
Variable customer : string.
Variable now : R.

(** Modelled from the spec: the customer bought the product within the
    configured number of days of [now]; the rule is skipped for a purchase
    whose date cannot be parsed (section 7). *)
Definition recently_purchased (pid : string) : bool :=
  match exclude_recent_purchases_days cfg with
  | None => false
  | Some days =>
      existsb (fun t =>
                 bool_decide (t_customer t = customer /\ t_product t = pid)
                 && match t_date t with
                    | Some d =>
                        if Rle_dec (days_between d now) days then true else false
                    | None => false
                    end)
              transactions
  end.

(** Modelled from the spec: the three hard exclusions, in order; a rule
    whose flag is missing is skipped for that product. *)
Definition admissible (p : Product) : bool :=
  negb (recently_purchased (product_id p))
  && negb (exclude_discounted cfg
           && match is_discounted p with Some d => d | None => false end)
  && negb (exclude_out_of_stock cfg
           && match in_stock p with Some a => negb a | None => false end).

(** Modelled from the spec: the constraint filter (constraint_filter.py is
    not among the sources); the filtered candidate subset, order preserved. *)
Definition constraint_filter (scored : list Scored) : list Scored :=
  List.filter (fun sc => admissible (candidate sc)) scored.

End Filter.

(** *** Selector (section 4.3) *)

(** Modelled from the spec: the final score of a scored candidate. *)
Definition score (sc : Scored) : R := final_score (breakdown sc).

(** Modelled from the spec: stable insertion by descending final score. *)
Fixpoint insert_by_score (x : Scored) (l : list Scored) : list Scored :=
  match l with
  | [] => [x]
  | y :: l' =>
      if Rlt_dec (score x) (score y) then y :: insert_by_score x l'
      else x :: l
  end.

(** Modelled from the spec: step 1, sort by final score descending with
    ties kept in candidate order. *)
Definition sort_by_score (l : list Scored) : list Scored :=
  fold_right insert_by_score [] l.

(** Modelled from the spec: a product was shown within the decay window. *)
Definition shown_recently (decay now : R) (entries : list (string * R))
    (pid : string) : bool :=
  existsb (fun e => bool_decide (fst e = pid)
                    && (if Rle_dec (hours_between (snd e) now) decay
                        then true else false))
          entries.

(** Modelled from the spec: the weights of the draw; the scores, or equal
    weights when every score is 0. *)
Definition sampling_weights (scores : list R) : list R :=
  if forallb (fun s => if Req_dec_T s 0 then true else false) scores
  then map (fun _ => 1) scores
  else scores.

(** Modelled from the spec: the candidate whose cumulative weight first
    exceeds the target; the last one when none does. *)
Fixpoint pick_index (ws : list R) (target : R) : nat :=
  match ws with
  | [] => 0
  | w :: ws' =>
      match ws' with
      | [] => 0
      | _ => if Rlt_dec target w then 0%nat else S (pick_index ws' (target - w))
      end
  end.

(** Modelled from the spec: step 3 of the selector (selector.py is not
    among the sources), score-weighted sampling driven by a draw [u] of the
    injected generator. *)
Definition sample_index (scores : list R) (u : R) : nat :=
  let ws := sampling_weights scores in
  pick_index ws (u * Rsum ws).

(** Modelled from the spec: probability(p_i) = score_i / sum of scores, and
    the uniform probability when every score is 0. *)
Definition selection_probability (scores : list R) (i : nat) : R :=
  let ws := sampling_weights scores in
  nth i ws 0 / Rsum ws.

Section Selector.

Variable cfg : Config.

(** Modelled from the spec: step 1, the top-K of the sorted candidates. *)
Definition top_candidates (filtered : list Scored) : list Scored :=
  take (top_k cfg) (sort_by_score filtered).

(** Modelled from the spec: the customer's ShownRecord entries. *)
Definition shown_entries (store : ShownStore) (customer : string)
  : list (string * R) :=
  default [] (store !! customer).

(** Modelled from the spec: step 2 before the fallback, the top-K minus the
    products shown within the window. *)
Definition eligible_minus_shown (store : ShownStore) (customer : string)
    (now : R) (filtered : list Scored) : list Scored :=
  List.filter
    (fun sc => negb (shown_recently (shown_decay_hours cfg) now
                       (shown_entries store customer)
                       (product_id (candidate sc))))
    (top_candidates filtered).

(** Modelled from the spec: step 2, with the fallback to the full top-K. *)
Definition remaining (store : ShownStore) (customer : string) (now : R)
    (filtered : list Scored) : list Scored :=
  match eligible_minus_shown store customer now filtered with
  | [] => top_candidates filtered
  | l => l
  end.

(** Modelled from the spec: step 4, append to the customer's ShownRecord. *)
Definition record_shown (store : ShownStore) (customer pid : string) (now : R)
  : ShownStore :=
  <[customer := (shown_entries store customer ++ [(pid, now)])%list]> store.

(** Modelled from the spec: the selector (selector.py is not among the
    sources); no candidate is an explicit absence and leaves the store as
    it is. *)
Definition select (store : ShownStore) (customer : string) (now u : R)
    (filtered : list Scored) : option Scored * ShownStore :=
  let pool := remaining store customer now filtered in
  match pool !! sample_index (map score pool) u with
  | None => (None, store)
  | Some sc =>
      (Some sc, record_shown store customer (product_id (candidate sc)) now)
  end.

End Selector.

(** *** Orchestrator (section 4.4) *)

(** Modelled from the spec: 1-based position of a product in a list. *)
Fixpoint position (pid : string) (l : list Scored) : nat :=
  match l with
  | [] => 1
  | sc :: l' =>
      if bool_decide (product_id (candidate sc) = pid) then 1%nat
      else S (position pid l')
  end.

(** Modelled from the spec: the orchestrator (main.py is not among the
    sources); one recommendation for one customer: score every catalog
    product, filter, select, assemble the record.  A ShownRecord store that
    cannot be read ([None]) is replaced by an empty in-memory view
    (section 7). *)
Definition recommend_product (cfg : Config) (stored : option ShownStore)
    (catalog : list Product) (transactions : list Transaction)
    (events : list InteractionEvent) (draw : Product -> R) (u : R)
    (customer : string) (now : R) : option Recommendation * ShownStore :=
  let store := default ∅ stored in
  let scored := score_all cfg catalog transactions events draw customer now in
  let filtered := constraint_filter cfg transactions customer now scored in
  match select cfg store customer now u filtered with
  | (None, store') => (None, store')
  | (Some sc, store') =>
      (Some {| r_customer := customer;
               r_product_id := product_id (candidate sc);
               r_product_name := product_name (candidate sc);
               r_product_category := product_category (candidate sc);
               r_scores := breakdown sc;
               r_rank := position (product_id (candidate sc))
                                  (sort_by_score filtered);
               r_total_candidates := length filtered;
               r_timestamp := now |},
       store')
  end.

End Reco.

(** ** Catalogue search, paging and ad copy
    (services/api.js, pages/ProductListPage.jsx, hooks/useAdEngine.js) *)

Module Shop.
Import JsString.

(** [l] starts with [p]. *)
Fixpoint prefix_of (p l : list ascii) : bool :=
  match p with
  | [] => true
  | a :: p' =>
      match l with
      | [] => false
      | b :: l' => Ascii.eqb a b && prefix_of p' l'
      end
  end.

Fixpoint includes_chars (l t : list ascii) : bool :=
  prefix_of t l
  || match l with
     | [] => false
     | _ :: l' => includes_chars l' t
     end.

(** [s.includes(t)] *)
Definition includes (s t : string) : bool := includes_chars (chars s) (chars t).

(** The callback of the [filter] in [fetchProducts]; [None] is the
    [TypeError] of calling [toLowerCase] on an undefined name or category. *)
Definition matches (term : string) (item : Catalog.StoreProduct) : option bool :=
  match Catalog.name item with
  | None => None
  | Some n =>
      if includes (toLowerCase n) term then Some true
      else match Catalog.category item with
           | None => None
           | Some c => Some (includes (toLowerCase c) term)
           end
  end.

(** [l.filter(f)], stopping at the first exception. *)
Fixpoint filter_all {A} (f : A -> option bool) (l : list A) : option (list A) :=
  match l with
  | [] => Some []
  | x :: l' =>
      match f x with
      | None => None
      | Some b =>
          match filter_all f l' with
          | None => None
          | Some ys => Some (if b then x :: ys else ys)
          end
      end
  end.

(** [fetchProducts(query)] over the generated catalogue [products]. *)
Definition fetchProducts (products : list Catalog.StoreProduct) (query : string)
  : option (list Catalog.StoreProduct) :=
  if truthy query then filter_all (matches (toLowerCase query)) products
  else Some products.

(** [fetchProductById(id)]: [products.find(p => p.id === id)]. *)
Definition fetchProductById (products : list Catalog.StoreProduct) (id : string)
  : option Catalog.StoreProduct :=
  List.find (fun p => String.eqb (Catalog.id p) id) products.

(** *** Paging of the product list *)

Definition pageSize : nat := 12.

(** [Math.max(1, Math.ceil(items.length / pageSize))] *)
Definition totalPages {A} (items : list A) : nat :=
  Nat.max 1 ((length items + (pageSize - 1)) / pageSize).

(** [items.slice((page - 1) * pageSize, page * pageSize)] *)
Definition pagedItems {A} (items : list A) (page : nat) : list A :=
  take (page * pageSize - (page - 1) * pageSize) (drop ((page - 1) * pageSize) items).

Definition nextPage {A} (items : list A) (p : nat) : nat :=
  Nat.min (totalPages items) (p + 1).

Definition prevPage (p : nat) : nat := Nat.max 1 (p - 1).

(** *** The ad copy built from the last interaction *)

Definition palette : list string :=
  ["#0f766e"; "#e11d48"; "#1d4ed8"; "#f97316"; "#2563eb"; "#047857"].

Record Creative : Type := mkCreative {
  title : string;
  body : string;
  cta : string;
  color : option string;
  product : option Catalog.StoreProduct;
}.

(** A template literal prints an undefined value as the word undefined. *)
Definition shown (s : option string) : string := default "undefined" s.

(** [buildCreative(interaction)]; [None] is the [TypeError] raised for a
    matched product without a category. *)
Definition buildCreative (products : list Catalog.StoreProduct)
    (interaction : option Interaction.Event) : option Creative :=
  match interaction with
  | None =>
      Some {| title := "Hand-picked offers";
              body := "Browse what you love and we'll tailor fresh picks instantly.";
              cta := "Discover now";
              color := palette !! 0%nat;
              product := None |}
  | Some i =>
      let targetProduct :=
        match Interaction.productId i with
        | Some pid => if truthy pid then fetchProductById products pid else None
        | None => None
        end in
      match targetProduct with
      | Some p =>
          match Catalog.category p with
          | None => None
          | Some c =>
              Some {| title := "Inspired by " ++ c;
                      body := "Don't miss " ++ shown (Catalog.name p)
                              ++ ". Pair it with our newest arrivals in "
                              ++ toLowerCase c ++ ".";
                      cta := "See similar";
                      color := palette !! (length_utf16 c mod length palette)%nat;
                      product := Some p |}
          end
      | None =>
          match Interaction.query i with
          | Some q =>
              if truthy q then
                Some {| title := "More like " ++ String Catalog.QUOTE q
                                 ++ String Catalog.QUOTE EmptyString;
                        body := "We refreshed results and bundled quick starters for you.";
                        cta := "View picks";
                        color := palette !! (length_utf16 q mod length palette)%nat;
                        product := None |}
              else
                Some {| title := "Trending right now";
                        body := "Shoppers are loving these staples — grab yours while fresh.";
                        cta := "Shop trending";
                        color := palette !! 3%nat;
                        product := None |}
          | None =>
              Some {| title := "Trending right now";
                      body := "Shoppers are loving these staples — grab yours while fresh.";
                      cta := "Shop trending";
                      color := palette !! 3%nat;
                      product := None |}
          end
      end
  end.

End Shop.

(** ** The basket as the pages drive it
    (context/BasketContext.jsx, pages/BasketPage.jsx, product pages) *)

Module BasketView.
Import Js Basket.

(** [itemsArray.reduce((sum, item) => sum + item.quantity, 0)]; the sum of
    counts does not depend on the order of [Object.values]. *)
Definition totalItems (state : State) : num :=
  map_fold (fun _ it acc => num_add acc (quantity it)) (Num 0) (items state).

(** What the pages dispatch: [addToBasket(product, 1)] of the product
    pages, [handleQuantity] of the basket page and [clearBasket]. *)
Inductive Ui : Type :=
  | AddToBasket (p : Product)
  | StepQuantity (pid : string) (qty : Z)
  | ClearBasket.

Definition ui_step (state : State) (a : Ui) : State :=
  match a with
  | AddToBasket p => reducer state (add p (Num 1))
  | StepQuantity pid qty => handleQuantity state pid (Num qty)
  | ClearBasket => reducer state clear
  end.

Definition ui_run (trace : list Ui) : State := fold_left ui_step trace initialState.

(** The product ids a trace mentions. *)
Definition ui_ids (trace : list Ui) : list string :=
  flat_map (fun a => match a with
                     | AddToBasket p => [Catalog.id p]
                     | StepQuantity pid _ => [pid]
                     | ClearBasket => []
                     end) trace.

(** Every line holds the product it is filed under, with a count of at
    least one. *)
Definition well_kept (state : State) : Prop :=
  forall k it, items state !! k = Some it ->
    exists p n, product it = Some p /\ Catalog.id p = k /\
                quantity it = Num n /\ (1 <= n)%Z.

End BasketView.

(** ** Sign-in from the login page (pages/LoginPage.jsx) *)

Module LoginFlow.
Import Interaction.

(** The name the profile stub looks up: [identifier || "guest"]. *)
Definition looked_up (identifier : string) : string :=
  if JsString.truthy identifier then identifier else "guest".

(** [handleSubmit]: [login(username)], then [trackInteraction] of the login
    event with the callback of the render that showed the form, whose
    captured user is the one signed in before; a rejected login sets the
    error and records nothing.  [now1], [now2] are the clock readings of
    the profile stub and [now3] the one of the payload. *)
Definition handleSubmit (u2c c2u : gmap string string) (uname : string)
    (now1 now2 now3 : Z) (s : Provider) : Provider * option string :=
  match fetchUserProfile u2c c2u uname now1 now2 with
  | None => (s, Some "User not found")
  | Some _ =>
      (trackInteraction (st_user s) (login_submit uname) now3
         (login u2c c2u uname now1 now2 s),
       None)
  end.

End LoginFlow.

(** ** Shapes of the texts the scripts produce *)

Module TextShape.
Import JsString Catalog.

(** [cells.join(sep)] *)
Definition join (sep : string) (cells : list string) : string :=
  String.concat sep cells.

Definition starts_dash (l : list ascii) : bool :=
  match l with
  | c :: _ => is_char c DASH
  | [] => false
  end.

(** No dash is followed by another dash. *)
Fixpoint no_double_dash (l : list ascii) : bool :=
  match l with
  | c :: l' => negb (is_char c DASH && starts_dash l') && no_double_dash l'
  | [] => true
  end.

(** A slug: lower-case letters, digits and single dashes, with no dash at
    either end. *)
Definition slug_shaped (s : string) : bool :=
  forallb (fun c => is_slug_char c || is_char c DASH) (chars s)
  && no_double_dash (chars s)
  && negb (starts_dash (chars s))
  && negb (starts_dash (rev (chars s))).

Definition has_char (c : ascii) (s : string) : bool :=
  existsb (fun d => is_char d c) (chars s).

End TextShape.

(** ** Image filler (the script that writes the CSV with images) *)

Module FillImages.
Import JsString Catalog TextShape.

(** [Math.floor(Math.random() * n)], for the value [u] that
    [Math.random()] returned. *)
Definition random_index (u : Q) (n : nat) : Z :=
  Qfloor (u * inject_Z (Z.of_nat n)).

(** [pick(arr)]; an index outside the array reads [undefined]. *)
Definition pick (u : Q) (arr : list string) : option string :=
  let i := random_index u (length arr) in
  if i <? 0 then None else arr !! Z.to_nat i.

(** The Unsplash address of a photo; every image of the script has this
    form. *)
Definition photo (id : string) : string :=
  "https://images.unsplash.com/photo-" ++ id ++ "?auto=format&fit=crop&w=600&q=80".

(** The properties of [categoryImages], as written. *)
Definition categoryEntries : list (string * list string) :=
  [ ("produce", [ photo "1506808547685-e2ba962ded58";
        photo "1506806732259-39c2d0268443";
        photo "1505253216365-4b3356b15cfc" ]);
    ("meat", [ photo "1504674900247-0877df9cc836";
        photo "1540189549336-e6e99c3679fe";
        photo "1604908177035-0ac1c9bb646f" ]);
    ("pork", [ photo "1551024709-8f23befc6f87";
        photo "1604908177035-0ac1c9bb646f" ]);
    ("snacks", [ photo "1514996937319-344454492b37";
        photo "1499636136210-6f4ee915583e";
        photo "1504674900247-0877df9cc836" ]);
    ("chocolate", [ photo "1499636136210-6f4ee915583e";
        photo "1504674900247-0877df9cc836" ]);
    ("beverages", [ photo "1544145945-f90425340c7b";
        photo "1504674900247-0877df9cc836";
        photo "1510626176961-4b37d0b4e904" ]);
    ("tea", [ photo "1509042239860-f550ce710b93";
        photo "1504674900247-0877df9cc836" ]);
    ("bakery", [ photo "1509440159596-0249088772ff";
        photo "1504674900247-0877df9cc836" ]);
    ("dairy", [ photo "1541599540903-216a46ca1dc0";
        photo "1504674900247-0877df9cc836" ]) ].

(** [keywordImages], in the order of [Object.keys]. *)
Definition keywordImages : list (string * string) :=
  [ ("potato", photo "1506806732259-39c2d0268443");
    ("pork", photo "1551024709-8f23befc6f87");
    ("chocolate", photo "1499636136210-6f4ee915583e");
    ("tea", photo "1509042239860-f550ce710b93");
    ("apple", photo "1510626176961-4b37d0b4e904");
    ("bread", photo "1509440159596-0249088772ff");
    ("cheese", photo "1541599540903-216a46ca1dc0");
    ("salmon", photo "1504674900247-0877df9cc836") ].

Definition fallbackImages : list string :=
  [ photo "1467003909585-2f8a72700288";
    photo "1542838132-92c53300491e";
    photo "1504674900247-0877df9cc836" ].

Definition categoryImages : gmap string (list string) :=
  fromEntries categoryEntries.

(** [s || ""] on a cell that may be missing. *)
Definition or_empty (s : option string) : string := default EmptyString s.

(** [chooseImage(name, category, subCategory)] with the draw [u] of the one
    [pick] it may call.  Reading [categoryImages] under the name of an
    inherited member yields a function or the prototype object, from which
    [pick] reads [undefined]. *)
Definition chooseImage (u : Q) (name category subCategory : option string)
  : option string :=
  let nameKey := toLowerCase (or_empty name) in
  match List.find (fun kv => Shop.includes nameKey (fst kv)) keywordImages with
  | Some kv => Some (snd kv)
  | None =>
      let catKey := toLowerCase (or_empty category) in
      let subKey := toLowerCase (or_empty subCategory) in
      match Js.get categoryImages subKey with
      | Js.Own arr => pick u arr
      | Js.Inherited => None
      | Js.Undefined =>
          match Js.get categoryImages catKey with
          | Js.Own arr => pick u arr
          | Js.Inherited => None
          | Js.Undefined => pick u fallbackImages
          end
      end
  end.

(** [formatCell(value)]: [undefined] prints as the empty cell; a cell with
    a comma or a double quote is wrapped in double quotes, every double
    quote in it doubled. *)
Definition formatCell (value : option string) : string :=
  match value with
  | None => EmptyString
  | Some v =>
      let needsQuotes := has_char COMMA v || has_char QUOTE v in
      let safe :=
        of_chars (flat_map (fun c => if is_char c QUOTE then [QUOTE; QUOTE]
                                     else [c]) (chars v)) in
      if needsQuotes then String QUOTE (safe ++ String QUOTE EmptyString)
      else safe
  end.

Definition imageUrlIdx : nat := 7.

(** The text of two double quotes, which also counts as a missing image. *)
Definition two_quotes : string := String QUOTE (String QUOTE EmptyString).

(** [!cells[imageUrlIdx] || cells[imageUrlIdx] === two_quotes] *)
Definition needs_image (cells : list string) : bool :=
  match cells !! imageUrlIdx with
  | None => true
  | Some c => negb (truthy c) || String.eqb c two_quotes
  end.

(** The cells of a row that the rewriting keeps: all of them, except the
    image cell when it is replaced. *)
Definition kept (cells : list string) : list string :=
  if needs_image cells
  then (take imageUrlIdx cells ++ drop (S imageUrlIdx) cells)%list
  else cells.

(** [cells[imageUrlIdx] = v]: a shorter array is extended, the positions
    skipped being holes, which print like [undefined]. *)
Definition set_image (cells : list (option string)) (v : option string)
  : list (option string) :=
  if (imageUrlIdx <? length cells)%nat then <[imageUrlIdx := v]> cells
  else (cells ++ replicate (imageUrlIdx - length cells) None ++ [v])%list.

(** The cells of a row after the [if] of the [map] callback. *)
Definition updated_cells (u : Q) (cells : list string) : list (option string) :=
  if needs_image cells
  then set_image (map Some cells)
         (chooseImage u (cells !! 1%nat) (cells !! 4%nat) (cells !! 5%nat))
  else map Some cells.

(** The [map] callback: [None] is the [null] returned for a blank line. *)
Definition update_row (u : Q) (line : string) : option string :=
  if negb (truthy (trim line)) then None
  else Some (join "," (map formatCell (updated_cells u (splitCsvLine line)))).

(** [readCsv]; the [split] of a text always yields a first line. *)
Definition readCsv (raw : string) : string * list string :=
  match split_lines (chars (trim raw)) [] with
  | headerLine :: rows => (headerLine, rows)
  | [] => (EmptyString, [])
  end.

(** [updatedRows.filter(Boolean)]: [null] and the empty text are dropped. *)
Definition filter_Boolean (rows : list (option string)) : list string :=
  omap (fun r => match r with
                 | Some s => if truthy s then Some s else None
                 | None => None
                 end) rows.

(** The text the script writes for the text [raw] it reads; [draw i] is
    the value of [Math.random()] for row [i], which calls it at most once. *)
Definition fill (draw : nat -> Q) (raw : string) : string :=
  let '(headerLine, rows) := readCsv raw in
  let updatedRows := imap (fun i line => update_row (draw i) line) rows in
  join newline (headerLine :: filter_Boolean updatedRows) ++ newline.

(** Every image the script can write. *)
Definition curated : list string :=
  (map snd keywordImages ++ concat (map snd categoryEntries) ++ fallbackImages)%list.

(** A cell that holds neither a double quote nor a line terminator. *)
Definition clean (cell : string) : bool :=
  forallb (fun c => negb (is_char c QUOTE)) (chars cell)
  && negb (has_line_terminator (chars cell)).

(** A catalogue product with another image. *)
Definition with_image (img : string) (p : StoreProduct) : StoreProduct :=
  {| id := id p; name := name p; description := description p;
     brand := brand p; category := category p; subCategory := subCategory p;
     price := price p; image := img; stock := stock p |}.

End FillImages.

(** ** The discount game (components/GamificationGame.jsx)

    The state kept here is the part the handlers and the badge read: the
    step, the slider, the balloons with their discount, and the badge flag.
    The overlays and confetti, with the timers that hide them, are display
    state that nothing below reads. *)

Module Game.

Inductive Stage : Type :=
  | StageStart
  | StageSlider
  | StageBalloon
  | StageDone.

(** A balloon [{ id, left, top, color, popped }]. *)
Record Balloon : Type := mkBalloon {
  id : nat;
  left : string;
  top : string;
  color : option string;
  popped : bool;
}.

Definition balloon_colors : list string :=
  ["#ffb366"; "#ffe066"; "#f357a8"; "#7b2ff2"; "#4dd599"; "#ff6666"; "#00cfff"].

Record GameState : Type := mkGame {
  step : Stage;
  sliderValue : Z;
  sliderDir : Z;
  showBadge : bool;
  balloonDiscount : Z;
  balloons : list Balloon;
  poppedCount : nat;
  (** the timeout that ends the balloon step is pending *)
  finishing : bool;
}.

(** The state after the first render and its effect, which moves a game
    aligned at the bottom from the start step to the slider. *)
Definition mount (align : string) : GameState :=
  {| step := if String.eqb align "bottom" then StageSlider else StageStart;
     sliderValue := 50; sliderDir := 1; showBadge := false;
     balloonDiscount := 0; balloons := []; poppedCount := 0%nat;
     finishing := false |}.

(** One run of the interval callback that animates the slider. *)
Definition tick (g : GameState) : GameState :=
  let value := sliderValue g + sliderDir g * 2 in
  let '(value, dir) :=
    if 100 <=? value then (100, -1)
    else if value <=? 0 then (0, 1)
    else (value, sliderDir g) in
  {| step := step g; sliderValue := value; sliderDir := dir;
     showBadge := showBadge g; balloonDiscount := balloonDiscount g;
     balloons := balloons g; poppedCount := poppedCount g;
     finishing := finishing g |}.

(** The effect that sets up the balloon step; [place i] is the pair of
    position texts drawn for balloon [i]. *)
Definition init_balloons (place : nat -> string * string) : list Balloon :=
  map (fun i => {| id := i; left := fst (place i); top := snd (place i);
                   color := balloon_colors !! (i mod 7)%nat;
                   popped := false |})
      (seq 0 7).

Inductive Verdict : Type :=
  | Win
  | ToBalloons
  | Lose.

(** The three branches of [handleSliderSubmit]. *)
Definition verdict (value : Z) : Verdict :=
  if (20 <=? value) && (value <=? 60) then Win
  else if (61 <=? value) && (value <=? 90) then ToBalloons
  else Lose.

Definition handleSliderSubmit (place : nat -> string * string) (g : GameState)
  : GameState :=
  match verdict (sliderValue g) with
  | Win =>
      {| step := StageDone; sliderValue := sliderValue g;
         sliderDir := sliderDir g; showBadge := true;
         balloonDiscount := balloonDiscount g; balloons := balloons g;
         poppedCount := poppedCount g; finishing := finishing g |}
  | ToBalloons =>
      {| step := StageBalloon; sliderValue := sliderValue g;
         sliderDir := sliderDir g; showBadge := showBadge g;
         balloonDiscount := 0; balloons := init_balloons place;
         poppedCount := 0%nat; finishing := finishing g |}
  | Lose =>
      {| step := StageDone; sliderValue := sliderValue g;
         sliderDir := sliderDir g; showBadge := showBadge g;
         balloonDiscount := balloonDiscount g; balloons := balloons g;
         poppedCount := poppedCount g; finishing := finishing g |}
  end.

(** [Math.floor(Math.random() * 5) + 1] for the value [u] of
    [Math.random()]. *)
Definition drawn_discount (u : Q) : Z := Qfloor (u * 5) + 1.

Definition pop (b : Balloon) : Balloon :=
  {| id := id b; left := left b; top := top b; color := color b;
     popped := true |}.

(** [popBalloon(idx)].  A click on a balloon that is not there would throw
    before any state is set. *)
Definition popBalloon (idx : nat) (u : Q) (g : GameState) : GameState :=
  match balloons g !! idx with
  | None => g
  | Some b =>
      if popped b then g
      else
        let discount := drawn_discount u in
        let newTotal := Z.min (balloonDiscount g + discount) 10 in
        let arr := <[idx := pop b]> (balloons g) in
        let count := length (List.filter popped arr) in
        {| step := step g; sliderValue := sliderValue g;
           sliderDir := sliderDir g; showBadge := showBadge g;
           balloonDiscount := newTotal; balloons := arr;
           poppedCount := count;
           finishing := finishing g || (count =? length (balloons g))%nat |}
  end.

(** The timeout set by the last pop. *)
Definition finish (g : GameState) : GameState :=
  if finishing g then
    {| step := StageDone; sliderValue := sliderValue g;
       sliderDir := sliderDir g; showBadge := true;
       balloonDiscount := balloonDiscount g; balloons := balloons g;
       poppedCount := poppedCount g; finishing := false |}
  else g.

(** What can happen to a mounted game.  The interval and the submit button
    exist in the slider step only, and the balloons in the balloon step. *)
Inductive Move : Type :=
  | Tick
  | Submit (place : nat -> string * string)
  | Pop (idx : nat) (u : Q)
  | Finish.

Definition play (g : GameState) (m : Move) : GameState :=
  match m, step g with
  | Tick, StageSlider => tick g
  | Submit place, StageSlider => handleSliderSubmit place g
  | Pop idx u, StageBalloon => popBalloon idx u g
  | Finish, _ => finish g
  | _, _ => g
  end.

Definition play_all (align : string) (moves : list Move) : GameState :=
  fold_left play moves (mount align).

(** The text of the badge, when it is shown. *)
Definition badge (g : GameState) : option string :=
  if showBadge g then
    Some (match step g with
          | StageSlider => "20% Discount: WIN20"
          | _ => pretty (balloonDiscount g) ++ "% Discount: BALLOON"
                 ++ pretty (balloonDiscount g)
          end)
  else None.

(** [Math.random()] returns a value in [0, 1). *)
Definition fair (m : Move) : Prop :=
  match m with
  | Pop _ u => (0 <= u)%Q /\ (u < 1)%Q
  | _ => True
  end.

(** The number of balloons shown as popped. *)
Definition popped_balloons (g : GameState) : nat :=
  length (List.filter popped (balloons g)).

(** What holds of every state of a mounted game. *)
Definition shape (g : GameState) : Prop :=
  (0 <= sliderValue g <= 100 /\ Z.even (sliderValue g) = true /\
   (sliderDir g = 1 \/ sliderDir g = -1)) /\
  (showBadge g = true -> step g = StageDone) /\
  poppedCount g = popped_balloons g /\
  (balloons g = [] \/ length (balloons g) = 7%nat) /\
  (step g = StageStart \/ step g = StageSlider ->
     balloons g = [] /\ balloonDiscount g = 0 /\ finishing g = false) /\
  (finishing g = true -> step g = StageBalloon /\ popped_balloons g = 7%nat) /\
  (step g = StageDone -> finishing g = false) /\
  (step g = StageDone -> showBadge g = true ->
     (balloons g = [] /\ balloonDiscount g = 0) \/ popped_balloons g = 7%nat).

(** The discount against the number of balloons popped. *)
Definition bounded (g : GameState) : Prop :=
  Z.min 10 (Z.of_nat (popped_balloons g)) <= balloonDiscount g
  /\ balloonDiscount g <= Z.min 10 (5 * Z.of_nat (popped_balloons g)).

End Game.

(** ** What the provider hands to the API stub *)

Module Tracking.
Import Interaction.

(** The payload a step hands to [sendInteraction]: one per tracked event,
    none for a login or a logout. *)
Definition emitted (a : Step) : list Event :=
  match a with
  | DoTrack closure_user event now => [payload closure_user event now]
  | _ => []
  end.

Definition is_track (a : Step) : bool :=
  match a with
  | DoTrack _ _ _ => true
  | _ => false
  end.

End Tracking.

(** ** The feed of latest interactions (components/InteractionFeed.jsx) *)

Module Feed.
Import Interaction.

(** A text that is present and not empty. *)
Definition truthy_text (s : option string) : option string :=
  match s with
  | Some x => if JsString.truthy x then Some x else None
  | None => None
  end.

(** [label(item)] *)
Definition label (item : Event) : string :=
  match truthy_text (productId item) with
  | Some pid => "Viewed " ++ pid
  | None =>
      match truthy_text (query item) with
      | Some q => "Searched " ++ String Catalog.QUOTE q
                  ++ String Catalog.QUOTE EmptyString
      | None => default "Interaction" (truthy_text (type item))
      end
  end.

(** The rows of the feed, each a label and the time stamp its clock text
    is made from; [None] when the component renders nothing. *)
Definition feed (interactions : list Event) : option (list (string * option Z)) :=
  match interactions with
  | [] => None
  | _ => Some (map (fun item => (label item, timestamp item))
                   (take 6 interactions))
  end.

End Feed.

(** ** Searching from the product list (pages/ProductListPage.jsx) *)

Module ListPage.
Import JsString.

(** The state of the page that a search touches. *)
Record PageState : Type := mkPage {
  query : string;
  items : list Catalog.StoreProduct;
  page : nat;
  loading : bool;
  lastAutoSearch : string;
}.

(** [loadProducts(searchTerm)]; [fetch] is the [fetchProducts] of the API
    service, [None] standing for a rejected promise, and the flag tells
    whether the promise of [loadProducts] is fulfilled.  When the lookup
    rejects, the page is left loading. *)
Definition loadProducts (fetch : string -> option (list Catalog.StoreProduct))
    (searchTerm : string) (st : PageState) : PageState * bool :=
  match fetch searchTerm with
  | Some results =>
      ({| query := query st; items := results; page := 1; loading := false;
          lastAutoSearch := lastAutoSearch st |}, true)
  | None =>
      ({| query := query st; items := items st; page := page st;
          loading := true; lastAutoSearch := lastAutoSearch st |}, false)
  end.

(** [handleSearch()]: the state it leaves and the event it records. *)
Definition handleSearchRun (fetch : string -> option (list Catalog.StoreProduct))
    (st : PageState) : PageState * option Interaction.Event :=
  let term := trim (query st) in
  match loadProducts fetch term st with
  | (st', true) =>
      if truthy term then
        ({| query := query st'; items := items st'; page := page st';
            loading := loading st'; lastAutoSearch := term |},
         Some (Interaction.search_event term))
      else (st', None)
  | (st', false) => (st', None)
  end.

(** The text starts with white space. *)
Definition starts_spaced (l : list ascii) : bool :=
  matched is_space is_space2 is_space3 l.

(** The text ends with white space; [l] is the text reversed. *)
Definition ends_spaced (l : list ascii) : bool :=
  matched is_space (fun c b => is_space2 b c) (fun c b a => is_space3 a b c) l.

End ListPage.

(** * Properties *)

(** ** Basket reducer *)

Module BasketProps.
Import Js Basket.

Lemma get_own {A} (m : gmap string A) k v : m !! k = Some v -> get m k = Own v.
Proof. intros H. unfold get. now rewrite H. Qed.

(** An update never touches the entry of another product. *)
Lemma update_frame (state : State) (pid other : string) (q : num) :
  other <> pid ->
  items (reducer state (update pid q)) !! other = items state !! other.
Proof.
  intros Hne. cbn. destruct (num_leb q (Num 0)); cbn.
  - apply lookup_delete_ne. congruence.
  - destruct (get (items state) pid); cbn;
      try reflexivity; apply lookup_insert_ne; congruence.
Qed.

(** C8. In the basket reducer an [update] with quantity <= 0 removes the
    entry of that product; an [update] with quantity > 0 on a product that
    is in the basket sets the quantity of its entry to exactly the given
    value (the product of the entry is kept); in both cases the entry of
    every other product is unchanged. *)
Theorem update_effect (state : State) (pid : string) (q : Z) :
  let state' := reducer state (update pid (Num q)) in
  (q <= 0 -> items state' !! pid = None) /\
  (0 < q -> forall current, items state !! pid = Some current ->
     items state' !! pid
       = Some {| product := product current; quantity := Num q |}) /\
  (forall other, other <> pid -> items state' !! other = items state !! other).
Proof.
  intros state'. subst state'. repeat split.
  - intros Hq. cbn. replace (q <=? 0)%Z with true by (symmetry; lia). cbn.
    apply lookup_delete_eq.
  - intros Hq current Hcur. cbn.
    replace (q <=? 0)%Z with false by (symmetry; lia).
    rewrite (get_own _ _ _ Hcur). cbn. apply lookup_insert_eq.
  - intros other Hne. now apply update_frame.
Qed.

(** The basket page's [handleQuantity] on a two-line basket: stepping the
    milk line down from 1 removes it and leaves the bread line alone, and
    stepping the bread line up to 3 stores exactly 3. *)
Lemma update_effect_witness :
  let item := fun sku label =>
    {| Catalog.id := sku; Catalog.name := Some label;
       Catalog.description := None; Catalog.brand := None;
       Catalog.category := Some "fresh"; Catalog.subCategory := None;
       Catalog.price := Catalog.Finite 1; Catalog.image := EmptyString;
       Catalog.stock := Num 5 |} in
  let milk := item "milk" "Milk" in
  let bread := item "bread" "Bread" in
  let s := reducer (reducer (reducer initialState (add milk (Num 1)))
                            (add bread (Num 1))) (add bread (Num 1)) in
  items (handleQuantity s "milk" (Num 0)) !! "milk" = None /\
  items (handleQuantity s "milk" (Num 0)) !! "bread"
    = Some {| product := Some bread; quantity := Num 2 |} /\
  items (handleQuantity s "bread" (Num 3)) !! "bread"
    = Some {| product := Some bread; quantity := Num 3 |}.
Proof.
  intros item milk bread s.
  pose proof (update_effect s "milk" 0) as (Hdel & _ & Hframe).
  pose proof (update_effect s "bread" 3) as (_ & Hset & _).
  split; [apply Hdel; lia|]. split.
  - unfold handleQuantity. cbn [num_max]. rewrite Hframe by discriminate.
    reflexivity.
  - apply (Hset ltac:(lia) {| product := Some bread; quantity := Num 2 |}).
    reflexivity.
Defined.

End BasketProps.

(** ** Interaction provider *)

Module InteractionProps.
Import Interaction.

Section Tables.

Variable usernameToCustomerId customerIdToUsername : gmap string string.

Abbreviation step := (step usernameToCustomerId customerIdToUsername).
Abbreviation run := (run usernameToCustomerId customerIdToUsername).

(** A property that holds initially and is kept by every step holds after
    every trace. *)
Lemma fold_step_invariant (P : Provider -> Prop) :
  (forall s a, P s -> P (step s a)) ->
  forall trace s, P s -> P (fold_left step trace s).
Proof.
  intros Hstep trace. induction trace as [|a trace IH]; intros s Hs; cbn.
  - exact Hs.
  - apply IH, Hstep, Hs.
Qed.

Lemma login_interactions uname n1 n2 s :
  (length (interactions (login usernameToCustomerId customerIdToUsername
                               uname n1 n2 s)) <= 50)%nat \/
  login usernameToCustomerId customerIdToUsername uname n1 n2 s = s.
Proof.
  unfold login, fetchUserProfile.
  destruct (Js.get usernameToCustomerId _) as [cid| |]; cbn.
  - destruct (JsString.truthy cid); cbn; [left; lia | now right].
  - left; lia.
  - now right.
Qed.

Lemma step_bounded s a :
  (length (interactions s) <= 50)%nat ->
  (length (interactions (step s a)) <= 50)%nat.
Proof.
  intros Hs. destruct a as [u n1 n2| |cu e n]; cbn.
  - destruct (login_interactions u n1 n2 s) as [H|H]; [exact H | now rewrite H].
  - lia.
  - rewrite length_take. lia.
Qed.

(** The history holds at most 50 entries in every reachable state. *)
Lemma history_bounded trace : (length (interactions (run trace)) <= 50)%nat.
Proof.
  unfold Interaction.run.
  apply (fold_step_invariant (fun s => (length (interactions s) <= 50)%nat)).
  - apply step_bounded.
  - cbn. lia.
Qed.

Lemma sent_invariant (Q : Event -> Prop) :
  (forall cu e n, recorded e -> Q (payload cu e n)) ->
  forall trace s,
    storefront_trace trace -> Forall Q (sent s) ->
    Forall Q (sent (fold_left step trace s)).
Proof.
  intros HQ trace. induction trace as [|a trace IH]; intros s Htr Hs; cbn.
  - exact Hs.
  - apply Forall_cons in Htr as [Ha Htr]. apply IH; [exact Htr|].
    destruct a as [u n1 n2| |cu e n]; cbn.
    + unfold login. destruct (fetchUserProfile _ _ _ _ _); exact Hs.
    + exact Hs.
    + apply Forall_app. split; [exact Hs|].
      constructor; [now apply HQ | constructor].
Qed.

End Tables.

Lemma take_app_take_le {A} (l l' : list A) :
  forall n m, (m <= n)%nat -> take m (l ++ take n l') = take m (l ++ l').
Proof.
  induction l as [|a l IH]; intros n m Hmn; cbn.
  - rewrite take_take. f_equal. lia.
  - destruct m as [|m]; [reflexivity|]. cbn. f_equal. apply IH. lia.
Qed.

Lemma take_all_bounded {A} (l : list A) n : (length l <= n)%nat -> take n l = l.
Proof. intros H. apply take_ge. exact H. Qed.

(** A run of [trackInteraction] calls puts the payloads, latest first, in
    front of the history and keeps the first 50 entries. *)
Lemma track_all_interactions calls :
  forall s,
    (length (interactions s) <= 50)%nat ->
    interactions (track_all calls s)
    = take 50 (rev (payloads calls) ++ interactions s).
Proof.
  induction calls as [|c calls IH]; intros s Hs; cbn.
  - symmetry. now apply take_all_bounded.
  - unfold track_all in IH. rewrite IH.
    + unfold trackInteraction, payloads. cbn [interactions map rev].
      rewrite take_app_take_le by lia.
      now rewrite <- app_assoc.
    + unfold trackInteraction. cbn [interactions]. rewrite length_take. lia.
Qed.

Lemma nondecreasing_snoc l t :
  nondecreasing (l ++ [t]) = true ->
  nondecreasing l = true /\ (forall x, last l = Some x -> x <= t).
Proof.
  induction l as [|a l IH]; cbn.
  - intros _. split; [reflexivity | discriminate].
  - destruct l as [|b l]; cbn in *.
    + rewrite andb_true_r. intros H. split; [reflexivity|].
      intros x [= <-]. lia.
    + intros H. apply andb_prop in H as [Hab H].
      destruct (IH H) as [IH1 IH2]. split.
      * now rewrite Hab, IH1.
      * intros x Hx. apply IH2. exact Hx.
Qed.

Lemma payloads_snoc calls c :
  payloads (calls ++ [c])
  = (payloads calls ++ [payload (fst (fst c)) (snd (fst c)) (snd c)])%list.
Proof. unfold payloads. now rewrite map_app. Qed.

Lemma newest_first_cons a b l :
  newest_first (a :: b :: l)
  = (time_of b <=? time_of a) && newest_first (b :: l).
Proof. reflexivity. Qed.

(** With a clock that never runs backwards the tracked payloads, latest
    first, are ordered newest-first. *)
Lemma tracked_newest_first calls :
  nondecreasing (map snd calls) = true ->
  newest_first (rev (payloads calls)) = true.
Proof.
  induction calls as [|c calls IH] using rev_ind; [reflexivity|].
  rewrite map_app. cbn [map]. intros H.
  apply nondecreasing_snoc in H as [Hcalls Hlast].
  rewrite payloads_snoc, rev_app_distr. cbn [rev app].
  specialize (IH Hcalls).
  destruct calls as [|d calls _] using rev_ind; [reflexivity|].
  rewrite payloads_snoc, rev_app_distr in *. cbn [rev app] in *.
  rewrite newest_first_cons, IH, andb_true_r.
  apply Z.leb_le. cbn. apply Hlast.
  rewrite map_app. cbn. now rewrite last_snoc.
Qed.

Lemma recorded_page_typed e : recorded e -> page_typed e = true.
Proof.
  intros H.
  destruct H as [query e H|query H|pid|u pid src e Hsrc H|pid|t ls Hls|u|pid];
    try reflexivity.
  - unfold handleSearch in H.
    destruct (JsString.truthy (JsString.trim query)); [|discriminate].
    now injection H as <-.
  - unfold handleAdd in H. destruct u; [|discriminate]. now injection H as <-.
Qed.

(** C7 (as the code has it). Every event the storefront pages record and
    send to the interaction API has a [type] among view, search,
    add_to_basket, purchase, login and hero_view, and its [eventType], when
    present, is one of view, add_to_cart and purchase. *)
Theorem sent_events_page_typed (u2c c2u : gmap string string) (trace : list Step) :
  storefront_trace trace ->
  Forall (fun p => page_typed p = true) (sent (run u2c c2u trace)).
Proof.
  intros Htr. unfold run.
  apply (sent_invariant u2c c2u (fun p => page_typed p = true)).
  - intros cu e n He. apply recorded_page_typed in He. exact He.
  - exact Htr.
  - constructor.
Qed.

(** A visitor searches and opens a product, signs in as citrus-otter-01
    (the login event is tracked by the callback captured before the
    sign-in), adds the product to the basket and buys it. *)
Lemma sent_events_page_typed_witness :
  let u2c := CustomerMap.usernameToCustomerId (CustomerMap.customers ["7"]) in
  let c2u := CustomerMap.customerIdToUsername (CustomerMap.customers ["7"]) in
  let shopper := fetchUserProfile u2c c2u "citrus-otter-01" 3000 3000 in
  let loaf := {| line_productId := "bread-1"; line_quantity := Js.Num 1;
                 line_price := Catalog.Finite 3 |} in
  let trace :=
    [ DoTrack None (search_event "berries") 1000;
      DoTrack None (detail_load "bread-1") 2000;
      DoLogin "citrus-otter-01" 3000 3000;
      DoTrack None (login_submit "citrus-otter-01") 3100;
      DoTrack shopper (add_event "bread-1" "product_detail") 4000;
      DoTrack shopper (checkout_submit (Catalog.Finite 3) [loaf]) 5000 ] in
  (exists profile, shopper = Some profile /\ customerId profile = Str "C001") /\
  storefront_trace trace /\
  Forall (fun p => page_typed p = true) (sent (run u2c c2u trace)).
Proof.
  intros u2c c2u shopper loaf trace.
  assert (Hshopper : exists profile,
            shopper = Some profile /\ customerId profile = Str "C001").
  { eexists. split; [vm_compute; reflexivity | reflexivity]. }
  destruct Hshopper as (profile & Hprofile & Hid).
  assert (Htr : storefront_trace trace).
  { constructor; [apply (rec_search "berries"); reflexivity|].
    constructor; [apply rec_detail|].
    constructor; [exact I|].
    constructor; [apply rec_login|].
    constructor;
      [apply (rec_add shopper "bread-1" "product_detail");
         [now right | rewrite Hprofile; reflexivity]|].
    constructor; [apply rec_checkout; discriminate | constructor]. }
  split; [now exists profile|]. split; [exact Htr|].
  apply (sent_events_page_typed u2c c2u trace Htr).
Defined.

(** C7 (as stated) fails: a search run by a visitor is recorded and sent
    with the [type] search and no [eventType]; and when the visitor then
    signs in as citrus-otter-01, adds a loaf to the basket and buys it,
    the purchase is sent with the [type] and the [eventType] purchase. *)
Lemma search_and_purchase_not_model_typed :
  let u2c := CustomerMap.usernameToCustomerId (CustomerMap.customers ["7"]) in
  let c2u := CustomerMap.customerIdToUsername (CustomerMap.customers ["7"]) in
  let shopper := fetchUserProfile u2c c2u "citrus-otter-01" 3000 3000 in
  let loaf := {| line_productId := "bread-1"; line_quantity := Js.Num 1;
                 line_price := Catalog.Finite 3 |} in
  let search := search_event "berries" in
  let purchase := checkout_submit (Catalog.Finite 3) [loaf] in
  let trace :=
    [ DoTrack None search 1000;
      DoLogin "citrus-otter-01" 3000 3000;
      DoTrack None (login_submit "citrus-otter-01") 3100;
      DoTrack shopper (add_event "bread-1" "product_list") 4000;
      DoTrack shopper purchase 5000 ] in
  handleSearch " berries" = Some search /\
  st_user (run u2c c2u [DoLogin "citrus-otter-01" 3000 3000]) = shopper /\
  shopper <> None /\
  storefront_trace trace /\
  In (payload None search 1000) (sent (run u2c c2u trace)) /\
  In (payload shopper purchase 5000) (sent (run u2c c2u trace)) /\
  type (payload None search 1000) = Some "search" /\
  eventType (payload None search 1000) = None /\
  model_typed (payload None search 1000) = false /\
  type (payload shopper purchase 5000) = Some "purchase" /\
  eventType (payload shopper purchase 5000) = Some "purchase" /\
  model_typed (payload shopper purchase 5000) = false /\
  ~ sent_events_model_typed.
Proof.
  intros u2c c2u shopper loaf search purchase trace.
  assert (Hshopper : exists profile, shopper = Some profile).
  { eexists. vm_compute. reflexivity. }
  destruct Hshopper as (profile & Hprofile).
  assert (Htr : storefront_trace trace).
  { constructor; [apply (rec_search " berries"); reflexivity|].
    constructor; [exact I|].
    constructor; [apply rec_login|].
    constructor;
      [apply (rec_add shopper "bread-1" "product_list");
         [now left | rewrite Hprofile; reflexivity]|].
    constructor; [apply rec_checkout; discriminate | constructor]. }
  assert (Hsent : sent (run u2c c2u trace)
                  = [ payload None search 1000;
                      payload None (login_submit "citrus-otter-01") 3100;
                      payload shopper (add_event "bread-1" "product_list") 4000;
                      payload shopper purchase 5000 ]).
  { unfold run, trace. cbn [fold_left step]. unfold login.
    fold shopper. rewrite Hprofile. reflexivity. }
  split; [reflexivity|].
  split; [unfold run; cbn [fold_left step]; unfold login; fold shopper;
          rewrite Hprofile; reflexivity|].
  split; [rewrite Hprofile; discriminate|].
  split; [exact Htr|].
  split; [rewrite Hsent; now left|].
  split; [rewrite Hsent; cbn; tauto|].
  split; [reflexivity|]. split; [reflexivity|]. split; [reflexivity|].
  split; [reflexivity|]. split; [reflexivity|]. split; [reflexivity|].
  intros Hclaim.
  assert (Hin : In (payload None search 1000) (sent (run u2c c2u trace)))
    by (rewrite Hsent; now left).
  specialize (Hclaim u2c c2u trace Htr _ Hin).
  discriminate Hclaim.
Qed.

(** C9 (as the code has it). The history never exceeds 50 entries; a
    [trackInteraction] call prepends its payload and keeps the first 50
    entries, after which [lastInteraction] is that payload; the payloads of
    a run of calls sit latest first in front of the earlier history and,
    for a clock that does not run backwards, are ordered newest-first;
    [lastInteraction] is the head of the history and is null exactly when
    the history is empty. *)
Theorem history_tracking (u2c c2u : gmap string string) (trace : list Step)
    (s : Provider) (cu : option Profile) (e : Event) (now : Z)
    (calls : list (option Profile * Event * Z)) :
  (length (interactions (run u2c c2u trace)) <= 50)%nat /\
  interactions (trackInteraction cu e now s)
    = take 50 (payload cu e now :: interactions s) /\
  lastInteraction (trackInteraction cu e now s) = Some (payload cu e now) /\
  ((length (interactions s) <= 50)%nat ->
   interactions (track_all calls s)
     = take 50 (rev (payloads calls) ++ interactions s)) /\
  (nondecreasing (map snd calls) = true ->
   newest_first (rev (payloads calls)) = true) /\
  lastInteraction s = head (interactions s) /\
  (lastInteraction s = None <-> interactions s = []).
Proof.
  split; [apply history_bounded|].
  split; [reflexivity|]. split; [reflexivity|].
  split; [apply track_all_interactions|].
  split; [apply tracked_newest_first|].
  split; [reflexivity|].
  unfold lastInteraction. destruct (interactions s); cbn; split; congruence.
Qed.

(** Two tracked events on top of the history installed by a login. *)
Lemma history_tracking_witness :
  let s := login (CustomerMap.usernameToCustomerId (CustomerMap.customers ["7"]))
                 (CustomerMap.customerIdToUsername (CustomerMap.customers ["7"]))
                 "citrus-otter-01" 1700000000000 1700000000000 initial in
  let calls := [ (st_user s, search_event "milk", 1700000000100);
                 (st_user s, detail_load "sku-9", 1700000000200) ] in
  (length (interactions s) <= 50)%nat /\
  nondecreasing (map snd calls) = true /\
  map time_of (interactions (track_all calls s))
    = [1700000000200; 1700000000100; 1699913600000; 1699956800000] /\
  newest_first (rev (payloads calls)) = true.
Proof.
  intros s calls.
  pose proof (history_tracking ∅ ∅ [] s None blank 0 calls)
    as (_ & _ & _ & Hrun & Hnew & _).
  assert (Hs : (length (interactions s) <= 50)%nat) by (vm_compute; lia).
  assert (Hc : nondecreasing (map snd calls) = true) by reflexivity.
  split; [exact Hs|]. split; [exact Hc|].
  split; [rewrite (Hrun Hs); reflexivity | exact (Hnew Hc)].
Defined.

(** C9 (as stated) fails on the history a login installs: the stub profile
    lists the older view before the newer search, so the history is not
    ordered newest-first and its head is not its most recent entry. *)
Lemma login_history_not_newest_first :
  let u2c := CustomerMap.usernameToCustomerId (CustomerMap.customers ["7"]) in
  let c2u := CustomerMap.customerIdToUsername (CustomerMap.customers ["7"]) in
  let trace := [DoLogin "citrus-otter-01" 1700000000000 1700000000000] in
  let s := run u2c c2u trace in
  nondecreasing (clock_readings trace) = true /\
  map time_of (interactions s) = [1699913600000; 1699956800000] /\
  newest_first (interactions s) = false /\
  option_map time_of (lastInteraction s) = Some 1699913600000 /\
  ~ history_newest_first.
Proof.
  intros u2c c2u trace s.
  repeat split; try reflexivity.
  intros Hclaim.
  destruct (Hclaim u2c c2u trace eq_refl) as (_ & Hnf & _).
  vm_compute in Hnf. discriminate Hnf.
Qed.

End InteractionProps.

(** ** Recommendation client *)

Module RecoClientProps.
Import RecoClient.

(** C5 (as the code has it). [fetchRecommendation] posts the customer id and
    the three table paths (the overrides, else the configured defaults) to
    the backend; it returns the parsed body when the status of the
    response is in 200-299 (a body that is not JSON is thrown as a
    [SyntaxError]), and on every other status, the 404 of the backend
    included, it throws an [Error] that carries the status and the
    detail. *)
Theorem fetchRecommendation_outcome (env : Env) (backend : Request -> Fetched)
    (a : Args) (resp : Response) :
  backend (request_of env a) = Responded resp ->
  let r := request_of env a in
  (forall id, customerId a = Interaction.Str id -> customer_id r = Text id) /\
  ((forall s, productsPath a = Path s -> products_path r = Text s) /\
   (productsPath a = Unset -> products_path r = Text (RECO_PRODUCTS_PATH env))) /\
  ((forall s, transactionsPath a = Path s -> transactions_path r = Text s) /\
   (transactionsPath a = Unset ->
    transactions_path r = Text (RECO_TRANSACTIONS_PATH env))) /\
  ((forall s, clickstreamPath a = Path s -> clickstream_path r = Text s) /\
   (clickstreamPath a = Unset ->
    clickstream_path r = Text (RECO_CLICKSTREAM_PATH env))) /\
  (ok resp = true ->
     fetchRecommendation env backend a
     = match json resp with
       | Some v => Resolved v
       | None => Rejected SyntaxError
       end) /\
  (ok resp = false ->
     fetchRecommendation env backend a
     = Rejected (Error ("Recommendation API failed ("
                        ++ JsString.of_nat (status resp) ++ "): "
                        ++ (if JsString.truthy (text resp) then text resp
                            else statusText resp)))).
Proof.
  intros Hb r. subst r. unfold fetchRecommendation. rewrite Hb.
  unfold request_of. cbn [customer_id products_path transactions_path
                          clickstream_path].
  split; [now intros id ->|].
  split; [split; [now intros s -> | now intros ->]|].
  split; [split; [now intros s -> | now intros ->]|].
  split; [split; [now intros s -> | now intros ->]|].
  split; intros Hok; now rewrite Hok.
Qed.

(** A backend that answers 200 with a record for C001 and 404 otherwise;
    the caller overrides the clickstream path only. *)
Lemma fetchRecommendation_outcome_witness :
  let env := {| VITE_RECO_PRODUCTS_PATH := None;
                VITE_RECO_TRANSACTIONS_PATH := Some "tx.csv";
                VITE_RECO_CLICKSTREAM_PATH := None |} in
  let record := JObj [("customer_id", JStr "C001");
                      ("recommended_product_id", JStr "P001")] in
  let found := {| status := 200; statusText := "OK"; text := EmptyString;
                  json := Some record |} in
  let missing := {| status := 404; statusText := "Not Found";
                    text := "No recommendation"; json := None |} in
  let backend := fun r : Request =>
    Responded (match customer_id r with
               | Text "C001" => found
               | _ => missing
               end) in
  let args := fun c => {| customerId := Interaction.Str c; productsPath := Unset;
                          transactionsPath := Unset;
                          clickstreamPath := Path "clicks.csv" |} in
  request_of env (args "C001")
  = {| customer_id := Text "C001"; products_path := Text "data/products.csv";
       transactions_path := Text "tx.csv";
       clickstream_path := Text "clicks.csv" |} /\
  fetchRecommendation env backend (args "C001") = Resolved record /\
  fetchRecommendation env backend (args "C999")
    = Rejected (Error "Recommendation API failed (404): No recommendation").
Proof.
  intros env record found missing backend args.
  destruct (fetchRecommendation_outcome env backend (args "C001") found eq_refl)
    as (_ & _ & _ & _ & Hok & _).
  destruct (fetchRecommendation_outcome env backend (args "C999") missing eq_refl)
    as (_ & _ & _ & _ & _ & Hko).
  split; [reflexivity|].
  split; [exact (Hok eq_refl) | exact (Hko eq_refl)].
Defined.

(** C5 (as stated) fails: on a 404 reply the entry point throws. *)
Lemma not_found_is_thrown :
  let env := {| VITE_RECO_PRODUCTS_PATH := None;
                VITE_RECO_TRANSACTIONS_PATH := None;
                VITE_RECO_CLICKSTREAM_PATH := None |} in
  let missing := {| status := 404; statusText := "Not Found";
                    text := "No recommendation"; json := None |} in
  let args := {| customerId := Interaction.Str "C999"; productsPath := Unset;
                 transactionsPath := Unset; clickstreamPath := Unset |} in
  fetchRecommendation env (fun _ => Responded missing) args
    = Rejected (Error "Recommendation API failed (404): No recommendation") /\
  ~ always_resolves.
Proof.
  intros env missing args. split; [reflexivity|].
  intros Hclaim. destruct (Hclaim env args missing) as [v Hv].
  discriminate Hv.
Qed.

End RecoClientProps.

(** ** Catalogue generator *)

Module CatalogProps.
Import Catalog.

(** *** The helpers of the script on small inputs *)

Example splitCsvLine_quoted :
  splitCsvLine ("S1," ++ String QUOTE ("Milk, whole" ++ String QUOTE ",1.20"))
  = ["S1"; "Milk, whole"; "1.20"].
Proof. reflexivity. Qed.

Example split_lines_crlf :
  split_lines (JsString.chars ("a" ++ String CR (String LF ("b" ++ newline ++ "c")))) []
  = ["a"; "b"; "c"].
Proof. reflexivity. Qed.

Example slugify_name : slugify "Organic Milk 1L!" = "organic-milk-1l".
Proof. reflexivity. Qed.

Example parseFloat_cells :
  map parseFloat ["3.75"; " -1.5e2x"; ".5"; "."; "abc"; "Infinity"]
  = [Finite (15 # 4); Finite (-150); Finite (1 # 2); NotANumber; NotANumber;
     Infinity false].
Proof. reflexivity. Qed.

Example parseInt10_cells :
  map parseInt10 [" 42abc"; EmptyString; "-7"] = [Js.Num 42; Js.NaN; Js.Num (-7)].
Proof. reflexivity. Qed.

(** With neither an id nor a product name column the script stops with the
    [TypeError] of [slugify(undefined)]. *)
Example no_id_source_throws :
  generate_products "products.js" ("price" ++ newline ++ "1.20") = Threw.
Proof. reflexivity. Qed.

Lemma map_all_length {A B} (f : A -> option B) (l : list A) :
  forall ys, map_all f l = Some ys -> length ys = length l.
Proof.
  induction l as [|x l IH]; cbn; intros ys H.
  - now injection H as <-.
  - destruct (f x); [|discriminate].
    destruct (map_all f l) as [zs|]; [|discriminate].
    injection H as <-. cbn. f_equal. now apply IH.
Qed.

Lemma map_all_rows {A B} (f : A -> option B) (l : list A) :
  forall ys, map_all f l = Some ys -> Forall2 (fun x y => f x = Some y) l ys.
Proof.
  induction l as [|x l IH]; cbn; intros ys H.
  - injection H as <-. constructor.
  - destruct (f x) as [y|] eqn:Hx; [|discriminate].
    destruct (map_all f l) as [zs|]; [|discriminate].
    injection H as <-. constructor; [exact Hx | now apply IH].
Qed.

Lemma map_all_defined {A B} (f : A -> option B) (l : list A) :
  (forall x, In x l -> f x <> None) -> exists ys, map_all f l = Some ys.
Proof.
  induction l as [|x l IH]; cbn; intros H.
  - now exists [].
  - destruct (f x) as [y|] eqn:Hx; [|exfalso; now apply (H x); [left|]].
    destruct IH as [zs Hzs]; [intros z Hz; apply H; now right|].
    rewrite Hzs. now exists (y :: zs).
Qed.

Lemma map_all_agree {A A' B} (f : A -> option B) (g : A' -> option B)
    (l : list A) (l' : list A') :
  Forall2 (fun x x' => g x' = f x) l l' -> map_all g l' = map_all f l.
Proof.
  induction 1 as [|x x' l l' Hx _ IH]; cbn; [reflexivity|].
  now rewrite Hx, IH.
Qed.

(** A column title is a key of the record exactly when it is among the
    titles of the table. *)
Lemma fromEntries_keys {A} (entries : list (string * A)) :
  forall (m : gmap string A) k,
    fold_left (fun m e => <[fst e := snd e]> m) entries m !! k = None <->
    ~ In k (map fst entries) /\ m !! k = None.
Proof.
  induction entries as [|[k0 v0] entries IH]; intros m k; cbn.
  - tauto.
  - rewrite IH. destruct (decide (k0 = k)) as [->|Hne].
    + rewrite lookup_insert_eq. split; [intros [_ H]; discriminate|].
      intros [H _]. exfalso. apply H. now left.
    + rewrite lookup_insert_ne by exact Hne. tauto.
Qed.

Lemma make_record_missing (headers cells : list string) (c : string) :
  make_record headers cells !! c = None <-> ~ In c headers.
Proof.
  unfold make_record, fromEntries. rewrite fromEntries_keys, lookup_empty.
  change (map fst) with (fmap (M := list) (@fst string string)).
  rewrite fmap_imap.
  assert (Hkeys : forall l : list string,
            imap (fun (_ : nat) (h : string) => h) l = l).
  { induction l as [|x l IH]; [reflexivity|]. rewrite imap_cons. f_equal.
    exact IH. }
  rewrite (imap_ext _ (fun _ h => h) headers) by reflexivity.
  rewrite Hkeys. tauto.
Qed.

Lemma fromEntries_values {A} (entries : list (string * A)) :
  forall (m : gmap string A) k v,
    fold_left (fun m e => <[fst e := snd e]> m) entries m !! k = Some v ->
    In (k, v) entries \/ m !! k = Some v.
Proof.
  induction entries as [|[k0 v0] entries IH]; intros m k v; cbn.
  - now right.
  - intros H. apply IH in H as [H|H]; [left; now right|].
    destruct (decide (k0 = k)) as [->|Hne].
    + rewrite lookup_insert_eq in H. injection H as ->. left. now left.
    + rewrite lookup_insert_ne in H by exact Hne. now right.
Qed.

(** A field of the record is the cell under a column of that title, the
    empty text when the row is too short to have one. *)
Lemma make_record_cell (headers cells : list string) (c v : string) :
  make_record headers cells !! c = Some v ->
  exists i, headers !! i = Some c /\ v = default EmptyString (cells !! i).
Proof.
  unfold make_record, fromEntries. intros H.
  apply fromEntries_values in H as [H|H]; [|now rewrite lookup_empty in H].
  apply list_elem_of_In, elem_of_lookup_imap in H as (i & h & [= -> ->] & Hh).
  now exists i.
Qed.

(** The product depends on the columns the script reads only. *)
Lemma product_of_used_columns (record record' : gmap string string) :
  (forall c, In c used_columns -> record' !! c = record !! c) ->
  product_of_record record' = product_of_record record.
Proof.
  intros H. unfold product_of_record.
  rewrite !H by (unfold used_columns; cbn; tauto).
  reflexivity.
Qed.

(** What the callback makes of a row. *)
Lemma product_of_record_fields (record : gmap string string) (p : StoreProduct) :
  product_of_record record = Some p ->
  (forall sku, first_truthy (record !! "sku_id") = Some sku -> id p = sku) /\
  name p = record !! "product_name" /\
  description p = record !! "description" /\
  brand p = record !! "brand" /\
  category p = record !! "category" /\
  subCategory p = record !! "sub_category" /\
  (record !! "price" = None -> price p = Finite 0) /\
  (record !! "image_url" = None -> image p = EmptyString) /\
  (record !! "stock_quantity" = None -> stock p = Js.Num 0).
Proof.
  unfold product_of_record.
  destruct (first_truthy (record !! "sku_id")) as [sku|] eqn:Hsku.
  - intros [= <-]. cbn.
    repeat split; try (intros ->; reflexivity). now intros s [= ->].
  - destruct (match first_truthy (record !! "id") with
              | Some s => Some s
              | None => match record !! "product_name" with
                        | Some n => Some (slugify n)
                        | None => None
                        end
              end) as [sku|]; [|discriminate].
    intros [= <-]. cbn.
    repeat split; try (intros ->; reflexivity). discriminate.
Qed.

(** C6 (as the code has it). The catalogue loader ignores surplus columns:
    two tables whose non-blank rows agree on the columns the script reads
    give the same output.  It neither skips nor reports a row with a
    missing column: a run that completes, as every run on a table with a
    product_name column does, writes one product per non-blank row, in
    order, and prints only the final count; a row is loaded under its
    sku_id when that is not empty, its text fields being the cells under
    the columns of their titles (empty when the row is short), with the
    text fields of its missing columns undefined, a missing price read as
    0, a missing image as the empty string and a missing stock as 0. *)
Theorem rows_loaded_with_defaults (outputPath csvRaw headerLine : string)
    (rows : list string) :
  split_lines (JsString.chars (JsString.trim csvRaw)) [] = headerLine :: rows ->
  let headers := splitCsvLine headerLine in
  let record := fun line => make_record headers (splitCsvLine line) in
  (forall csvRaw' headerLine' rows',
     split_lines (JsString.chars (JsString.trim csvRaw')) []
       = headerLine' :: rows' ->
     Forall2 (fun line line' =>
                forall c, In c used_columns ->
                  make_record (splitCsvLine headerLine') (splitCsvLine line') !! c
                  = record line !! c)
             (List.filter nonblank rows) (List.filter nonblank rows') ->
     generate_products outputPath csvRaw' = generate_products outputPath csvRaw) /\
  (In "product_name" headers ->
   exists written console,
     generate_products outputPath csvRaw = Wrote written console) /\
  (forall written console,
     generate_products outputPath csvRaw = Wrote written console ->
     console = ["Wrote " ++ JsString.of_nat (length written)
                ++ " products to " ++ outputPath] /\
     Forall2 (fun line p =>
                (forall c, ~ In c headers -> record line !! c = None) /\
                (forall c v, record line !! c = Some v ->
                   exists i, headers !! i = Some c /\
                             v = default EmptyString (splitCsvLine line !! i)) /\
                (forall sku, first_truthy (record line !! "sku_id") = Some sku ->
                   id p = sku) /\
                name p = record line !! "product_name" /\
                description p = record line !! "description" /\
                brand p = record line !! "brand" /\
                category p = record line !! "category" /\
                subCategory p = record line !! "sub_category" /\
                (record line !! "price" = None -> price p = Finite 0) /\
                (record line !! "image_url" = None -> image p = EmptyString) /\
                (record line !! "stock_quantity" = None -> stock p = Js.Num 0))
             (List.filter nonblank rows) written).
Proof.
  intros Hsplit headers record. split; [|split].
  - intros csvRaw' headerLine' rows' Hsplit' Hagree.
    unfold generate_products, products. rewrite Hsplit, Hsplit'.
    fold headers.
    rewrite (map_all_agree (to_product headers)
               (to_product (splitCsvLine headerLine'))
               (List.filter nonblank rows) (List.filter nonblank rows'));
      [reflexivity|].
    eapply Forall2_impl; [exact Hagree|].
    intros line line' H. unfold to_product.
    now apply product_of_used_columns.
  - intros Hname. unfold generate_products, products. rewrite Hsplit.
    fold headers.
    destruct (map_all_defined (to_product headers) (List.filter nonblank rows))
      as [ps Hps].
    + intros line _. unfold to_product, product_of_record.
      destruct (make_record headers (splitCsvLine line) !! "product_name")
        as [n|] eqn:Hn.
      * destruct (first_truthy _); [discriminate|].
        destruct (first_truthy _); discriminate.
      * apply make_record_missing in Hn. contradiction.
    + rewrite Hps. eauto.
  - intros written console. unfold generate_products, products. rewrite Hsplit.
    fold headers.
    destruct (map_all _ _) as [ps|] eqn:Hmap; [|discriminate].
    intros [= <- <-]. split; [reflexivity|].
    apply map_all_rows in Hmap.
    eapply Forall2_impl; [exact Hmap|].
    intros line p Hp. split; [|split].
    + intros c Hc. now apply make_record_missing.
    + intros c v Hv. now apply make_record_cell.
    + now apply product_of_record_fields.
Qed.

(** A catalogue with a surplus column and a short second row, and the
    same catalogue without the surplus column. *)
Lemma rows_loaded_with_defaults_witness :
  let csv := "sku_id,product_name,aisle" ++ newline ++ "S1,Milk,7"
             ++ newline ++ "S2" ++ newline in
  let plain := "sku_id,product_name" ++ newline ++ "S1,Milk"
               ++ newline ++ "S2" in
  let written :=
    [ {| id := "S1"; name := Some "Milk"; description := None;
         brand := None; category := None; subCategory := None;
         price := Finite 0; image := EmptyString; stock := Js.Num 0 |};
      {| id := "S2"; name := Some EmptyString; description := None;
         brand := None; category := None; subCategory := None;
         price := Finite 0; image := EmptyString; stock := Js.Num 0 |} ] in
  generate_products "products.js" plain = generate_products "products.js" csv /\
  generate_products "products.js" csv
  = Wrote written ["Wrote 2 products to products.js"] /\
  Forall (fun p => category p = None /\ price p = Finite 0) written.
Proof.
  intros csv plain written.
  destruct (rows_loaded_with_defaults "products.js" csv
              "sku_id,product_name,aisle" ["S1,Milk,7"; "S2"] eq_refl)
    as (Hsurplus & Hdone & Hrows).
  assert (Hrun : generate_products "products.js" csv
                 = Wrote written ["Wrote 2 products to products.js"])
    by reflexivity.
  split.
  - apply (Hsurplus plain "sku_id,product_name" ["S1,Milk"; "S2"] eq_refl).
    repeat constructor; intros c Hc; cbn in Hc;
      repeat (destruct Hc as [<-|Hc]; [vm_compute; reflexivity|]);
      destruct Hc.
  - split; [exact Hrun|].
    destruct (Hrows _ _ Hrun) as [_ Hall].
    assert (Hmissing : ~ In "category" (splitCsvLine "sku_id,product_name,aisle")
                       /\ ~ In "price" (splitCsvLine "sku_id,product_name,aisle")).
    { split; intros H; vm_compute in H; intuition discriminate. }
    destruct Hmissing as [Hcat Hprice].
    clear Hrun Hsurplus Hdone Hrows.
    induction Hall as [|line p ls ps Hp _ IH]; constructor; [|exact IH].
    destruct Hp as (Hnone & _ & _ & _ & _ & _ & Hc & _ & Hpr & _).
    split; [rewrite Hc; now apply Hnone | apply Hpr; now apply Hnone].
Defined.

(** C6 (as stated) fails: a catalogue without a category column is loaded,
    its rows are not skipped and nothing is reported. *)
Lemma missing_column_row_is_loaded :
  let csv := "sku_id,product_name" ++ newline ++ "S1,Milk" in
  generate_products "products.js" csv
  = Wrote [ {| id := "S1"; name := Some "Milk"; description := None;
               brand := None; category := None; subCategory := None;
               price := Finite 0; image := EmptyString; stock := Js.Num 0 |} ]
          ["Wrote 1 products to products.js"] /\
  ~ loads_only_complete_rows.
Proof.
  intros csv. split; [reflexivity|].
  intros Hclaim. specialize (Hclaim "products.js" csv).
  vm_compute in Hclaim. inversion Hclaim as [|? ? Hc _]. discriminate Hc.
Qed.

End CatalogProps.

(** ** Customer-map generator *)

Module CustomerMapProps.
Import JsString CustomerMap.

Example pool_ends :
  take 2 randomNamePool = ["citrus-otter-01"; "citrus-sparrow-02"] /\
  last randomNamePool = Some "brisk-meadow-10".
Proof. split; reflexivity. Qed.

Example found_ids_example :
  found_ids ("customer_id,event" ++ Catalog.newline ++ "12,view"
             ++ Catalog.newline ++ "7,click" ++ Catalog.newline ++ "12,view")
  = ["12"; "7"].
Proof. reflexivity. Qed.

(** The customers generated for a full pool of 100 ids. *)
Lemma full_pool_distinct :
  NoDup (map id (map customer_at (seq 0 100))) /\
  NoDup (map username (map customer_at (seq 0 100))).
Proof. split; apply (bool_decide_unpack _); vm_compute; exact I. Qed.

Lemma pool_size : length randomNamePool = 100%nat.
Proof. reflexivity. Qed.

Lemma customers_seq (ids : list string) :
  customers ids = map customer_at (seq 0 (length ids)).
Proof. unfold customers. apply imap_seq_0. Qed.

(** The numeric sort of the script cannot change the outcome: customers
    depend on the number of ids only. *)
Lemma customers_length_only (ids ids' : list string) :
  length ids = length ids' -> customers ids = customers ids'.
Proof. intros H. now rewrite !customers_seq, H. Qed.

Lemma customers_prefix (ids : list string) :
  (length ids <= 100)%nat ->
  customers ids = take (length ids) (map customer_at (seq 0 100)).
Proof.
  intros H. rewrite customers_seq.
  change (map customer_at) with (fmap (M := list) customer_at).
  rewrite <- fmap_take, take_seq. do 2 f_equal. lia.
Qed.

Lemma customers_distinct (ids : list string) :
  (length ids <= 100)%nat ->
  NoDup (map id (customers ids)) /\ NoDup (map username (customers ids)).
Proof.
  intros H. rewrite (customers_prefix ids H).
  destruct full_pool_distinct as [Hid Hname].
  change (map id) with (fmap (M := list) id).
  change (map username) with (fmap (M := list) username).
  rewrite !fmap_take. split.
  - eapply sublist_NoDup; [exact Hid|]. apply sublist_take.
  - eapply sublist_NoDup; [exact Hname|]. apply sublist_take.
Qed.

(** Reading a table built by [fromEntries] from entries with distinct keys. *)
Lemma fromEntries_acc {A} (entries : list (string * A)) :
  forall (m : gmap string A) k v,
    NoDup (map fst entries) ->
    fold_left (fun m e => <[fst e := snd e]> m) entries m !! k = Some v <->
    In (k, v) entries \/ (~ In k (map fst entries) /\ m !! k = Some v).
Proof.
  induction entries as [|[k0 v0] entries IH]; intros m k v Hnd; cbn.
  - tauto.
  - apply NoDup_cons in Hnd as [Hk0 Hnd]. rewrite (IH _ _ _ Hnd).
    rewrite list_elem_of_In in Hk0.
    destruct (decide (k0 = k)) as [->|Hne].
    + rewrite lookup_insert_eq. split.
      * intros [Hin|[Hnin [= <-]]]; [|now left; left].
        exfalso. apply Hk0. apply in_map_iff. now exists (k, v).
      * intros [[[= <-]|Hin]|[Hnin _]].
        -- right. split; [exact Hk0 | reflexivity].
        -- exfalso. apply Hk0. apply in_map_iff. now exists (k, v).
        -- exfalso. apply Hnin. now left.
    + rewrite lookup_insert_ne by exact Hne. split.
      * intros [Hin|[Hnin Hm]]; [left; now right|].
        right. split; [|exact Hm]. intros [H|H]; [congruence | now apply Hnin].
      * intros [[[= H1 H2]|Hin]|[Hnin Hm]]; [congruence | now left |].
        right. split; [|exact Hm]. intros H. apply Hnin. now right.
Qed.

Lemma fromEntries_lookup {A} (entries : list (string * A)) k v :
  NoDup (map fst entries) ->
  Catalog.fromEntries entries !! k = Some v <-> In (k, v) entries.
Proof.
  intros Hnd. unfold Catalog.fromEntries. rewrite (fromEntries_acc _ _ _ _ Hnd).
  rewrite lookup_empty. split; [intros [H|[_ H]]; [exact H | discriminate] | now left].
Qed.

Lemma table_u2c (cs : list Customer) u c :
  NoDup (map username cs) ->
  usernameToCustomerId cs !! u = Some c <->
  exists x, In x cs /\ username x = u /\ id x = c.
Proof.
  intros Hnd. unfold usernameToCustomerId. rewrite fromEntries_lookup.
  - rewrite in_map_iff. split.
    + intros (x & [= <- <-] & Hx). now exists x.
    + intros (x & Hx & <- & <-). now exists x.
  - now rewrite map_map.
Qed.

Lemma table_c2u (cs : list Customer) c u :
  NoDup (map id cs) ->
  customerIdToUsername cs !! c = Some u <->
  exists x, In x cs /\ username x = u /\ id x = c.
Proof.
  intros Hnd. unfold customerIdToUsername. rewrite fromEntries_lookup.
  - rewrite in_map_iff. split.
    + intros (x & [= <- <-] & Hx). now exists x.
    + intros (x & Hx & <- & <-). now exists x.
  - now rewrite map_map.
Qed.

Lemma distinct_members (l : list string) :
  forall seen,
    NoDup (distinct l seen) /\
    (forall x, In x (distinct l seen) <-> In x l /\ ~ In x seen).
Proof.
  induction l as [|x l IH]; intros seen; cbn.
  - split; [constructor | intros x; tauto].
  - destruct (bool_decide (x ∈ seen)) eqn:Hx.
    + apply bool_decide_eq_true_1 in Hx. rewrite list_elem_of_In in Hx.
      destruct (IH seen) as [Hnd Hin]. split; [exact Hnd|].
      intros y. rewrite Hin. split; [tauto|].
      intros [[<-|Hy] Hno]; [contradiction | tauto].
    + apply bool_decide_eq_false in Hx. rewrite list_elem_of_In in Hx.
      destruct (IH (x :: seen)) as [Hnd Hin]. split.
      * apply NoDup_cons. split; [|exact Hnd].
        rewrite list_elem_of_In, Hin. cbn. tauto.
      * intros y. cbn. rewrite Hin. cbn.
        destruct (decide (x = y)) as [->|Hne]; [tauto|]. tauto.
Qed.

Lemma first_cell_leads (l : list ascii) :
  ~ In Catalog.COMMA (first_cell l) /\
  exists rest,
    l = (first_cell l ++ rest)%list /\
    (rest = [] \/ exists r, rest = Catalog.COMMA :: r).
Proof.
  induction l as [|c l (Hno & rest & Hl & Hrest)]; cbn.
  - split; [tauto|]. exists []. auto.
  - unfold Catalog.is_char. destruct (Ascii.eqb c Catalog.COMMA) eqn:Hc.
    + apply Ascii.eqb_eq in Hc as ->. split; [cbn; tauto|].
      exists (Catalog.COMMA :: l). split; [reflexivity|]. right. now exists l.
    + apply Ascii.eqb_neq in Hc. split.
      * cbn. intros [H|H]; [congruence | contradiction].
      * exists rest. split; [cbn; now rewrite <- Hl | exact Hrest].
Qed.

Lemma leads_first_cell (a rest : list ascii) :
  ~ In Catalog.COMMA a ->
  rest = [] \/ (exists r, rest = Catalog.COMMA :: r) ->
  first_cell (a ++ rest) = a.
Proof.
  intros Hno Hrest. induction a as [|c a IH]; cbn.
  - destruct Hrest as [->|[r ->]]; reflexivity.
  - unfold Catalog.is_char. destruct (Ascii.eqb c Catalog.COMMA) eqn:Hc.
    + apply Ascii.eqb_eq in Hc as ->. exfalso. apply Hno. now left.
    + f_equal. apply IH. intros H. apply Hno. now right.
Qed.

(** The text before the first comma of a line. *)
Lemma first_cell_spec (line id : string) :
  of_chars (first_cell (chars line)) = id <-> leads id line.
Proof.
  unfold leads, chars, of_chars. split.
  - intros <-. rewrite list_ascii_of_string_of_list_ascii.
    apply first_cell_leads.
  - intros (Hno & rest & Hl & Hrest). rewrite Hl.
    rewrite (leads_first_cell _ _ Hno Hrest).
    apply string_of_list_ascii_of_string.
Qed.

(** The ids the script collects. *)
Lemma found_ids_spec (csvText : string) :
  let rows := drop 1 (Catalog.split_lines (chars (trim csvText)) []) in
  NoDup (found_ids csvText) /\
  (forall id, In id (found_ids csvText) <->
     id <> EmptyString /\ id <> "customer_id" /\
     exists line, In line rows /\ leads id line).
Proof.
  intros rows. unfold found_ids. fold rows.
  match goal with |- context [distinct ?l []] =>
    destruct (distinct_members l []) as [Hnd Hin] end.
  split; [exact Hnd|]. intros id. rewrite Hin, filter_In, in_map_iff.
  split.
  - intros [[(line & Hid & Hline) Hkeep] _].
    apply andb_true_iff in Hkeep as [Htr Hne]. apply negb_true_iff in Hne.
    split; [now destruct id|]. split.
    + intros ->. discriminate.
    + exists line. split; [exact Hline | now apply first_cell_spec].
  - intros (Hne & Hcol & line & Hline & Hleads). split; [|cbn; tauto]. split.
    + exists line. split; [now apply first_cell_spec | exact Hline].
    + apply andb_true_iff. split; [now destruct id|].
      apply negb_true_iff. now apply String.eqb_neq.
Qed.

(** C10. The customer ids found in the clickstream CSV are the pairwise
    distinct texts, other than the empty text and the title customer_id,
    that stand before the first comma of a line after the title line.  For
    more than 100 of them the script throws.  For n <= 100 of them it
    generates n customers with the ids C001..C<n>, with pairwise distinct
    ids and pairwise distinct usernames, and the two lookup tables are
    mutually inverse: each maps a generated username (id) to the id
    (username) of the same customer, and looking a result up in the other
    table gives the key back. *)
Theorem customer_map_bijection (csvText : string) :
  let rows := drop 1 (Catalog.split_lines (chars (trim csvText)) []) in
  let ids := found_ids csvText in
  let n := length ids in
  NoDup ids /\
  (forall id, In id ids <->
     id <> EmptyString /\ id <> "customer_id" /\
     exists line, In line rows /\ leads id line) /\
  ((100 < n)%nat -> generate_customers ids = None) /\
  ((n <= 100)%nat ->
   exists cs,
     generate_customers ids = Some cs /\
     length cs = n /\
     map id cs
       = map (fun i => "C" ++ padStart0 3 (of_nat (i + 1))) (seq 0 n) /\
     NoDup (map id cs) /\ NoDup (map username cs) /\
     (forall x, In x cs ->
        usernameToCustomerId cs !! username x = Some (id x) /\
        customerIdToUsername cs !! id x = Some (username x)) /\
     (forall u c, usernameToCustomerId cs !! u = Some c <->
                  customerIdToUsername cs !! c = Some u)).
Proof.
  intros rows ids n.
  destruct (found_ids_spec csvText) as [Hnd Hin].
  split; [exact Hnd|]. split; [exact Hin|]. split.
  { intros H. unfold generate_customers. rewrite pool_size. fold n.
    now replace (100 <? n)%nat with true by (symmetry; apply Nat.ltb_lt; exact H). }
  intros Hlen. exists (customers ids).
  destruct (customers_distinct ids Hlen) as [Hid Hname].
  split.
  { unfold generate_customers. rewrite pool_size. fold n.
    replace (100 <? n)%nat with false
      by (symmetry; apply Nat.ltb_ge; exact Hlen).
    reflexivity. }
  split.
  { rewrite customers_seq. now rewrite length_map, length_seq. }
  split.
  { rewrite customers_seq, map_map. reflexivity. }
  split; [exact Hid|]. split; [exact Hname|]. split.
  - intros x Hx. split.
    + apply table_u2c; [exact Hname | now exists x].
    + apply table_c2u; [exact Hid | now exists x].
  - intros u c.
    rewrite (table_u2c (customers ids) u c Hname),
            (table_c2u (customers ids) c u Hid).
    reflexivity.
Qed.

(** Three customer ids, as found in a clickstream file. *)
Lemma customer_map_bijection_witness :
  let csv := "customer_id,event" ++ Catalog.newline ++ "12,view"
             ++ Catalog.newline ++ "7,click" ++ Catalog.newline
             ++ "12,view" ++ Catalog.newline ++ "30,view" in
  found_ids csv = ["12"; "7"; "30"] /\
  (In "7" (found_ids csv) /\ leads "7" "7,click") /\
  exists cs,
    generate_customers (found_ids csv) = Some cs /\
    map id cs = ["C001"; "C002"; "C003"] /\
    usernameToCustomerId cs !! "citrus-sparrow-02" = Some "C002" /\
    customerIdToUsername cs !! "C002" = Some "citrus-sparrow-02".
Proof.
  intros csv.
  destruct (customer_map_bijection csv) as (_ & Hin & _ & Hgen).
  split; [reflexivity|]. split.
  { split; [vm_compute; tauto|]. split.
    - vm_compute. intros [H|[]]. discriminate H.
    - exists (list_ascii_of_string ",click"). split; [reflexivity|].
      right. now exists (list_ascii_of_string "click"). }
  destruct Hgen as (cs & Hcs & _ & Hids & _ & _ & _ & Hinv);
    [vm_compute; lia|].
  exists cs. split; [exact Hcs|]. split; [rewrite Hids; reflexivity|].
  assert (Hcs' : cs = customers (found_ids csv))
    by (vm_compute in Hcs; injection Hcs as <-; reflexivity).
  assert (H : usernameToCustomerId cs !! "citrus-sparrow-02" = Some "C002")
    by (rewrite Hcs'; reflexivity).
  split; [exact H | now apply Hinv].
Defined.

(** An id pool of 101 ids is too large. *)
Example pool_exhausted :
  generate_customers (map of_nat (seq 0 101)) = None.
Proof. reflexivity. Qed.

End CustomerMapProps.

(** ** Recommendation core: scoring *)

Module ScoringProps.
Import Reco.
Local Open Scope R_scope.

Lemma Rsum_cons (x : R) (l : list R) : Rsum (x :: l) = x + Rsum l.
Proof. reflexivity. Qed.

Lemma Rsum_nonneg (l : list R) : Forall (fun x => 0 <= x) l -> 0 <= Rsum l.
Proof.
  induction 1 as [|x l Hx _ IH]; [cbn; lra|]. rewrite Rsum_cons. lra.
Qed.





Lemma normalise_zero (x : R) (mo : option R) :
  (forall m, mo = Some m -> m = 0) -> normalise x mo = 0.
Proof.
  intros Hm. unfold normalise. destruct mo as [m|]; [|reflexivity].
  destruct (Req_dec_T m 0) as [_|Hne]; [reflexivity|].
  exfalso. apply Hne. now apply Hm.
Qed.

Lemma list_max_all_zero (l : list R) (m : R) :
  (forall x, In x l -> x = 0) -> list_max l = Some m -> m = 0.
Proof.
  revert m. induction l as [|y l IH]; intros m Hall Hm; [discriminate|].
  cbn in Hm. assert (Hy : y = 0) by (apply Hall; now left).
  destruct (list_max l) as [m'|] eqn:Hl.
  - injection Hm as <-. rewrite Hy, (IH m'); [|intros x Hx; apply Hall; now right|reflexivity].
    apply Rmax_left. lra.
  - now injection Hm as <-.
Qed.




(** *** Configuration loading *)

Lemma Rleb_le (x y : R) : Rleb x y = true <-> x <= y.
Proof. unfold Rleb. destruct (Rle_dec x y); split; auto; discriminate. Qed.

Lemma Rltb_lt (x y : R) : Rltb x y = true <-> x < y.
Proof. unfold Rltb. destruct (Rlt_dec x y); split; auto; discriminate. Qed.

(** The check at load time decides exactly the well-formed parameters. *)
Lemma valid_parameters_spec (cfg : Config) :
  valid_parameters cfg = true <-> well_formed cfg.
Proof.
  unfold valid_parameters, well_formed.
  rewrite !andb_true_iff, !forallb_forall, !Rleb_le, !Rltb_lt, Nat.leb_le.
  split.
  - intros ((((((((((Hw & Hd) & Hc) & Hm) & Hr0) & Hr1) & Hi) & He) & Hcw) & Hfw) & Hs).
    repeat split; try assumption.
    + intros c. apply Rleb_le, Hw. destruct c; cbn; tauto.
    + intros ty. apply Rleb_le, He. destruct ty; cbn; tauto.
  - intros (Hw & Hd & Hc & Hm & [Hr0 Hr1] & Hi & He & Hcw & Hfw & Hs).
    repeat split; try assumption.
    + intros c _. apply Rleb_le, Hw.
    + intros ty _. apply Rleb_le, He.
Qed.

(** A configuration that loads is the document read, its weights sum to 1
    within epsilon and its parameters are well-formed. *)
Lemma load_config_checked (epsilon : R) (raw cfg : Config) :
  load_config epsilon raw = Some cfg <->
  cfg = raw /\ Rabs (weight_sum raw - 1) <= epsilon /\ well_formed raw.
Proof.
  unfold load_config.
  destruct (Rleb _ _ && valid_parameters raw) eqn:Hok.
  - apply andb_true_iff in Hok as [Hsum Hvalid].
    apply Rleb_le in Hsum. apply valid_parameters_spec in Hvalid.
    split; [now intros [= <-] | now intros (-> & _)].
  - split; [discriminate|]. intros (_ & Hsum & Hvalid).
    apply Rleb_le in Hsum. apply valid_parameters_spec in Hvalid.
    rewrite Hsum, Hvalid in Hok. discriminate.
Qed.

Section Components.

Variable cfg : Config.
Variable catalog : list Product.
Variable transactions : list Transaction.
Variable events : list InteractionEvent.
Variable draw : Product -> R.
Variable customer : string.
Variable now : R.

Abbreviation history := (history transactions customer).
Abbreviation category_score := (category_score cfg transactions customer now).
Abbreviation intent_sum := (intent_sum cfg events customer now).




Hypothesis cfg_ok : well_formed cfg.


(** With a loaded configuration the cycle of a product that counts as
    purchased often enough is the mean of at least one delta. *)
Lemma cycle_defined (p : Product) :
  let dates :=
    ordered_dates
      (omap t_date (filter (fun t => t_product t = product_id p) history)) in
  (min_purchases cfg <= length dates)%nat ->
  exists avg, mean (deltas dates) = Some avg.
Proof.
  intros dates Hlen. destruct cfg_ok as (_ & _ & _ & Hmin & _).
  destruct dates as [|d1 [|d2 rest]]; [cbn in Hlen; lia | cbn in Hlen; lia|].
  cbn [deltas]. unfold mean. eauto.
Qed.






Hypothesis draw_ok : forall p, 0 <= draw p <= 1.


End Components.

(** *** Empty signals *)

Lemma filter_none {A} (P : A -> Prop) `{forall x, Decision (P x)} (l : list A) :
  (forall x, In x l -> ~ P x) -> filter P l = [].
Proof.
  induction l as [|x l IH]; intros Hl; [reflexivity|].
  rewrite filter_cons_False by (apply Hl; now left).
  apply IH. intros y Hy. apply Hl. now right.
Qed.

Lemma omap_none {A B} (f : A -> option B) (l : list A) :
  (forall x, In x l -> f x = None) -> omap f l = [].
Proof.
  induction l as [|x l IH]; intros Hl; [reflexivity|].
  cbn [omap list_omap]. rewrite (Hl x) by now left.
  apply IH. intros y Hy. apply Hl. now right.
Qed.

Lemma normalise_0_l (mo : option R) : normalise 0 mo = 0.
Proof.
  unfold normalise. destruct mo as [m|]; [|reflexivity].
  destruct (Req_dec_T m 0); [reflexivity|]. unfold Rdiv. ring.
Qed.

Lemma ordered_dates_length (l : list R) : length (ordered_dates l) = length l.
Proof.
  unfold ordered_dates. induction l as [|d l IH]; [reflexivity|].
  cbn [fold_right length]. rewrite <- IH.
  generalize (fold_right insert_date [] l). intros k.
  induction k as [|x k IHk]; [reflexivity|].
  cbn [insert_date]. destruct (Rle_dec d x); cbn [length]; [reflexivity|].
  now rewrite IHk.
Qed.

Section EmptySignals.

Variable cfg : Config.
Variable catalog : list Product.
Variable transactions : list Transaction.
Variable events : list InteractionEvent.
Variable customer : string.
Variable now : R.

(** A customer none of whose purchases has both a date and a quantity, a
    customer without purchases included, has category affinity 0. *)
Lemma category_affinity_empty (p : Product) :
  (forall t, In t (Reco.history transactions customer) ->
     t_date t = None \/ t_quantity t = None) ->
  category_affinity cfg transactions customer now p = 0.
Proof.
  intros H. unfold category_affinity.
  assert (Hzero : forall c, Reco.category_score cfg transactions customer now c = 0).
  { intros c. unfold Reco.category_score. rewrite omap_none; [reflexivity|].
    intros t Ht. apply list_elem_of_In, list_elem_of_filter in Ht as [_ Ht].
    apply list_elem_of_In in Ht. unfold purchase_term.
    destruct (H t Ht) as [-> | Hq]; [reflexivity|].
    rewrite Hq. now destruct (t_date t). }
  rewrite Hzero. apply normalise_0_l.
Qed.

(** A product of which the customer has fewer dated purchases than the
    configured minimum, a product never purchased included, has repurchase
    likelihood 0. *)
Lemma repurchase_likelihood_empty (p : Product) :
  (length (omap t_date (filter (fun t => t_product t = product_id p)
                          (Reco.history transactions customer)))
   < Nat.max 1 (min_purchases cfg))%nat ->
  repurchase_likelihood cfg transactions customer now p = 0.
Proof.
  intros H. unfold repurchase_likelihood.
  rewrite <- ordered_dates_length in H.
  destruct (ordered_dates _) as [|d dates]; [reflexivity|].
  cbn [length] in H.
  replace (_ <? _)%nat with true; [reflexivity|].
  symmetry. apply Nat.ltb_lt. cbn [length]. lia.
Qed.

(** When no event of the customer with a timestamp references a catalog
    product, the clickstream intent is 0. *)
Lemma clickstream_intent_empty (p : Product) :
  (forall e q, In e events -> In q catalog ->
     e_customer e = customer -> e_product e = Some (product_id q) ->
     e_time e = None) ->
  clickstream_intent cfg catalog events customer now p = 0.
Proof.
  intros H. unfold clickstream_intent. apply normalise_zero.
  intros m Hm. apply (list_max_all_zero _ _) in Hm; [exact Hm|].
  intros x Hx. apply in_map_iff in Hx as (q & <- & Hq).
  unfold Reco.intent_sum. rewrite omap_none; [reflexivity|].
  intros e He. apply list_elem_of_In, list_elem_of_filter in He as [[Hc Hp] He].
  apply list_elem_of_In in He. unfold combined.
  now rewrite (H e q He Hq Hc Hp).
Qed.

(** A product nobody bought has popularity 0. *)
Lemma product_popularity_empty (p : Product) :
  filter (fun t => t_product t = product_id p) transactions = [] ->
  product_popularity cfg catalog transactions p = 0.
Proof.
  intros H. unfold product_popularity, unique_customers, total_quantity.
  rewrite H. cbn [map unique length INR Rsum fold_right omap list_omap].
  rewrite !normalise_0_l. ring.
Qed.

End EmptySignals.

Section Breakdown.

Variable cfg : Config.
Variable catalog : list Product.
Variable transactions : list Transaction.
Variable events : list InteractionEvent.
Variable draw : Product -> R.
Variable customer : string.
Variable now : R.

Abbreviation component_score :=
  (component_score cfg catalog transactions events draw customer now).
Abbreviation score_product :=
  (score_product cfg catalog transactions events draw customer now).
Abbreviation score_all :=
  (score_all cfg catalog transactions events draw customer now).

(** The breakdown of a product holds the score of every component under
    the name of the component. *)
Lemma score_product_lookup (c : Component) (p : Product) :
  components (score_product p) !! component_name c = Some (component_score c p).
Proof.
  unfold Reco.score_product.
  cbn [components fold_right all_components].
  destruct c; cbn [component_name];
    repeat (rewrite lookup_insert_ne by discriminate);
    apply lookup_insert_eq.
Qed.

Lemma component_value_score (c : Component) (p : Product) :
  component_value (score_product p) c = component_score c p.
Proof. unfold component_value. now rewrite score_product_lookup. Qed.

(** The names under which a breakdown holds a score are exactly the five
    component names. *)
Lemma score_product_names (p : Product) (k : string) :
  is_Some (components (score_product p) !! k) <->
  exists c, k = component_name c.
Proof.
  split.
  - unfold Reco.score_product. cbn [components fold_right all_components].
    intros [v Hv].
    repeat (apply lookup_insert_Some in Hv as [[<- _]|[_ Hv]];
            [eexists; reflexivity|]).
    rewrite lookup_empty in Hv. discriminate.
  - intros [c ->]. rewrite score_product_lookup. eexists. reflexivity.
Qed.



Lemma score_all_member (sc : Scored) :
  In sc score_all ->
  In (candidate sc) catalog /\ breakdown sc = score_product (candidate sc).
Proof.
  unfold Reco.score_all. intros H.
  apply in_map_iff in H as (p & <- & Hp). now split.
Qed.

End Breakdown.




(** A configuration whose weights sum to 1 does not load when a parameter
    is malformed: here the customer sub-weight of the popularity is 2. *)
Example malformed_config_rejected :
  load_config (1 / 1000000)
    {| weight := weight example_config;
       decay_days := 90; cycle_std_days := 7; min_purchases := 2;
       recency_weight := 7 / 10; intent_decay_hours := 24;
       event_weight := event_weight example_config;
       customer_weight := 2; frequency_weight := 4 / 10;
       exclude_recent_purchases_days := Some 14;
       exclude_discounted := true; exclude_out_of_stock := true;
       top_k := 20; shown_decay_hours := 24 |} = None.
Proof.
  destruct (load_config _ _) as [cfg|] eqn:Hload; [|reflexivity].
  apply load_config_checked in Hload as (_ & _ & Hcfg).
  destruct Hcfg as (_ & _ & _ & _ & _ & _ & _ & _ & _ & Hsum).
  cbn in Hsum. lra.
Qed.


End ScoringProps.

(** ** Recommendation core: selector *)

Module SelectorProps.
Import Reco.
Import ScoringProps.
Local Open Scope R_scope.

(** Settles the comparisons of closed real expressions met while a
    definition is evaluated on concrete data. *)
Ltac R_decide :=
  repeat match goal with
    | |- context [Rlt_dec ?a ?b] => destruct (Rlt_dec a b); try lra
    | |- context [Rle_dec ?a ?b] => destruct (Rle_dec a b); try lra
    | |- context [Req_dec_T ?a ?b] => destruct (Req_dec_T a b); try lra
    end.

Lemma In_take {A} (n : nat) (l : list A) (x : A) : In x (take n l) -> In x l.
Proof.
  revert n. induction l as [|y l IH]; intros [|n]; cbn; try tauto.
  intros [H|H]; [now left | right; eauto].
Qed.

Lemma Rsum_app (l k : list R) : Rsum (l ++ k) = Rsum l + Rsum k.
Proof.
  induction l as [|x l IH]; cbn [app]; [cbn; lra|].
  rewrite !Rsum_cons, IH. lra.
Qed.

Lemma Rsum_take_nonneg (ws : list R) (i : nat) :
  Forall (fun w => 0 <= w) ws -> 0 <= Rsum (take i ws).
Proof.
  intros H. apply Rsum_nonneg. apply Forall_forall. intros x Hx.
  rewrite Forall_forall in H. apply H.
  apply list_elem_of_In. apply list_elem_of_In in Hx. eapply In_take, Hx.
Qed.

(** *** The walk over the cumulative weights *)

Lemma pick_index_lt (ws : list R) (target : R) :
  ws <> [] -> (pick_index ws target < length ws)%nat.
Proof.
  revert target. induction ws as [|w ws IH]; intros target Hne; [congruence|].
  cbn [pick_index]. destruct ws as [|w' ws]; [cbn; lia|].
  destruct (Rlt_dec target w); [cbn; lia|].
  specialize (IH (target - w) ltac:(discriminate)). cbn [length] in *. lia.
Qed.

(** Index [i] is picked exactly when the target falls in the interval of
    the cumulative weights that belongs to [i]. *)
Lemma pick_index_interval (ws : list R) :
  Forall (fun w => 0 <= w) ws ->
  forall target i,
    0 <= target < Rsum ws ->
    pick_index ws target = i <->
    Rsum (take i ws) <= target < Rsum (take (S i) ws).
Proof.
  induction ws as [|w ws IH]; intros Hpos target i Ht.
  - cbn in Ht. lra.
  - apply Forall_cons in Hpos as [Hw Hpos].
    rewrite Rsum_cons in Ht.
    pose proof (Rsum_take_nonneg ws (pred i) Hpos) as Hpre.
    cbn [pick_index]. destruct ws as [|w' ws].
    + cbn in Ht. destruct i as [|i]; cbn [take].
      * rewrite !Rsum_cons. cbn. split; [intros _; lra | reflexivity].
      * rewrite take_nil, !Rsum_cons. cbn. split; [discriminate | lra].
    + destruct (Rlt_dec target w) as [Hlt|Hge].
      * destruct i as [|i]; cbn [take].
        -- rewrite Rsum_cons. cbn [Rsum fold_right].
           split; [intros _; lra | reflexivity].
        -- rewrite !Rsum_cons. cbn [pred] in Hpre.
           split; [discriminate | lra].
      * apply Rnot_lt_le in Hge. destruct i as [|i]; cbn [take].
        -- rewrite Rsum_cons. cbn [Rsum fold_right].
           split; [discriminate | lra].
        -- rewrite !Rsum_cons.
           specialize (IH Hpos (target - w) i ltac:(lra)).
           split.
           ++ intros [= H]. apply IH in H.
              change (take (S i) (w' :: ws)) with (w' :: take i ws) in H.
              rewrite Rsum_cons in H. lra.
           ++ intros H. f_equal. apply IH.
              change (take (S i) (w' :: ws)) with (w' :: take i ws).
              rewrite Rsum_cons. lra.
Qed.

(** *** The weights of the draw *)

Lemma all_zero_spec (scores : list R) :
  forallb (fun s => if Req_dec_T s 0 then true else false) scores = true <->
  (forall s, In s scores -> s = 0).
Proof.
  rewrite forallb_forall. split; intros H s Hs; specialize (H s Hs).
  - now destruct (Req_dec_T s 0).
  - destruct (Req_dec_T s 0); [reflexivity | contradiction].
Qed.

Lemma not_all_zero (scores : list R) :
  forallb (fun s => if Req_dec_T s 0 then true else false) scores = false ->
  exists s, In s scores /\ s <> 0.
Proof.
  induction scores as [|x l IH]; cbn [forallb]; [discriminate|].
  destruct (Req_dec_T x 0) as [_|Hne]; cbn [andb].
  - intros H. destruct (IH H) as (s & Hs & Hne). exists s. split; [now right | exact Hne].
  - intros _. exists x. split; [now left | exact Hne].
Qed.

Lemma Rsum_ones {A} (l : list A) : Rsum (map (fun _ => 1) l) = INR (length l).
Proof.
  induction l as [|x l IH]; [reflexivity|].
  cbn [map length]. rewrite Rsum_cons, IH, S_INR. lra.
Qed.

Lemma Rsum_pos (l : list R) :
  Forall (fun x => 0 <= x) l -> (exists x, In x l /\ x <> 0) -> 0 < Rsum l.
Proof.
  induction 1 as [|x l Hx Hl IH]; intros (y & Hy & Hne); [destruct Hy|].
  rewrite Rsum_cons. pose proof (Rsum_nonneg l Hl).
  destruct Hy as [->|Hy]; [lra|].
  specialize (IH (ex_intro _ y (conj Hy Hne))). lra.
Qed.

Lemma sampling_weights_length (scores : list R) :
  length (sampling_weights scores) = length scores.
Proof.
  unfold sampling_weights. destruct (forallb _ _); [apply length_map | reflexivity].
Qed.

Lemma sampling_weights_nonneg (scores : list R) :
  Forall (fun s => 0 <= s) scores ->
  Forall (fun w => 0 <= w) (sampling_weights scores).
Proof.
  intros H. unfold sampling_weights. destruct (forallb _ _); [|exact H].
  apply Forall_forall. intros w Hw.
  apply list_elem_of_In, in_map_iff in Hw as (_ & <- & _). lra.
Qed.

(** The divisor of the draw is positive: the selector never divides by 0. *)
Lemma sampling_weights_sum_pos (scores : list R) :
  scores <> [] -> Forall (fun s => 0 <= s) scores ->
  0 < Rsum (sampling_weights scores).
Proof.
  intros Hne Hpos. unfold sampling_weights.
  destruct (forallb _ _) eqn:Hz.
  - rewrite Rsum_ones. destruct scores; [congruence|].
    cbn [length]. apply lt_0_INR. lia.
  - apply Rsum_pos; [exact Hpos | now apply not_all_zero].
Qed.

Lemma nth_ones {A} (l : list A) (i : nat) :
  (i < length l)%nat -> nth i (map (fun _ => 1) l) 0 = 1.
Proof.
  revert i. induction l as [|x l IH]; intros i Hi; cbn in Hi; [lia|].
  destruct i as [|i]; cbn; [reflexivity | apply IH; lia].
Qed.

(** The probabilities of the first [i] candidates add up to the cumulative
    weight in front of candidate [i], divided by the total weight. *)
Lemma cumulative_probability (scores : list R) (i : nat) :
  (i <= length scores)%nat ->
  Rsum (map (selection_probability scores) (seq 0 i))
  = Rsum (take i (sampling_weights scores)) / Rsum (sampling_weights scores).
Proof.
  rewrite <- sampling_weights_length. unfold selection_probability.
  set (ws := sampling_weights scores). set (W := Rsum ws).
  induction i as [|i IH]; intros Hi.
  - rewrite take_0. cbn. unfold Rdiv. ring.
  - destruct (lookup_lt_is_Some_2 ws i ltac:(lia)) as [x Hx].
    rewrite seq_S, map_app, Rsum_app, IH by lia.
    rewrite (take_S_r _ _ _ Hx), Rsum_app. cbn [map Nat.add].
    rewrite nth_lookup, Hx. cbn [default]. rewrite !Rsum_cons. cbn [Rsum fold_right].
    unfold Rdiv, Datatypes.id. ring.
Qed.

(** The draw over scores none of which is negative: the divisor is
    positive; candidate [i] has probability score_i divided by the sum of
    the scores, or 1/n when all scores are 0; the draw returns candidate
    [i] exactly when [u] falls in the interval of the cumulative
    probabilities whose length is the probability of [i]; the
    probabilities add up to 1. *)
Lemma sampling_spec (scores : list R) (u : R) (i : nat) :
  scores <> [] ->
  Forall (fun s => 0 <= s) scores ->
  0 <= u < 1 ->
  (i < length scores)%nat ->
  0 < Rsum (sampling_weights scores) /\
  ((exists s, In s scores /\ s <> 0) ->
     0 < Rsum scores /\
     selection_probability scores i = nth i scores 0 / Rsum scores) /\
  ((forall s, In s scores -> s = 0) ->
     selection_probability scores i = 1 / INR (length scores)) /\
  (sample_index scores u < length scores)%nat /\
  (sample_index scores u = i <->
     Rsum (map (selection_probability scores) (seq 0 i)) <= u
       < Rsum (map (selection_probability scores) (seq 0 (S i)))) /\
  Rsum (map (selection_probability scores) (seq 0 (length scores))) = 1.
Proof.
  intros Hne Hpos Hu Hi.
  pose proof (sampling_weights_sum_pos scores Hne Hpos) as HW.
  split; [exact HW|]. split; [|split; [|split; [|split]]].
  - intros Hnz.
    assert (Hws : sampling_weights scores = scores).
    { unfold sampling_weights. destruct (forallb _ _) eqn:Hz; [|reflexivity].
      exfalso. destruct Hnz as (s & Hs & Hsne). apply Hsne.
      now apply (proj1 (all_zero_spec scores) Hz). }
    unfold selection_probability. rewrite Hws in *. now split.
  - intros Hz. apply all_zero_spec in Hz.
    unfold selection_probability, sampling_weights. rewrite Hz.
    now rewrite nth_ones, Rsum_ones.
  - unfold sample_index. rewrite <- sampling_weights_length.
    apply pick_index_lt. intros Hnil.
    apply (f_equal (@length R)) in Hnil.
    rewrite sampling_weights_length in Hnil. destruct scores; [congruence | discriminate].
  - rewrite !cumulative_probability by lia. unfold sample_index.
    set (ws := sampling_weights scores) in *. set (W := Rsum ws) in *.
    assert (Ht : 0 <= u * W < W) by (split; nra).
    rewrite (pick_index_interval ws (sampling_weights_nonneg scores Hpos)
               (u * W) i Ht).
    split; intros [H1 H2]; split.
    + apply Rmult_le_reg_r with W; [exact HW|].
      unfold Rdiv. rewrite Rmult_assoc, Rinv_l by lra. lra.
    + apply Rmult_lt_reg_r with W; [exact HW|].
      unfold Rdiv. rewrite Rmult_assoc, Rinv_l by lra. lra.
    + apply (Rmult_le_compat_r W) in H1; [|lra].
      unfold Rdiv in H1. rewrite Rmult_assoc, Rinv_l in H1 by lra. lra.
    + apply (Rmult_lt_compat_r W) in H2; [|lra].
      unfold Rdiv in H2. rewrite Rmult_assoc, Rinv_l in H2 by lra. lra.
  - rewrite cumulative_probability by lia.
    rewrite <- sampling_weights_length, take_ge by lia.
    unfold Rdiv. apply Rinv_r. lra.
Qed.

(** Scores 0.9, 0.05, 0.05: the first candidate has probability 0.9 and is
    the one drawn for [u = 1/2]. *)
Example sampling_nine_tenths :
  let scores := [9 / 10; 5 / 100; 5 / 100] in
  scores <> [] /\ Forall (fun s => 0 <= s) scores /\
  selection_probability scores 0 = 9 / 10 /\
  sample_index scores (1 / 2) = 0%nat.
Proof.
  intros scores.
  assert (Hne : scores <> []) by discriminate.
  assert (Hpos : Forall (fun s => 0 <= s) scores).
  { repeat constructor; lra. }
  assert (Hu : 0 <= 1 / 2 < 1) by lra.
  assert (Hi : (0 < length scores)%nat) by (cbn; lia).
  destruct (sampling_spec scores (1 / 2) 0 Hne Hpos Hu Hi)
    as (_ & Hprob & _ & _ & Hpick & _).
  assert (Hnz : exists s, In s scores /\ s <> 0).
  { exists (9 / 10). split; [now left | lra]. }
  destruct (Hprob Hnz) as [_ Hp].
  assert (Hp0 : selection_probability scores 0 = 9 / 10).
  { rewrite Hp. cbn. lra. }
  split; [exact Hne|]. split; [exact Hpos|]. split; [exact Hp0|].
  apply Hpick. cbn [seq map]. rewrite !Rsum_cons, Hp0. cbn. lra.
Qed.

(** *** Ranking and the shown-product window *)

Lemma In_insert_by_score (x y : Scored) (l : list Scored) :
  In y (insert_by_score x l) <-> y = x \/ In y l.
Proof.
  induction l as [|z l IH]; cbn.
  - intuition congruence.
  - destruct (Rlt_dec (score x) (score z)); cbn; rewrite ?IH; intuition congruence.
Qed.

Lemma In_sort_by_score (y : Scored) (l : list Scored) :
  In y (sort_by_score l) <-> In y l.
Proof.
  unfold sort_by_score. induction l as [|x l IH]; cbn; [tauto|].
  rewrite In_insert_by_score, IH. intuition congruence.
Qed.

Section Selection.

Variable cfg : Config.

Lemma In_top_candidates (sc : Scored) (filtered : list Scored) :
  In sc (top_candidates cfg filtered) -> In sc filtered.
Proof.
  unfold top_candidates. intros H. apply In_take in H.
  exact (proj1 (In_sort_by_score _ _) H).
Qed.

Lemma In_remaining store customer now filtered (sc : Scored) :
  In sc (remaining cfg store customer now filtered) ->
  In sc (top_candidates cfg filtered).
Proof.
  unfold remaining, eligible_minus_shown.
  destruct (List.filter _ _) as [|a l] eqn:Hf; [tauto|].
  rewrite <- Hf. intros H. now apply filter_In in H.
Qed.

(** What a successful selection is: a member of the remaining candidates,
    recorded at the end of the customer's ShownRecord. *)
Lemma select_Some store customer now u filtered (sc : Scored) store' :
  select cfg store customer now u filtered = (Some sc, store') ->
  In sc (remaining cfg store customer now filtered) /\
  store' = record_shown store customer (product_id (candidate sc)) now.
Proof.
  unfold select. destruct (_ !! _) as [sc0|] eqn:Hl; [|discriminate].
  intros [= <- <-]. split; [|reflexivity].
  apply list_elem_of_In. eapply list_elem_of_lookup_2, Hl.
Qed.

(** No candidate, no selection: the explicit absence leaves the store as
    it is; otherwise a candidate is selected. *)
Lemma select_total store customer now u filtered :
  (top_candidates cfg filtered = [] /\
   select cfg store customer now u filtered = (None, store)) \/
  (exists sc, In sc filtered /\
     select cfg store customer now u filtered
     = (Some sc, record_shown store customer (product_id (candidate sc)) now)).
Proof.
  unfold select.
  destruct (remaining cfg store customer now filtered) as [|a pool] eqn:Hpool.
  - left. split; [|reflexivity].
    unfold remaining in Hpool. now destruct (eligible_minus_shown _ _ _ _ _).
  - right.
    assert (Hlt : (sample_index (map score (a :: pool)) u < length (a :: pool))%nat).
    { rewrite <- (length_map score). unfold sample_index.
      rewrite <- sampling_weights_length. apply pick_index_lt.
      intros Hnil. apply (f_equal (@length R)) in Hnil.
      rewrite sampling_weights_length in Hnil. discriminate. }
    destruct (lookup_lt_is_Some_2 _ _ Hlt) as [sc Hsc]. rewrite Hsc.
    exists sc. split; [|reflexivity].
    apply In_top_candidates, (In_remaining store customer now).
    rewrite Hpool. apply list_elem_of_In. eapply list_elem_of_lookup_2, Hsc.
Qed.

Lemma shown_entries_recorded store customer pid now :
  shown_entries (record_shown store customer pid now) customer
  = (shown_entries store customer ++ [(pid, now)])%list.
Proof.
  unfold shown_entries at 1, record_shown. now rewrite lookup_insert_eq.
Qed.

(** C3. Two successive invocations of the selector for one customer on the
    same candidates, the second within the shown-decay window of the
    first: the first appends the selected product id and its timestamp to
    the ShownRecord of the customer before it returns, and unless the
    eligible-minus-shown set of the second invocation is empty (the
    fallback) the second returns a different product. *)
Theorem successive_selections_differ (store store1 store2 : ShownStore)
    (customer : string) (filtered : list Scored) (t1 t2 u1 u2 : R)
    (sc1 sc2 : Scored) :
  select cfg store customer t1 u1 filtered = (Some sc1, store1) ->
  select cfg store1 customer t2 u2 filtered = (Some sc2, store2) ->
  hours_between t1 t2 <= shown_decay_hours cfg ->
  eligible_minus_shown cfg store1 customer t2 filtered <> [] ->
  store1 !! customer
    = Some (shown_entries store customer
            ++ [(product_id (candidate sc1), t1)])%list /\
  product_id (candidate sc2) <> product_id (candidate sc1).
Proof.
  intros H1 H2 Hwin Hne.
  apply select_Some in H1 as [_ ->].
  apply select_Some in H2 as [Hsc2 _].
  split; [unfold record_shown; now rewrite lookup_insert_eq|].
  unfold remaining in Hsc2.
  destruct (eligible_minus_shown _ _ _ _ _) as [|a l] eqn:Hel; [congruence|].
  rewrite <- Hel in Hsc2. unfold eligible_minus_shown in Hsc2.
  apply filter_In in Hsc2 as [_ Hshown].
  rewrite shown_entries_recorded in Hshown.
  intros Heq. rewrite Heq in Hshown.
  unfold shown_recently in Hshown. rewrite existsb_app in Hshown.
  cbn [existsb fst snd] in Hshown.
  rewrite bool_decide_eq_true_2 in Hshown by reflexivity.
  destruct (Rle_dec _ _) as [_|Hn]; [|contradiction].
  cbn in Hshown. rewrite orb_true_r in Hshown. discriminate.
Qed.

End Selection.

(** *** The draw of the selector *)



(** *** Evaluating the selector on concrete candidates *)

Lemma sort_pair (x y : Scored) :
  score y <= score x -> sort_by_score [x; y] = [x; y].
Proof.
  intros H. unfold sort_by_score. cbn [fold_right insert_by_score].
  destruct (Rlt_dec (score x) (score y)); [lra | reflexivity].
Qed.

Lemma sample_index_first (s : R) (l : list R) (u : R) :
  0 < s -> u = 0 -> sample_index (s :: l) u = 0%nat.
Proof.
  intros Hs ->. unfold sample_index, sampling_weights. cbn [forallb].
  destruct (Req_dec_T s 0); [lra|]. cbn [andb pick_index].
  destruct l; [reflexivity|].
  destruct (Rlt_dec _ _) as [|Hn]; [reflexivity|]. exfalso. apply Hn. lra.
Qed.

Lemma sample_index_singleton (s u : R) : sample_index [s] u = 0%nat.
Proof.
  unfold sample_index, sampling_weights. now destruct (forallb _ _).
Qed.

(** A single candidate is what remains, whatever was shown. *)
Lemma remaining_single (cfg : Config) (store : ShownStore) (customer : string)
    (now : R) (sc : Scored) :
  (0 < top_k cfg)%nat -> remaining cfg store customer now [sc] = [sc].
Proof.
  intros Hk. unfold remaining, eligible_minus_shown, top_candidates.
  cbn [sort_by_score fold_right insert_by_score].
  destruct (top_k cfg) as [|k]; [lia|]. cbn [take List.filter].
  rewrite take_nil. cbn [List.filter]. now destruct (negb _).
Qed.

(** A catalog of one admissible product: the candidates that remain. *)
Lemma single_product_pool (cfg : Config) (store : ShownStore) (p : Product)
    (transactions : list Transaction) (events : list InteractionEvent)
    (draw : Product -> R) (customer : string) (now : R) :
  (0 < top_k cfg)%nat -> admissible cfg transactions customer now p = true ->
  let sc := {| candidate := p;
               breakdown := score_product cfg [p] transactions events draw
                              customer now p |} in
  constraint_filter cfg transactions customer now
    (score_all cfg [p] transactions events draw customer now) = [sc] /\
  remaining cfg store customer now [sc] = [sc].
Proof.
  intros Hk Hadm sc. split; [|now apply remaining_single].
  unfold constraint_filter, score_all. cbn [map List.filter candidate].
  now rewrite Hadm.
Qed.

(** Milk is admissible for a customer whose only purchase of it has a date
    that could not be parsed: the recent-purchase rule is skipped. *)
Lemma milk_admissible (now : R) :
  admissible example_config
    [ {| t_customer := "C001"; t_product := "P001"; t_date := None;
         t_quantity := Some 1%nat; t_category := "dairy" |} ]
    "C001" now milk = true.
Proof.
  unfold admissible, recently_purchased.
  cbn [example_config exclude_recent_purchases_days existsb t_date
       exclude_discounted exclude_out_of_stock milk is_discounted in_stock].
  now rewrite andb_false_r.
Qed.


(** Milk (score 0.6) and bread (score 0.4) for a customer with an empty
    ShownRecord: the first invocation selects milk and records it, the
    second, one hour later, selects bread. *)
Lemma successive_selections_differ_witness :
  let a := flat_scored milk (6 / 10) in
  let b := flat_scored bread (4 / 10) in
  let store1 := record_shown ∅ "C001" "P001" 0 in
  select example_config ∅ "C001" 0 0 [a; b] = (Some a, store1) /\
  select example_config store1 "C001" 1 0 [a; b]
    = (Some b, record_shown store1 "C001" "P002" 1) /\
  hours_between 0 1 <= shown_decay_hours example_config /\
  eligible_minus_shown example_config store1 "C001" 1 [a; b] = [b] /\
  store1 !! "C001" = Some [("P001", 0)] /\
  product_id (candidate b) <> product_id (candidate a).
Proof.
  intros a b store1.
  assert (Hwin : hours_between 0 1 <= shown_decay_hours example_config).
  { unfold hours_between; cbn; lra. }
  assert (Htop : top_candidates example_config [a; b] = [a; b]).
  { unfold top_candidates. rewrite sort_pair; [reflexivity|].
    unfold score; cbn; lra. }
  assert (Hel1 : eligible_minus_shown example_config ∅ "C001" 0 [a; b] = [a; b]).
  { unfold eligible_minus_shown. rewrite Htop.
    unfold shown_entries. rewrite lookup_empty. reflexivity. }
  assert (Hel2 : eligible_minus_shown example_config store1 "C001" 1 [a; b] = [b]).
  { unfold eligible_minus_shown. rewrite Htop.
    unfold store1. rewrite shown_entries_recorded.
    unfold shown_entries. rewrite lookup_empty.
    cbn [default from_option app List.filter shown_recently existsb fst snd
         a b flat_scored candidate milk bread product_id].
    destruct (Rle_dec _ _) as [_|Hn]; [reflexivity | contradiction]. }
  assert (H1 : select example_config ∅ "C001" 0 0 [a; b] = (Some a, store1)).
  { unfold select, remaining. rewrite Hel1. cbn [map].
    rewrite sample_index_first; [reflexivity | unfold score; cbn; lra | reflexivity]. }
  assert (H2 : select example_config store1 "C001" 1 0 [a; b]
               = (Some b, record_shown store1 "C001" "P002" 1)).
  { unfold select, remaining. rewrite Hel2. cbn [map].
    rewrite sample_index_first; [reflexivity | unfold score; cbn; lra | reflexivity]. }
  assert (Hne : eligible_minus_shown example_config store1 "C001" 1 [a; b] <> [])
    by (rewrite Hel2; discriminate).
  destruct (successive_selections_differ example_config ∅ store1 _ "C001"
              [a; b] 0 1 0 0 a b H1 H2 Hwin Hne) as [Hrec Hdiff].
  split; [exact H1|]. split; [exact H2|]. split; [exact Hwin|].
  split; [exact Hel2|]. split; [|exact Hdiff].
  rewrite Hrec. unfold shown_entries. now rewrite lookup_empty.
Defined.

End SelectorProps.

(** ** Recommendation core: orchestrator *)

Module OrchestratorProps.
Import Reco.
Import ScoringProps.
Import SelectorProps.
Local Open Scope R_scope.

(** C1. Every invocation of the recommendation entry point, whatever rows
    of the tables carry a data error and whether or not the ShownRecord
    store could be read, yields either the explicit absence (and leaves the
    shown history as it is) or a complete Recommendation for a catalog
    product: its score breakdown is the one computed for that product, it
    holds a score under each of the five component names and under no
    other name, and a component whose signal is empty has the value 0:
    category affinity when no purchase of the customer has both a date and
    a quantity, repurchase likelihood when the customer has fewer dated
    purchases of the product than the configured minimum (none at all
    included), clickstream intent when no event of the customer with a
    timestamp references a catalog product, popularity when nobody bought
    the product. *)
Theorem recommendation_complete (cfg : Config) (stored : option ShownStore)
    (catalog : list Product) (transactions : list Transaction)
    (events : list InteractionEvent) (draw : Product -> R) (u : R)
    (customer : string) (now : R) :
  let result :=
    recommend_product cfg stored catalog transactions events draw u customer now in
  result = (None, default ∅ stored) \/
  exists r store' p,
    result = (Some r, store') /\
    In p catalog /\
    r_customer r = customer /\ r_product_id r = product_id p /\
    r_product_name r = product_name p /\
    r_product_category r = product_category p /\ r_timestamp r = now /\
    r_scores r = score_product cfg catalog transactions events draw customer now p /\
    (forall c, is_Some (components (r_scores r) !! component_name c)) /\
    (forall k, is_Some (components (r_scores r) !! k) ->
               exists c, k = component_name c) /\
    ((forall t, In t (history transactions customer) ->
        t_date t = None \/ t_quantity t = None) ->
       component_value (r_scores r) CategoryAffinity = 0) /\
    ((length (omap t_date (filter (fun t => t_product t = product_id p)
                             (history transactions customer)))
      < Nat.max 1 (min_purchases cfg))%nat ->
       component_value (r_scores r) RepurchaseLikelihood = 0) /\
    ((forall e q, In e events -> In q catalog ->
        e_customer e = customer -> e_product e = Some (product_id q) ->
        e_time e = None) ->
       component_value (r_scores r) ClickstreamIntent = 0) /\
    (filter (fun t => t_product t = product_id p) transactions = [] ->
       component_value (r_scores r) ProductPopularity = 0).
Proof.
  intros result. subst result. unfold recommend_product.
  set (store := default ∅ stored).
  set (scored := score_all cfg catalog transactions events draw customer now).
  set (filtered := constraint_filter cfg transactions customer now scored).
  destruct (select_total cfg store customer now u filtered)
    as [[_ Hnone]|(sc & Hsc & Hsome)].
  - left. now rewrite Hnone.
  - right. rewrite Hsome.
    apply filter_In in Hsc as [Hsc _].
    apply score_all_member in Hsc as [Hp Hbd].
    eexists _, _, (candidate sc). split; [reflexivity|].
    cbn [r_customer r_product_id r_product_name r_product_category
         r_timestamp r_scores].
    rewrite Hbd.
    repeat (split; [first [exact Hp | reflexivity]|]).
    split; [intros c; rewrite score_product_lookup; eexists; reflexivity|].
    split; [intros k; apply score_product_names|].
    rewrite !component_value_score. cbn [component_score].
    split; [apply category_affinity_empty|].
    split; [apply repurchase_likelihood_empty|].
    split; [apply clickstream_intent_empty | apply product_popularity_empty].
Qed.

(** A catalog of one product, a ShownRecord store that could not be read,
    and a customer whose only purchase row has a date that could not be
    parsed and whose only event has no timestamp: the product is
    recommended with a complete breakdown, in which category affinity,
    repurchase likelihood and clickstream intent are 0. *)
Lemma recommendation_complete_witness :
  let txs := [ {| t_customer := "C001"; t_product := "P001"; t_date := None;
                  t_quantity := Some 1%nat; t_category := "dairy" |} ] in
  let evs := [ {| e_customer := "C001"; e_time := None; e_type := view;
                  e_product := Some "P001" |} ] in
  let result :=
    recommend_product example_config None [milk] txs evs (fun _ => 1 / 2) 0
      "C001" 720 in
  exists r store',
    result = (Some r, store') /\
    r_product_id r = "P001" /\ r_rank r = 1%nat /\ r_total_candidates r = 1%nat /\
    (forall c, is_Some (components (r_scores r) !! component_name c)) /\
    component_value (r_scores r) CategoryAffinity = 0 /\
    component_value (r_scores r) RepurchaseLikelihood = 0 /\
    component_value (r_scores r) ClickstreamIntent = 0 /\
    component_value (r_scores r) Exploration = 1 / 2.
Proof.
  intros txs evs result.
  set (sc := {| candidate := milk;
                breakdown := score_product example_config [milk] txs evs
                               (fun _ => 1 / 2) "C001" 720 milk |}).
  assert (Heval : result
            = (Some {| r_customer := "C001"; r_product_id := "P001";
                       r_product_name := "Organic Milk 1L";
                       r_product_category := "dairy";
                       r_scores := breakdown sc; r_rank := 1;
                       r_total_candidates := 1; r_timestamp := 720 |},
               record_shown ∅ "C001" "P001" 720)).
  { unfold result, recommend_product.
    destruct (single_product_pool example_config ∅ milk txs evs (fun _ => 1 / 2)
                "C001" 720 ltac:(cbn; lia) (milk_admissible 720))
      as [Hfiltered Hpool].
    fold sc in Hfiltered, Hpool. cbn [default from_option].
    rewrite Hfiltered. unfold select. rewrite Hpool. cbn [map].
    rewrite sample_index_singleton. cbn [lookup list_lookup].
    cbn [candidate sc milk product_id product_name product_category
         position length sort_by_score fold_right insert_by_score].
    rewrite bool_decide_eq_true_2 by reflexivity. reflexivity. }
  destruct (recommendation_complete example_config None [milk] txs evs
              (fun _ => 1 / 2) 0 "C001" 720)
    as [Hnone|(r & store' & p & Hres & Hp & _ & Hid & _ & _ & _ & Hsc & Hall & _
               & Haff & Hrep & Hint & _)].
  - fold result in Hnone. rewrite Heval in Hnone. discriminate.
  - fold result in Hres. exists r, store'. split; [exact Hres|].
    destruct Hp as [<-|[]].
    rewrite Heval in Hres. injection Hres as Hr _.
    split; [now rewrite <- Hr|]. split; [now rewrite <- Hr|].
    split; [now rewrite <- Hr|].
    split; [exact Hall|].
    split; [apply Haff; intros t [<-|[]]; now left|].
    split; [apply Hrep; vm_compute; lia|].
    split.
    { apply Hint. intros e q [<-|[]] _ _ _. reflexivity. }
    rewrite Hsc. now rewrite component_value_score.
Defined.

End OrchestratorProps.

(** ** The basket as the pages drive it *)

Module BasketViewProps.
Import Js Basket BasketView.

Lemma num_add_comm a b : num_add a b = num_add b a.
Proof. destruct a, b; cbn; try reflexivity. f_equal. lia. Qed.

Lemma num_add_assoc a b c : num_add (num_add a b) c = num_add a (num_add b c).
Proof. destruct a, b, c; cbn; try reflexivity. f_equal. lia. Qed.

Lemma count_swap (z1 z2 : Item) (y : num) :
  num_add (num_add y (quantity z2)) (quantity z1)
  = num_add (num_add y (quantity z1)) (quantity z2).
Proof.
  rewrite !num_add_assoc. f_equal. apply num_add_comm.
Qed.

Lemma totalItems_insert (m : gmap string Item) k it :
  m !! k = None ->
  totalItems {| items := <[k := it]> m |}
  = num_add (totalItems {| items := m |}) (quantity it).
Proof.
  intros Hk. unfold totalItems. cbn [items].
  rewrite map_fold_insert_L; [reflexivity| |exact Hk].
  intros. apply count_swap.
Qed.

Lemma totalItems_delete (m : gmap string Item) k it :
  m !! k = Some it ->
  totalItems {| items := m |}
  = num_add (totalItems {| items := delete k m |}) (quantity it).
Proof.
  intros Hk. unfold totalItems. cbn [items].
  rewrite (map_fold_delete_L _ _ k it m); [reflexivity| |exact Hk].
  intros. apply count_swap.
Qed.

(** Replacing a line changes the count by the difference of the two
    quantities. *)
Lemma totalItems_replace (m : gmap string Item) k it it' :
  m !! k = Some it ->
  totalItems {| items := <[k := it']> m |}
  = num_add (totalItems {| items := delete k m |}) (quantity it').
Proof.
  intros Hk. rewrite <- (insert_delete_eq m k it').
  apply totalItems_insert, lookup_delete_eq.
Qed.

Lemma get_absent {A} (m : gmap string A) k :
  m !! k = None -> inherited k = false -> get m k = Undefined.
Proof. intros H1 H2. unfold get. now rewrite H1, H2. Qed.

Lemma get_present {A} (m : gmap string A) k v :
  m !! k = Some v -> get m k = Own v.
Proof. intros H. unfold get. now rewrite H. Qed.

Lemma well_kept_initial : well_kept initialState.
Proof. intros k it H. cbn in H. now rewrite lookup_empty in H. Qed.

Lemma well_kept_step (s : State) (a : Ui) :
  well_kept s ->
  Forall (fun k => inherited k = false) (ui_ids [a]) ->
  well_kept (ui_step s a).
Proof.
  intros Hs Hids. destruct a as [p | pid qty | ]; cbn in Hids.
  - apply Forall_cons_1 in Hids as [Hp _].
    intros k it. cbn.
    destruct (decide (k = Catalog.id p)) as [-> | Hne].
    + rewrite lookup_insert_eq. intros [= <-]. cbn.
      destruct (items s !! Catalog.id p) as [cur|] eqn:Hcur.
      * rewrite (get_present _ _ _ Hcur).
        destruct (Hs _ _ Hcur) as (p0 & n & _ & _ & Hq & Hn).
        rewrite Hq. cbn. exists p, (n + 1). repeat split; try reflexivity; lia.
      * rewrite (get_absent _ _ Hcur Hp). cbn.
        exists p, 1. repeat split; try reflexivity; lia.
    + rewrite lookup_insert_ne by congruence. apply Hs.
  - apply Forall_cons_1 in Hids as [Hp _].
    intros k it. unfold ui_step, handleQuantity. cbn.
    destruct (Z.max 0 qty <=? 0) eqn:Hle; cbn.
    + destruct (decide (k = pid)) as [-> | Hne].
      * now rewrite lookup_delete_eq.
      * rewrite lookup_delete_ne by congruence. apply Hs.
    + destruct (items s !! pid) as [cur|] eqn:Hcur.
      * rewrite (get_present _ _ _ Hcur). cbn.
        destruct (decide (k = pid)) as [-> | Hne].
        -- rewrite lookup_insert_eq. intros [= <-]. cbn.
           destruct (Hs _ _ Hcur) as (p0 & n & Hp0 & Hid & _ & _).
           exists p0, (Z.max 0 qty). repeat split; try assumption; lia.
        -- rewrite lookup_insert_ne by congruence. apply Hs.
      * rewrite (get_absent _ _ Hcur Hp). apply Hs.
  - apply well_kept_initial.
Qed.

Lemma well_kept_fold (trace : list Ui) (s : State) :
  well_kept s ->
  Forall (fun k => inherited k = false) (ui_ids trace) ->
  well_kept (fold_left ui_step trace s).
Proof.
  revert s. induction trace as [|a trace IH]; intros s Hs Hids; [exact Hs|].
  cbn [fold_left]. unfold ui_ids in Hids. cbn [flat_map] in Hids.
  apply Forall_app in Hids as [Ha Ht].
  apply IH; [|exact Ht].
  apply well_kept_step; [exact Hs|]. unfold ui_ids. cbn [flat_map].
  now rewrite app_nil_r.
Qed.

(** The count of a well-kept basket is a whole number, at least the number
    of lines. *)
Lemma well_kept_count (m : gmap string Item) :
  well_kept {| items := m |} ->
  exists t, totalItems {| items := m |} = Num t /\ Z.of_nat (size m) <= t.
Proof.
  induction m as [|k it m Hk IH] using map_ind; intros Hs.
  - exists 0. split; [reflexivity|]. now rewrite map_size_empty.
  - destruct IH as (t & Ht & Hsize).
    { intros k' it' H'. apply (Hs k' it'). cbn in *.
      rewrite lookup_insert_ne; [exact H'|]. intros ->. congruence. }
    destruct (Hs k it) as (p & n & _ & _ & Hq & Hn).
    { cbn. apply lookup_insert_eq. }
    exists (t + n). rewrite (totalItems_insert _ _ _ Hk), Ht, Hq. cbn.
    split; [reflexivity|]. rewrite (map_size_insert_None _ _ _ Hk). lia.
Qed.

(** X1. Adding a product whose id is not the name of an inherited object
    member files the line under the product's id with the product just
    added: with the quantity given when the basket had no such line, and,
    when it had, with the old quantity raised by the given one, provided
    the two quantities and their sum are whole numbers of at most 2^53 in
    absolute value, where the addition of doubles is exact.  The line of
    every other product is unchanged. *)
Theorem add_effect (state : State) (p : Product) (q : Z) :
  inherited (Catalog.id p) = false ->
  let state' := reducer state (add p (Num q)) in
  (items state !! Catalog.id p = None ->
     items state' !! Catalog.id p
       = Some {| product := Some p; quantity := Num q |}) /\
  (forall cur n, items state !! Catalog.id p = Some cur ->
     quantity cur = Num n ->
     safe n -> safe q -> safe (n + q) ->
     items state' !! Catalog.id p
       = Some {| product := Some p; quantity := Num (n + q) |}) /\
  (forall other, other <> Catalog.id p ->
     items state' !! other = items state !! other).
Proof.
  intros Hp state'. subst state'. repeat split.
  - intros Hnone. cbn. rewrite (get_absent _ _ Hnone Hp). cbn.
    apply lookup_insert_eq.
  - intros cur n Hcur Hq _ _ _. cbn. rewrite (get_present _ _ _ Hcur), Hq. cbn.
    apply lookup_insert_eq.
  - intros other Hne. cbn. apply lookup_insert_ne. congruence.
Qed.

(** On a basket that has a bread line, adding milk opens a line of one
    and adding bread again raises its line to two. *)
Lemma add_effect_witness :
  let item := fun sku =>
    {| Catalog.id := sku; Catalog.name := Some sku;
       Catalog.description := None; Catalog.brand := None;
       Catalog.category := Some "fresh"; Catalog.subCategory := None;
       Catalog.price := Catalog.Finite 1; Catalog.image := EmptyString;
       Catalog.stock := Num 5 |} in
  let s := reducer initialState (add (item "bread") (Num 1)) in
  items (reducer s (add (item "milk") (Num 1))) !! "milk"
    = Some {| product := Some (item "milk"); quantity := Num 1 |} /\
  items (reducer s (add (item "bread") (Num 1))) !! "bread"
    = Some {| product := Some (item "bread"); quantity := Num 2 |}.
Proof.
  intros item s. split.
  - apply (add_effect s (item "milk") 1); reflexivity.
  - apply (proj1 (proj2 (add_effect s (item "bread") 1 eq_refl))
             {| product := Some (item "bread"); quantity := Num 1 |} 1);
      try reflexivity; unfold safe; lia.
Defined.

(** X2. Whatever the visitor does on the pages (adding a product, stepping
    a line of the basket page to any quantity, clearing the basket), as
    long as no product id is the name of an inherited object member, every
    line of the basket holds the product it is filed under with a quantity
    of at least one, and the item count shown is a whole number that is at
    least the number of lines. *)
Theorem basket_lines_well_kept (trace : list Ui) :
  Forall (fun k => inherited k = false) (ui_ids trace) ->
  well_kept (ui_run trace) /\
  exists t, totalItems (ui_run trace) = Num t /\
            Z.of_nat (size (items (ui_run trace))) <= t.
Proof.
  intros Hids.
  assert (Hk : well_kept (ui_run trace))
    by (apply well_kept_fold; [apply well_kept_initial | exact Hids]).
  split; [exact Hk|].
  destruct (ui_run trace) as [m]. now apply well_kept_count.
Qed.

Lemma basket_lines_well_kept_witness :
  let item := fun sku =>
    {| Catalog.id := sku; Catalog.name := Some sku;
       Catalog.description := None; Catalog.brand := None;
       Catalog.category := Some "fresh"; Catalog.subCategory := None;
       Catalog.price := Catalog.Finite 1; Catalog.image := EmptyString;
       Catalog.stock := Num 5 |} in
  let trace := [AddToBasket (item "milk"); AddToBasket (item "bread");
                StepQuantity "bread" 4; StepQuantity "milk" 0] in
  well_kept (ui_run trace) /\
  exists t, totalItems (ui_run trace) = Num t /\
            Z.of_nat (size (items (ui_run trace))) <= t.
Proof.
  intros item trace. apply (basket_lines_well_kept trace).
  repeat constructor.
Defined.

(** X3. The item count follows the pages step by step.  Take a basket in
    which every line holds the product it is filed under with a quantity of
    at least one, and whose count is the whole number t <= 2^53.  Adding a
    product (with an id that is not the name of an inherited object member)
    gives t + 1, and stepping an existing line from n to m gives
    t - n + max(0, m), in both cases as long as the new count is at most
    2^53, so that every sum of quantities is exact in doubles whatever the
    order of the lines; clearing the basket gives 0. *)
Theorem count_follows_steps (s : State) (t : Z) :
  well_kept s ->
  totalItems s = Num t -> t <= 2 ^ 53 ->
  (forall p, inherited (Catalog.id p) = false ->
     t + 1 <= 2 ^ 53 ->
     totalItems (ui_step s (AddToBasket p)) = Num (t + 1)) /\
  (forall pid it n m, items s !! pid = Some it -> quantity it = Num n ->
     t - n + Z.max 0 m <= 2 ^ 53 ->
     totalItems (ui_step s (StepQuantity pid m)) = Num (t - n + Z.max 0 m)) /\
  totalItems (ui_step s ClearBasket) = Num 0.
Proof.
  destruct s as [m]. intros _ Ht _. repeat split.
  - intros p Hp _. cbn.
    destruct (m !! Catalog.id p) as [cur|] eqn:Hcur.
    + rewrite (get_present _ _ _ Hcur).
      rewrite (totalItems_replace _ _ _ _ Hcur). cbn [quantity].
      rewrite (totalItems_delete _ _ _ Hcur) in Ht.
      destruct (totalItems {| items := delete (Catalog.id p) m |}) as [|d];
        [discriminate|].
      destruct (quantity cur) as [|n]; [discriminate|].
      cbn in *. injection Ht as Ht. f_equal. lia.
    + rewrite (get_absent _ _ Hcur Hp).
      rewrite (totalItems_insert _ _ _ Hcur), Ht. reflexivity.
  - intros pid it n q Hit Hq _. unfold ui_step, handleQuantity. cbn.
    cbn [items] in Hit.
    rewrite (totalItems_delete _ _ _ Hit), Hq in Ht.
    destruct (totalItems {| items := delete pid m |}) as [|d] eqn:Hd;
      [discriminate|].
    cbn in Ht. injection Ht as Ht.
    destruct (Z.max 0 q <=? 0) eqn:Hle; cbn.
    + rewrite Hd. f_equal. lia.
    + rewrite (get_present _ _ _ Hit). cbn [items].
      rewrite (totalItems_replace _ _ _ _ Hit), Hd. cbn. f_equal. lia.
Qed.

(** A basket of one milk and two bread counts 3; adding eggs gives 4,
    stepping the bread line from 2 to 1 gives 2, and clearing gives 0. *)
Lemma count_follows_steps_witness :
  let item := fun sku =>
    {| Catalog.id := sku; Catalog.name := Some sku;
       Catalog.description := None; Catalog.brand := None;
       Catalog.category := Some "fresh"; Catalog.subCategory := None;
       Catalog.price := Catalog.Finite 1; Catalog.image := EmptyString;
       Catalog.stock := Num 5 |} in
  let s := ui_run [AddToBasket (item "milk"); AddToBasket (item "bread");
                   AddToBasket (item "bread")] in
  well_kept s /\
  totalItems s = Num 3 /\
  totalItems (ui_step s (AddToBasket (item "eggs"))) = Num 4 /\
  totalItems (ui_step s (StepQuantity "bread" 1)) = Num 2 /\
  totalItems (ui_step s ClearBasket) = Num 0.
Proof.
  intros item s.
  assert (Hk : well_kept s).
  { apply well_kept_fold; [apply well_kept_initial | repeat constructor]. }
  assert (Ht : totalItems s = Num 3) by (vm_compute; reflexivity).
  destruct (count_follows_steps s 3 Hk Ht ltac:(lia)) as (Hadd & Hstep & Hclear).
  split; [exact Hk|].
  split; [exact Ht|].
  split; [apply (Hadd (item "eggs")); [reflexivity | lia]|].
  split; [|exact Hclear].
  apply (Hstep "bread" {| product := Some (item "bread"); quantity := Num 2 |} 2 1);
    [vm_compute; reflexivity | vm_compute; reflexivity | lia].
Defined.

End BasketViewProps.

(** ** Sign-in against the generated customer tables *)

Module LoginProps.
Import Js Interaction CustomerMap LoginFlow.

Lemma full_pool_truthy :
  Forall (fun c => JsString.truthy (id c) = true /\
                   JsString.truthy (username c) = true)
         (map customer_at (seq 0 100)).
Proof.
  apply Forall_forall. intros c Hc.
  assert (H : forallb (fun c => JsString.truthy (id c)
                                && JsString.truthy (username c))
                (map customer_at (seq 0 100)) = true) by (vm_compute; reflexivity).
  rewrite forallb_forall in H. apply list_elem_of_In in Hc. specialize (H c Hc).
  now apply andb_true_iff in H.
Qed.

Lemma guest_not_pooled :
  ~ In "guest" (map username (map customer_at (seq 0 100))).
Proof.
  rewrite <- list_elem_of_In. apply (bool_decide_unpack _). vm_compute. exact I.
Qed.

Lemma In_prefix {A} (x : A) n (l : list A) : In x (take n l) -> In x l.
Proof.
  revert n. induction l as [|y l IH]; intros [|n]; cbn; try tauto.
  intros [H|H]; [now left | right; eauto].
Qed.

Lemma customer_in_pool (ids : list string) x :
  (length ids <= 100)%nat -> In x (customers ids) ->
  In x (map customer_at (seq 0 100)).
Proof.
  intros Hlen Hx. rewrite (CustomerMapProps.customers_prefix ids Hlen) in Hx.
  now apply In_prefix in Hx.
Qed.

Lemma customer_truthy (ids : list string) x :
  (length ids <= 100)%nat -> In x (customers ids) ->
  JsString.truthy (id x) = true /\ JsString.truthy (username x) = true.
Proof.
  intros Hlen Hx. pose proof full_pool_truthy as H.
  rewrite Forall_forall in H. apply H, list_elem_of_In.
  now apply (customer_in_pool ids).
Qed.

(** X4. Every customer the generator writes can sign in: for at most 100
    customer ids, the profile stub accepts the username of each generated
    customer and serves a profile that carries this customer's id and
    username, the address username@example.com and two earlier
    interactions. *)
Theorem generated_customer_signs_in (ids : list string) (x : Customer)
    (now1 now2 : Z) :
  (length ids <= 100)%nat -> In x (customers ids) ->
  let cs := customers ids in
  exists profile,
    fetchUserProfile (usernameToCustomerId cs) (customerIdToUsername cs)
                     (username x) now1 now2 = Some profile /\
    email profile = (username x ++ "@example.com")%string /\
    name profile = username x /\
    customerId profile = Str (id x) /\
    profile_username profile = Str (username x) /\
    length (previousInteractions profile) = 2%nat.
Proof.
  intros Hlen Hx cs.
  destruct (CustomerMapProps.customers_distinct ids Hlen) as [Hid Hname].
  destruct (customer_truthy ids x Hlen Hx) as [Tid Tname].
  assert (Hu : usernameToCustomerId cs !! username x = Some (id x))
    by (apply CustomerMapProps.table_u2c; [exact Hname | now exists x]).
  assert (Hc : customerIdToUsername cs !! id x = Some (username x))
    by (apply CustomerMapProps.table_c2u; [exact Hid | now exists x]).
  unfold fetchUserProfile. rewrite Tname, (BasketViewProps.get_present _ _ _ Hu), Tid.
  rewrite (BasketViewProps.get_present _ _ _ Hc), Tname.
  eexists. split; [reflexivity|]. cbn. repeat split.
Qed.

Lemma generated_customer_signs_in_witness :
  let ids := ["12"; "7"; "30"] in
  let cs := customers ids in
  exists profile,
    fetchUserProfile (usernameToCustomerId cs) (customerIdToUsername cs)
                     "citrus-sparrow-02" 1700000000000 1700000000000
      = Some profile /\
    email profile = "citrus-sparrow-02@example.com" /\
    name profile = "citrus-sparrow-02" /\
    customerId profile = Str "C002" /\
    profile_username profile = Str "citrus-sparrow-02" /\
    length (previousInteractions profile) = 2%nat.
Proof.
  intros ids cs.
  apply (generated_customer_signs_in ids
           {| id := "C002"; username := "citrus-sparrow-02" |}
           1700000000000 1700000000000).
  - vm_compute. lia.
  - right. left. reflexivity.
Defined.

(** X5. Against the tables generated for at most 100 customer ids, the
    profile stub rejects an identifier exactly when the name it looks up
    (the identifier, or guest for the empty one) is neither the username of
    a generated customer nor the name of an inherited object member.  So
    the empty identifier is always rejected, while an identifier such as
    constructor is accepted although no customer bears it, with the
    inherited member in place of a customer id. *)
Theorem sign_in_rejection (ids : list string) (identifier : string)
    (now1 now2 : Z) :
  (length ids <= 100)%nat ->
  let cs := customers ids in
  let fetch := fetchUserProfile (usernameToCustomerId cs)
                                (customerIdToUsername cs) in
  (fetch identifier now1 now2 = None <->
     (forall x, In x cs -> username x <> looked_up identifier) /\
     inherited (looked_up identifier) = false) /\
  fetch EmptyString now1 now2 = None /\
  (exists profile, fetch "constructor" now1 now2 = Some profile /\
     customerId profile = PrototypeMember "constructor").
Proof.
  intros Hlen cs fetch.
  destruct (CustomerMapProps.customers_distinct ids Hlen) as [Hid Hname].
  assert (Hcrit : forall ident,
    fetch ident now1 now2 = None <->
    (forall x, In x cs -> username x <> looked_up ident) /\
    inherited (looked_up ident) = false).
  { intros ident. subst fetch. unfold fetchUserProfile.
    fold (looked_up ident). unfold get at 1.
    destruct (usernameToCustomerId cs !! looked_up ident) as [cid|] eqn:Hu.
    - apply (CustomerMapProps.table_u2c cs _ _ Hname) in Hu
        as (x & Hx & Hux & Hix).
      destruct (customer_truthy ids x Hlen Hx) as [Tid _].
      rewrite <- Hix, Tid. split; [discriminate|].
      intros [Hno _]. now destruct (Hno x Hx).
    - destruct (inherited (looked_up ident)) eqn:Hinh.
      + split; [discriminate | intros [_ H]; discriminate].
      + split; [|reflexivity]. intros _. split; [|reflexivity].
        intros x Hx Hux.
        assert (usernameToCustomerId cs !! looked_up ident = Some (id x))
          by (apply CustomerMapProps.table_u2c; [exact Hname | now exists x]).
        congruence. }
  split; [apply Hcrit|]. split.
  - apply Hcrit. split; [|reflexivity].
    intros x Hx Hux. apply guest_not_pooled.
    change (looked_up EmptyString) with "guest" in Hux. rewrite <- Hux.
    apply in_map. now apply (customer_in_pool ids).
  - destruct (fetch "constructor" now1 now2) as [profile|] eqn:Hf.
    + exists profile. split; [reflexivity|].
      subst fetch. unfold fetchUserProfile in Hf. cbn [JsString.truthy] in Hf.
      unfold get at 1 in Hf.
      destruct (usernameToCustomerId cs !! "constructor") as [cid|] eqn:Hu.
      * apply (CustomerMapProps.table_u2c cs _ _ Hname) in Hu
          as (x & Hx & Hux & Hix).
        exfalso. revert Hux.
        assert (Hno : ~ In "constructor"
                        (map username (map customer_at (seq 0 100)))).
        { rewrite <- list_elem_of_In. apply (bool_decide_unpack _).
          vm_compute. exact I. }
        intros Hux. apply Hno. rewrite <- Hux. apply in_map.
        now apply (customer_in_pool ids).
      * cbn in Hf. injection Hf as <-. reflexivity.
    + exfalso. apply Hcrit in Hf as [_ Hf]. discriminate.
Qed.

Lemma sign_in_rejection_witness :
  let cs := customers ["12"; "7"; "30"] in
  let fetch := fetchUserProfile (usernameToCustomerId cs)
                                (customerIdToUsername cs) in
  fetch "kazeem" 1700000000000 1700000000000 = None /\
  fetch EmptyString 1700000000000 1700000000000 = None.
Proof.
  intros cs fetch.
  assert (Hlen : (length ["12"; "7"; "30"] <= 100)%nat) by (vm_compute; lia).
  destruct (sign_in_rejection ["12"; "7"; "30"] "kazeem"
              1700000000000 1700000000000 Hlen) as (Hcrit & Hguest & _).
  split; [|exact Hguest]. apply Hcrit. split; [|reflexivity].
  intros x [<-|[<-|[<-|[]]]]; discriminate.
Defined.

(** X6. Submitting the login form: a rejected sign-in shows the stub's
    message and leaves the provider as it was, with nothing recorded or
    sent.  An accepted one installs the served profile and records exactly
    one login event on top of the two earlier interactions of the profile;
    that event names the submitted username but is attributed to whoever
    was signed in when the form was shown, which is anonymous for a fresh
    visitor. *)
Theorem login_form_submit (u2c c2u : gmap string string) (uname : string)
    (now1 now2 now3 : Z) (s : Provider) :
  let out := LoginFlow.handleSubmit u2c c2u uname now1 now2 now3 s in
  (fetchUserProfile u2c c2u uname now1 now2 = None ->
     out = (s, Some "User not found")) /\
  (forall profile, fetchUserProfile u2c c2u uname now1 now2 = Some profile ->
     let ev := payload (st_user s) (login_submit uname) now3 in
     snd out = None /\
     st_user (fst out) = Some profile /\
     interactions (fst out) = ev :: previousInteractions profile /\
     length (interactions (fst out)) = 3%nat /\
     lastInteraction (fst out) = Some ev /\
     sent (fst out) = (sent s ++ [ev])%list /\
     type ev = Some "login" /\
     Interaction.username ev = Some uname /\
     (st_user s = None -> user ev = Some "anonymous") /\
     (forall before, st_user s = Some before -> user ev = Some (email before))).
Proof.
  intros out. subst out. unfold LoginFlow.handleSubmit. split.
  - intros ->. reflexivity.
  - intros profile Hp. set (ev := payload (st_user s) (login_submit uname) now3).
    unfold login. rewrite Hp. cbn [fst snd].
    assert (Hprev : exists a b, previousInteractions profile = [a; b]).
    { unfold fetchUserProfile in Hp.
      destruct (match get u2c _ with Own _ => _ | _ => _ end);
        [|discriminate].
      injection Hp as <-. cbn. eauto. }
    destruct Hprev as (a & b & Hprev).
    unfold trackInteraction, lastInteraction.
    cbn [st_user interactions sent]. fold ev. rewrite Hprev. cbn [take head length].
    repeat split.
    + intros Hs. subst ev. cbn. now rewrite Hs.
    + intros before Hs. subst ev. cbn. now rewrite Hs.
Qed.

(** A fresh visitor: kazeem, the name the form is prefilled with, is not a
    generated customer and is turned away; citrus-sparrow-02 is let in and
    the login event is attributed to anonymous. *)
Lemma login_form_submit_witness :
  let cs := customers ["12"; "7"; "30"] in
  let submit := fun uname =>
    LoginFlow.handleSubmit (usernameToCustomerId cs) (customerIdToUsername cs)
      uname 1700000000000 1700000000000 1700000000500 initial in
  submit "kazeem" = (initial, Some "User not found") /\
  (exists ev, lastInteraction (fst (submit "citrus-sparrow-02")) = Some ev /\
              type ev = Some "login" /\ user ev = Some "anonymous").
Proof.
  intros cs submit. split.
  - apply (login_form_submit (usernameToCustomerId cs) (customerIdToUsername cs)
             "kazeem" 1700000000000 1700000000000 1700000000500 initial).
    vm_compute. reflexivity.
  - destruct (fetchUserProfile (usernameToCustomerId cs) (customerIdToUsername cs)
                "citrus-sparrow-02" 1700000000000 1700000000000)
      as [profile|] eqn:Hp; [|vm_compute in Hp; discriminate].
    destruct (proj2 (login_form_submit (usernameToCustomerId cs)
                       (customerIdToUsername cs) "citrus-sparrow-02"
                       1700000000000 1700000000000 1700000000500 initial)
                    profile Hp)
      as (_ & _ & _ & _ & Hlast & _ & Hty & _ & Hanon & _).
    eexists. split; [exact Hlast|]. split; [exact Hty|].
    apply Hanon. reflexivity.
Defined.

End LoginProps.

(** ** Catalogue search, paging and ad copy *)

Module ShopProps.
Import JsString Shop.

(** *** Paging *)

Lemma pagedItems_page {A} (items : list A) (p : nat) :
  (1 <= p)%nat -> pagedItems items p = take 12 (drop ((p - 1) * 12) items).
Proof.
  intros Hp. unfold pagedItems, pageSize. f_equal. lia.
Qed.

(** Consecutive slices of twelve put the list back together. *)
Lemma slices_concat {A} (n : nat) :
  forall items : list A, (length items <= n * 12)%nat ->
  concat (map (fun p => take 12 (drop ((p - 1) * 12) items)) (seq 1 n)) = items.
Proof.
  induction n as [|n IH]; intros items Hlen.
  - destruct items; [reflexivity | cbn in Hlen; lia].
  - cbn [seq map concat]. rewrite <- seq_shift, map_map.
    transitivity (take 12 items ++ drop 12 items)%list; [|apply take_drop].
    f_equal.
    etransitivity; [|apply (IH (drop 12 items)); rewrite length_drop; lia].
    f_equal. apply map_ext_in. intros p Hp. apply in_seq in Hp.
    rewrite drop_drop. do 2 f_equal. lia.
Qed.

Lemma totalPages_bounds {A} (items : list A) :
  (1 <= totalPages items /\
   length items <= totalPages items * 12 /\
   (items <> [] -> (totalPages items - 1) * 12 < length items))%nat.
Proof.
  unfold totalPages, pageSize.
  pose proof (Nat.div_mod_eq (length items + (12 - 1)) 12) as Hdiv.
  pose proof (Nat.mod_upper_bound (length items + (12 - 1)) 12 ltac:(lia)) as Hmod.
  set (q := ((length items + (12 - 1)) / 12)%nat) in *.
  set (r := ((length items + (12 - 1)) mod 12)%nat) in *.
  split; [lia|]. split; [lia|]. intros Hne.
  assert (0 < length items)%nat by (destruct items; [congruence | cbn; lia]).
  lia.
Qed.

(** X7. The product list is cut into pages that partition it: there is at
    least one page, the pages 1 .. totalPages put together give back the
    items in order, a page holds at most twelve items, every page before
    the last holds exactly twelve, no page of a non-empty list is empty,
    and the previous and next buttons keep the page number between 1 and
    totalPages. *)
Theorem pages_partition_items {A} (items : list A) :
  let n := totalPages items in
  (1 <= n)%nat /\
  concat (map (pagedItems items) (seq 1 n)) = items /\
  (forall p, (1 <= p <= n)%nat ->
     (length (pagedItems items p) <= 12)%nat /\
     ((p < n)%nat -> length (pagedItems items p) = 12%nat) /\
     (items <> [] -> pagedItems items p <> []) /\
     (1 <= nextPage items p <= n)%nat /\
     (1 <= prevPage p <= n)%nat).
Proof.
  intros n. destruct (totalPages_bounds items) as (H1 & Hup & Hlow). fold n in H1, Hup, Hlow.
  split; [exact H1|]. split.
  - rewrite <- (slices_concat n items Hup) at 2. f_equal.
    apply map_ext_in. intros p Hp. apply in_seq in Hp.
    apply pagedItems_page. lia.
  - intros p Hp. rewrite (pagedItems_page items p) by lia.
    rewrite length_take, length_drop. repeat split; try lia.
    + intros Hlt.
      assert (Hne : items <> []) by (intros ->; cbn in n; lia).
      specialize (Hlow Hne). lia.
    + intros Hne Hnil. specialize (Hlow Hne).
      apply (f_equal length) in Hnil.
      rewrite length_take, length_drop in Hnil. cbn [length] in Hnil. lia.
    + unfold nextPage. fold n. lia.
    + unfold nextPage. fold n. lia.
    + unfold prevPage. lia.
    + unfold prevPage. lia.
Qed.

(** Thirty items make three pages; the third holds the last six. *)
Lemma pages_partition_items_witness :
  let items := seq 0 30 in
  totalPages items = 3%nat /\
  concat (map (pagedItems items) [1; 2; 3]%nat) = items /\
  length (pagedItems items 1) = 12%nat /\
  pagedItems items 3 <> [] /\
  nextPage items 3 = 3%nat /\ prevPage 1 = 1%nat.
Proof.
  intros items.
  destruct (pages_partition_items items) as (_ & Hcat & Hpage).
  split; [reflexivity|]. split; [exact Hcat|].
  destruct (Hpage 1%nat ltac:(cbn; lia)) as (_ & Hfull & _).
  destruct (Hpage 3%nat ltac:(cbn; lia)) as (_ & _ & Hne & _).
  split; [apply Hfull; cbn; lia|]. split; [apply Hne; discriminate|].
  split; reflexivity.
Defined.

(** *** Search *)

Lemma chars_of_chars (l : list ascii) : chars (of_chars l) = l.
Proof. apply list_ascii_of_string_of_list_ascii. Qed.

Lemma of_chars_chars (s : string) : of_chars (chars s) = s.
Proof. apply string_of_list_ascii_of_string. Qed.

(** On ASCII text the lowering is the byte-wise one. *)
Lemma lower_chars_ascii (l : list ascii) :
  forallb (fun c => (code c <? 128)%nat) l = true ->
  lower_chars l = map lower_char l.
Proof.
  induction l as [|a l1 IH]; [reflexivity|].
  cbn [forallb]. intros H. apply andb_prop in H as [Ha Hl].
  specialize (IH Hl). apply Nat.ltb_lt in Ha.
  cbn [lower_chars map].
  destruct l1 as [|b l2]; [reflexivity|].
  replace (code a =? 196)%nat with false by (symmetry; apply Nat.eqb_neq; lia).
  cbn [andb].
  destruct l2 as [|c l3].
  - now rewrite IH.
  - replace (code a =? 226)%nat with false by (symmetry; apply Nat.eqb_neq; lia).
    cbn [andb]. now rewrite IH.
Qed.

Lemma includes_empty (s : string) : includes s EmptyString = true.
Proof. unfold includes. cbn. now destruct (chars s). Qed.

Lemma filter_all_None {A} (f : A -> option bool) (l : list A) :
  filter_all f l = None <-> exists x, In x l /\ f x = None.
Proof.
  induction l as [|x l IH]; cbn.
  - split; [discriminate | intros (x & [] & _)].
  - destruct (f x) as [b|] eqn:Hx.
    + destruct (filter_all f l) as [ys|].
      * split; [discriminate|]. intros (y & [<-|Hy] & Hf); [congruence|].
        assert (H : Some ys = None) by (apply IH; now exists y).
        discriminate.
      * split; [|reflexivity]. intros _.
        destruct (proj1 IH eq_refl) as (y & Hy & Hf). exists y. auto.
    + split; [|reflexivity]. intros _. exists x. auto.
Qed.

Lemma filter_all_Some {A} (f : A -> option bool) (g : A -> bool) (l : list A) :
  (forall x, In x l -> f x = Some (g x)) ->
  filter_all f l = Some (List.filter g l).
Proof.
  induction l as [|x l IH]; intros H; [reflexivity|]. cbn.
  rewrite (H x (or_introl eq_refl)), IH by (intros y Hy; apply H; now right).
  reflexivity.
Qed.

Lemma filter_true {A} (g : A -> bool) (l : list A) :
  (forall x, In x l -> g x = true) -> List.filter g l = l.
Proof.
  induction l as [|x l IH]; intros H; [reflexivity|]. cbn.
  rewrite (H x (or_introl eq_refl)), IH by (intros y Hy; apply H; now right).
  reflexivity.
Qed.

(** X8. For a query in the ASCII range, on a catalogue in which every
    product has a name and a category, the search never throws and returns
    exactly the products whose lower-cased name or category contains the
    lower-cased query, in catalogue order; the lower-cased query is the
    query with its letters A to Z replaced by a to z.  The empty query
    returns the whole catalogue. *)
Theorem search_on_named_catalogue (products : list Catalog.StoreProduct)
    (query : string) :
  ascii_text query = true ->
  Forall (fun p => Catalog.name p <> None /\ Catalog.category p <> None)
         products ->
  toLowerCase query = of_chars (map lower_char (chars query)) /\
  fetchProducts products query
  = Some (List.filter
            (fun p =>
               includes (toLowerCase (default EmptyString (Catalog.name p)))
                        (toLowerCase query)
               || includes (toLowerCase (default EmptyString (Catalog.category p)))
                           (toLowerCase query))
            products) /\
  fetchProducts products EmptyString = Some products.
Proof.
  intros Hascii Hall. split.
  { unfold toLowerCase. f_equal. now apply lower_chars_ascii. }
  split; [|reflexivity].
  rewrite Forall_forall in Hall. unfold fetchProducts.
  destruct (truthy query) eqn:Hq.
  - apply filter_all_Some. intros p Hp.
    destruct (Hall p (proj2 (list_elem_of_In _ _) Hp)) as [Hn Hc].
    unfold matches.
    destruct (Catalog.name p) as [n|]; [|congruence].
    destruct (Catalog.category p) as [c|]; [|congruence]. cbn [default].
    unfold Datatypes.id.
    now destruct (includes (toLowerCase n) (toLowerCase query)).
  - destruct query; [|discriminate]. rewrite filter_true; [reflexivity|].
    intros p _. change (toLowerCase EmptyString) with EmptyString.
    now rewrite includes_empty.
Qed.

(** A catalogue read from a CSV with every column of interest: bread is
    found by its name in any letter case, and the empty query lists all. *)
Lemma search_on_named_catalogue_witness :
  let catalogue :=
    default [] (Catalog.products ["sku_id"; "product_name"; "category"]
                  ["milk-1,Whole Milk,Dairy"; "bread-1,Sourdough Bread,Bakery"]) in
  toLowerCase "BREAD" = "bread" /\
  map Catalog.id (default [] (fetchProducts catalogue "BREAD")) = ["bread-1"] /\
  map Catalog.id (default [] (fetchProducts catalogue EmptyString))
    = ["milk-1"; "bread-1"].
Proof.
  intros catalogue. vm_compute in catalogue.
  assert (Hall : Forall (fun p => Catalog.name p <> None /\
                                  Catalog.category p <> None) catalogue)
    by (repeat constructor; discriminate).
  destruct (search_on_named_catalogue catalogue "BREAD" eq_refl Hall)
    as (Hlow & Hres & Hempty).
  split; [rewrite Hlow; reflexivity|].
  rewrite Hres, Hempty.
  split; vm_compute; reflexivity.
Defined.

(** X10. The empty query always returns the whole catalogue, and one
    product without a name makes every non-empty search throw.  For a
    query in the ASCII range the search throws exactly when the query is
    not empty and some product of the catalogue has no name, or has no
    category and a name whose lower-cased form does not contain the
    lower-cased query. *)
Theorem search_throws_on_unnamed (products : list Catalog.StoreProduct)
    (query : string) :
  fetchProducts products EmptyString = Some products /\
  (forall p, In p products -> Catalog.name p = None ->
     query <> EmptyString -> fetchProducts products query = None) /\
  (ascii_text query = true ->
   toLowerCase query = of_chars (map lower_char (chars query)) /\
   (fetchProducts products query = None <->
      query <> EmptyString /\
      exists p, In p products /\
        (Catalog.name p = None \/
         (exists n, Catalog.name p = Some n /\
                    includes (toLowerCase n) (toLowerCase query) = false /\
                    Catalog.category p = None)))).
Proof.
  assert (Hthrow : fetchProducts products query = None <->
     query <> EmptyString /\
     exists p, In p products /\ matches (toLowerCase query) p = None).
  { unfold fetchProducts. destruct query as [|a q]; cbn [truthy].
    - split; [discriminate | intros [H _]; congruence].
    - rewrite filter_all_None. split; [intros H; split; [discriminate | exact H]
                                      | intros [_ H]; exact H]. }
  assert (Hcb : forall term p, matches term p = None <->
     Catalog.name p = None \/
     (exists n, Catalog.name p = Some n /\
                includes (toLowerCase n) term = false /\
                Catalog.category p = None)).
  { intros term p. unfold matches.
    destruct (Catalog.name p) as [n|].
    - destruct (includes (toLowerCase n) term) eqn:Hinc.
      + split; [discriminate|].
        intros [H|(n' & [= <-] & H & _)]; congruence.
      + destruct (Catalog.category p) as [c|].
        * split; [discriminate|].
          intros [H|(n' & _ & _ & H)]; congruence.
        * split; [|reflexivity]. intros _. right. exists n. auto.
    - split; [|reflexivity]. intros _. now left. }
  split; [reflexivity|]. split.
  - intros p Hp Hname Hq. apply Hthrow. split; [exact Hq|].
    exists p. split; [exact Hp|]. apply Hcb. now left.
  - intros Hascii. split.
    { unfold toLowerCase. f_equal. now apply lower_chars_ascii. }
    rewrite Hthrow. split.
    + intros [Hq (p & Hp & Hm)]. split; [exact Hq|].
      exists p. split; [exact Hp|]. now apply Hcb.
    + intros [Hq (p & Hp & Hm)]. split; [exact Hq|].
      exists p. split; [exact Hp|]. now apply Hcb.
Qed.

(** A catalogue read from a CSV that has no product_name column: the
    products are loaded without a name, the empty query lists them, and a
    search for milk throws. *)
Lemma search_throws_on_unnamed_witness :
  let catalogue :=
    default [] (Catalog.products ["sku_id"; "category"]
                  ["milk-1,Dairy"; "bread-1,Bakery"]) in
  map Catalog.id (default [] (fetchProducts catalogue EmptyString))
    = ["milk-1"; "bread-1"] /\
  fetchProducts catalogue "milk" = None /\
  ascii_text "milk" = true /\
  exists p, In p catalogue /\ Catalog.name p = None.
Proof.
  intros catalogue. vm_compute in catalogue.
  destruct (search_throws_on_unnamed catalogue "milk") as (Hall & Hthrow & Hiff).
  split; [rewrite Hall; vm_compute; reflexivity|].
  split.
  - apply (Hthrow (hd (Catalog.mkStoreProduct EmptyString None None None None None
                         Catalog.NotANumber EmptyString Js.NaN) catalogue));
      [now left | reflexivity | discriminate].
  - split; [reflexivity|].
    destruct (Hiff eq_refl) as [_ Hex].
    assert (Hnone : fetchProducts catalogue "milk" = None) by reflexivity.
    destruct (proj1 Hex Hnone) as (_ & p & Hp & Hcase).
    exists p. split; [exact Hp|].
    destruct Hcase as [Hn|(n & Hn & _ & _)]; [exact Hn|].
    destruct Hp as [<-|[<-|[]]]; discriminate Hn.
Defined.

(** *** Ad copy *)

Lemma palette_colour (n : nat) :
  exists col, palette !! (n mod length palette)%nat = Some col /\ In col palette.
Proof.
  assert (Hlt : (n mod length palette < length palette)%nat)
    by (apply Nat.mod_upper_bound; discriminate).
  destruct (lookup_lt_is_Some_2 _ _ Hlt) as [col Hcol].
  exists col. split; [exact Hcol|].
  apply list_elem_of_In. eapply list_elem_of_lookup_2. exact Hcol.
Qed.

Lemma fetchProductById_found (products : list Catalog.StoreProduct) pid p :
  fetchProductById products pid = Some p -> In p products /\ Catalog.id p = pid.
Proof.
  intros H. apply find_some in H as [Hin Heq]. split; [exact Hin|].
  now apply String.eqb_eq.
Qed.

(** X11. The ad copy is built for every interaction except one that names
    a catalogue product without a category, where building it throws.  A
    copy that is built always has a colour of the palette; when it features
    a product, that is a catalogue product whose id is the one the
    interaction names. *)
Theorem creative_is_coloured (products : list Catalog.StoreProduct)
    (interaction : option Interaction.Event) :
  (buildCreative products interaction = None <->
     exists ev pid p,
       interaction = Some ev /\ Interaction.productId ev = Some pid /\
       pid <> EmptyString /\
       fetchProductById products pid = Some p /\ Catalog.category p = None) /\
  (forall c, buildCreative products interaction = Some c ->
     (exists col, color c = Some col /\ In col palette) /\
     (forall p, product c = Some p ->
        In p products /\
        exists ev, interaction = Some ev /\
                   Interaction.productId ev = Some (Catalog.id p))).
Proof.
  unfold buildCreative. destruct interaction as [ev|].
  2:{ split.
      - split; [discriminate | intros (? & ? & ? & H & _); discriminate].
      - intros c [= <-]. cbn [color product]. split; [|discriminate].
        eexists. split; [reflexivity|]. now left. }
  destruct (Interaction.productId ev) as [pid|] eqn:Hpid.
  - destruct (truthy pid) eqn:Htr.
    + destruct (fetchProductById products pid) as [p|] eqn:Hfind.
      * destruct (fetchProductById_found _ _ _ Hfind) as [Hin Hid].
        destruct (Catalog.category p) as [cat|] eqn:Hcat.
        -- split.
           ++ split; [discriminate|].
              intros (ev' & pid' & p' & [= <-] & Hp' & _ & Hf & Hc).
              rewrite Hpid in Hp'. injection Hp' as <-.
              rewrite Hfind in Hf. injection Hf as <-. congruence.
           ++ intros c [= <-]. cbn [color product]. split.
              ** apply palette_colour.
              ** intros p' [= <-]. split; [exact Hin|].
                 exists ev. split; [reflexivity|]. now rewrite Hid.
        -- split.
           ++ split; [|reflexivity]. intros _. exists ev, pid, p.
              repeat split; try assumption. now destruct pid.
           ++ discriminate.
      * split.
        -- split.
           ++ destruct (Interaction.query ev) as [q|]; [destruct (truthy q)|];
                discriminate.
           ++ intros (ev' & pid' & p' & [= <-] & Hp' & _ & Hf & _).
              rewrite Hpid in Hp'. injection Hp' as <-. congruence.
        -- intros c Hc. split.
           ++ destruct (Interaction.query ev) as [q|]; [destruct (truthy q)|];
                injection Hc as <-; cbn [color];
                first [apply palette_colour
                      | eexists; split; [reflexivity|]; cbn; tauto].
           ++ destruct (Interaction.query ev) as [q|]; [destruct (truthy q)|];
                injection Hc as <-; discriminate.
    + destruct pid; [|discriminate]. split.
      * split.
        -- destruct (Interaction.query ev) as [q|]; [destruct (truthy q)|];
             discriminate.
        -- intros (ev' & pid' & p' & [= <-] & Hp' & Hne & _).
           rewrite Hpid in Hp'. injection Hp' as <-. congruence.
      * intros c Hc. split.
        -- destruct (Interaction.query ev) as [q|]; [destruct (truthy q)|];
             injection Hc as <-; cbn [color];
             first [apply palette_colour
                   | eexists; split; [reflexivity|]; cbn; tauto].
        -- destruct (Interaction.query ev) as [q|]; [destruct (truthy q)|];
             injection Hc as <-; discriminate.
  - split.
    + split.
      * destruct (Interaction.query ev) as [q|]; [destruct (truthy q)|];
          discriminate.
      * intros (ev' & pid' & p' & [= <-] & Hp' & _). congruence.
    + intros c Hc. split.
      * destruct (Interaction.query ev) as [q|]; [destruct (truthy q)|];
          injection Hc as <-; cbn [color];
          first [apply palette_colour
                | eexists; split; [reflexivity|]; cbn; tauto].
      * destruct (Interaction.query ev) as [q|]; [destruct (truthy q)|];
          injection Hc as <-; discriminate.
Qed.

(** After a view of the sourdough loaf the copy features the loaf, in a
    colour of the palette. *)
Lemma creative_is_coloured_witness :
  let catalogue :=
    default [] (Catalog.products ["sku_id"; "product_name"; "category"]
                  ["milk-1,Whole Milk,Dairy"; "bread-1,Sourdough Bread,Bakery"]) in
  exists c col,
    buildCreative catalogue (Some (Interaction.handleProductClick "bread-1"))
      = Some c /\
    title c = "Inspired by Bakery" /\
    color c = Some col /\ In col palette.
Proof.
  intros catalogue. vm_compute in catalogue.
  destruct (buildCreative catalogue (Some (Interaction.handleProductClick "bread-1")))
    as [c|] eqn:Hc; [|vm_compute in Hc; discriminate].
  destruct (proj2 (creative_is_coloured catalogue
                     (Some (Interaction.handleProductClick "bread-1"))) c Hc)
    as [(col & Hcol & Hin) _].
  exists c, col. split; [reflexivity|]. split; [|split; assumption].
  vm_compute in Hc. injection Hc as <-. reflexivity.
Defined.

End ShopProps.

(** ** Texts of the generator scripts *)

Module TextProps.
Import JsString Catalog TextShape.

Lemma of_chars_app (a b : list ascii) :
  of_chars (a ++ b) = (of_chars a ++ of_chars b)%string.
Proof.
  unfold of_chars. induction a as [|c a IH]; cbn; [reflexivity | now rewrite IH].
Qed.

Lemma is_char_eq (a b : ascii) : is_char a b = true <-> a = b.
Proof. apply Ascii.eqb_eq. Qed.

(** *** Slugs *)

Lemma drop_dashes_spec (l : list ascii) :
  (exists k, l = (repeat DASH k ++ drop_dashes l)%list) /\
  starts_dash (drop_dashes l) = false.
Proof.
  induction l as [|c l [[k Hk] Hs]]; cbn.
  - split; [now exists 0%nat | reflexivity].
  - destruct (is_char c DASH) eqn:Hc.
    + split; [|exact Hs]. apply is_char_eq in Hc as ->.
      exists (S k). cbn. now rewrite <- Hk.
    + split; [now exists 0%nat | cbn; exact Hc].
Qed.

Lemma drop_dashes_id (l : list ascii) :
  starts_dash l = false -> drop_dashes l = l.
Proof. destruct l as [|c l]; cbn; [reflexivity | now intros ->]. Qed.

Lemma no_double_dash_suffix (x l : list ascii) :
  no_double_dash (x ++ l) = true -> no_double_dash l = true.
Proof.
  induction x as [|c x IH]; cbn; [auto|].
  intros H. apply andb_true_iff in H as [_ H]. auto.
Qed.

Lemma starts_dash_app (l x : list ascii) :
  l <> [] -> starts_dash (l ++ x) = starts_dash l.
Proof. destruct l; [congruence | reflexivity]. Qed.

Lemma no_double_dash_prefix (l x : list ascii) :
  no_double_dash (l ++ x) = true -> no_double_dash l = true.
Proof.
  induction l as [|c l IH]; cbn; [reflexivity|].
  intros H. apply andb_true_iff in H as [H1 H2]. rewrite (IH H2), andb_true_r.
  destruct l as [|d l]; [cbn; now rewrite andb_false_r | exact H1].
Qed.

Lemma dash_runs_shape (l : list ascii) :
  forall b,
    forallb (fun c => is_slug_char c || is_char c DASH) (dash_runs l b) = true /\
    no_double_dash (dash_runs l b) = true /\
    (b = true -> starts_dash (dash_runs l b) = false).
Proof.
  induction l as [|c l IH]; intros b; cbn; [now repeat split|].
  destruct (is_slug_char c) eqn:Hc.
  - destruct (IH false) as (Hall & Hnd & _). cbn. rewrite Hc, Hall, Hnd.
    assert (Hd : is_char c DASH = false).
    { destruct (is_char c DASH) eqn:Hd; [|reflexivity].
      apply is_char_eq in Hd as ->. discriminate. }
    rewrite Hd. now repeat split.
  - destruct b.
    + destruct (IH true) as (Hall & Hnd & Hst). now repeat split; auto.
    + destruct (IH true) as (Hall & Hnd & Hst). cbn.
      rewrite Hall, Hnd, (Hst eq_refl).
      change (is_char DASH DASH) with true. rewrite orb_true_r.
      repeat split. discriminate.
Qed.

Lemma dash_runs_id (l : list ascii) :
  forallb (fun c => is_slug_char c || is_char c DASH) l = true ->
  no_double_dash l = true ->
  dash_runs l false = l /\ (starts_dash l = false -> dash_runs l true = l).
Proof.
  induction l as [|c l IH]; cbn; [now split|].
  intros Hall Hnd. apply andb_true_iff in Hall as [Hc Hall].
  apply andb_true_iff in Hnd as [Hcd Hnd].
  destruct (IH Hall Hnd) as [IHf IHt].
  destruct (is_slug_char c) eqn:Hs.
  - rewrite IHf. split; reflexivity.
  - cbn in Hc. rewrite Hc in Hcd. cbn in Hcd.
    apply negb_true_iff in Hcd. rewrite (IHt Hcd).
    apply is_char_eq in Hc as ->. split; [reflexivity | discriminate].
Qed.

Lemma lower_char_slug (c : ascii) :
  is_slug_char c || is_char c DASH = true -> lower_char c = c.
Proof.
  destruct c as [[] [] [] [] [] [] [] []]; vm_compute; congruence.
Qed.

Lemma slug_char_ascii (c : ascii) :
  is_slug_char c || is_char c DASH = true -> (code c <? 128)%nat = true.
Proof.
  destruct c as [[] [] [] [] [] [] [] []]; vm_compute; congruence.
Qed.

Lemma slug_chars (text : string) :
  let l := chars (slugify text) in
  forallb (fun c => is_slug_char c || is_char c DASH) l = true /\
  no_double_dash l = true /\
  starts_dash l = false /\ starts_dash (rev l) = false.
Proof.
  unfold slugify. rewrite ShopProps.chars_of_chars.
  set (d := dash_runs (chars (toLowerCase text)) false).
  destruct (dash_runs_shape (chars (toLowerCase text)) false) as (Hall & Hnd & _).
  fold d in Hall, Hnd.
  destruct (drop_dashes_spec d) as [[k Hk] Hse].
  set (e := drop_dashes d) in *.
  destruct (drop_dashes_spec (rev e)) as [[j Hj] Hsf].
  set (f := drop_dashes (rev e)) in *.
  assert (He : e = (rev f ++ repeat DASH j)%list).
  { rewrite <- (rev_involutive e), Hj, rev_app_distr. f_equal.
    clear. induction j as [|j IH]; [reflexivity|].
    cbn. rewrite IH. clear. induction j; cbn; [reflexivity | now f_equal]. }
  assert (Halle : forallb (fun c => is_slug_char c || is_char c DASH) e = true).
  { rewrite Hk, forallb_app in Hall. now apply andb_true_iff in Hall. }
  assert (Hnde : no_double_dash e = true).
  { rewrite Hk in Hnd. now apply no_double_dash_suffix in Hnd. }
  cbn zeta. split; [|split; [|split]].
  - rewrite He, forallb_app in Halle. now apply andb_true_iff in Halle.
  - rewrite He in Hnde. now apply no_double_dash_prefix in Hnde.
  - destruct (rev f) as [|c r] eqn:Hr; [reflexivity|].
    rewrite <- Hse, He. symmetry. apply starts_dash_app. discriminate.
  - now rewrite rev_involutive.
Qed.

Lemma slug_fixed (s : string) : slug_shaped s = true -> slugify s = s.
Proof.
  unfold slug_shaped. intros H.
  apply andb_true_iff in H as [H Hend]. apply andb_true_iff in H as [H Hstart].
  apply andb_true_iff in H as [Hall Hnd].
  apply negb_true_iff in Hend, Hstart.
  assert (Hlow : toLowerCase s = s).
  { unfold toLowerCase. rewrite <- (ShopProps.of_chars_chars s) at 2. f_equal.
    rewrite ShopProps.lower_chars_ascii.
    - rewrite <- (map_id (chars s)) at 2. apply map_ext_in. intros c Hc.
      apply lower_char_slug. rewrite forallb_forall in Hall. now apply Hall.
    - apply forallb_forall. intros c Hc. apply slug_char_ascii.
      rewrite forallb_forall in Hall. now apply Hall. }
  unfold slugify. rewrite Hlow.
  rewrite (proj1 (dash_runs_id _ Hall Hnd)).
  rewrite (drop_dashes_id _ Hstart), (drop_dashes_id _ Hend), rev_involutive.
  apply ShopProps.of_chars_chars.
Qed.

(** X12. The slugs the catalogue generator makes for product ids consist
    of lower-case letters, digits and single dashes, with no dash at either
    end; every text of that shape is its own slug, so making a slug of a
    slug changes nothing. *)
Theorem slugify_shape (text : string) :
  slug_shaped (slugify text) = true /\
  (forall s, slug_shaped s = true -> slugify s = s) /\
  slugify (slugify text) = slugify text.
Proof.
  assert (Hshape : slug_shaped (slugify text) = true).
  { destruct (slug_chars text) as (Hall & Hnd & Hs & He).
    unfold slug_shaped. now rewrite Hall, Hnd, Hs, He. }
  split; [exact Hshape|]. split; [exact slug_fixed|]. now apply slug_fixed.
Qed.

Lemma slugify_shape_witness :
  slugify "  Sainsbury's Semi-Skimmed Milk (2L) " = "sainsbury-s-semi-skimmed-milk-2l" /\
  slug_shaped (slugify "  Sainsbury's Semi-Skimmed Milk (2L) ") = true /\
  slugify "whole-milk-2l" = "whole-milk-2l".
Proof.
  destruct (slugify_shape "  Sainsbury's Semi-Skimmed Milk (2L) ") as (Hs & Hfix & _).
  split; [reflexivity|]. split; [exact Hs|]. apply Hfix. reflexivity.
Defined.

(** *** Cells of a CSV line *)

Lemma count_quotes_cons (c : ascii) (l : list ascii) :
  count_quotes (c :: l)
  = ((if is_char c QUOTE then 1 else 0) + count_quotes l)%nat.
Proof.
  unfold count_quotes.
  destruct (is_char c QUOTE) eqn:Hc.
  - rewrite filter_cons_True by exact Hc. reflexivity.
  - rewrite filter_cons_False by congruence. reflexivity.
Qed.

Lemma count_quotes_app (a b : list ascii) :
  count_quotes (a ++ b) = (count_quotes a + count_quotes b)%nat.
Proof.
  induction a as [|c a IH]; [reflexivity|].
  cbn [app]. rewrite !count_quotes_cons, IH. lia.
Qed.

Lemma count_quotes_rev (a : list ascii) : count_quotes (rev a) = count_quotes a.
Proof.
  induction a as [|c a IH]; [reflexivity|].
  cbn [rev]. rewrite count_quotes_app, !count_quotes_cons, IH. cbn. lia.
Qed.

Lemma existsb_rev {A} (f : A -> bool) (l : list A) :
  existsb f (rev l) = existsb f l.
Proof.
  induction l as [|x l IH]; [reflexivity|].
  cbn. rewrite existsb_app, IH. cbn. rewrite orb_false_r. apply orb_comm.
Qed.

(** A cell without a double quote is kept as it is. *)
Lemma unquote_plain (l : list ascii) :
  count_quotes l = 0%nat -> unquote (of_chars l) = of_chars l.
Proof.
  intros H. unfold unquote. rewrite ShopProps.chars_of_chars.
  destruct l as [|q rest]; [reflexivity|].
  rewrite count_quotes_cons in H.
  destruct (is_char q QUOTE); [lia|]. now destruct (rev rest).
Qed.

Lemma join_cons (sep x : string) (l : list string) :
  l <> [] -> join sep (x :: l) = (x ++ sep ++ join sep l)%string.
Proof. destruct l; [congruence | reflexivity]. Qed.

Lemma split_cells_nonempty (l cur : list ascii) : split_cells l cur <> [].
Proof.
  revert cur. induction l as [|c l IH]; intros cur; cbn; [discriminate|].
  destruct (is_char c COMMA && Nat.even (count_quotes l)); [discriminate | apply IH].
Qed.

Lemma count_commas_split (l : list ascii) :
  forall cur, count_quotes l = 0%nat -> count_quotes cur = 0%nat ->
  join "," (map unquote (split_cells l cur)) = of_chars (rev cur ++ l) /\
  length (split_cells l cur)
    = S (length (List.filter (fun c => is_char c COMMA) l)) /\
  (existsb (fun c => is_char c COMMA) cur = false ->
   Forall (fun cell => has_char COMMA cell = false)
          (map unquote (split_cells l cur))).
Proof.
  induction l as [|c l IH]; intros cur Hl Hcur.
  - cbn. rewrite app_nil_r, unquote_plain by now rewrite count_quotes_rev.
    split; [reflexivity|]. split; [reflexivity|].
    intros H. constructor; [|constructor].
    unfold has_char. rewrite ShopProps.chars_of_chars, existsb_rev. exact H.
  - rewrite count_quotes_cons in Hl.
    assert (Hl' : count_quotes l = 0%nat) by lia.
    assert (Hq : is_char c QUOTE = false) by (destruct (is_char c QUOTE); [lia | reflexivity]).
    cbn [split_cells List.filter]. rewrite Hl'. cbn [Nat.even]. rewrite andb_true_r.
    destruct (is_char c COMMA) eqn:Hc.
    + destruct (IH [] Hl' eq_refl) as (Hjoin & Hlen & Hcells).
      cbn [map length]. rewrite join_cons
        by (intros H; apply map_eq_nil in H; now apply split_cells_nonempty in H).
      rewrite Hjoin, Hlen, unquote_plain by now rewrite count_quotes_rev.
      split; [|split; [reflexivity|]].
      * apply is_char_eq in Hc as ->. cbn [rev app].
        rewrite of_chars_app. reflexivity.
      * intros H. constructor; [|now apply Hcells].
        unfold has_char. rewrite ShopProps.chars_of_chars, existsb_rev. exact H.
    + destruct (IH (c :: cur) Hl') as (Hjoin & Hlen & Hcells).
      { rewrite count_quotes_cons, Hq. exact Hcur. }
      split; [|split; [exact Hlen|]].
      * rewrite Hjoin. cbn [rev]. now rewrite <- app_assoc.
      * intros H. apply Hcells. cbn. now rewrite Hc.
Qed.

(** X13. A CSV line without a double quote is cut at every comma: there
    is one cell more than there are commas, no cell contains a comma, and
    the cells joined by commas give the line back. *)
Theorem plain_line_cells (line : string) :
  has_char QUOTE line = false ->
  join "," (splitCsvLine line) = line /\
  length (splitCsvLine line)
    = S (length (List.filter (fun c => is_char c COMMA) (chars line))) /\
  Forall (fun cell => has_char COMMA cell = false) (splitCsvLine line).
Proof.
  intros H.
  assert (Hq : count_quotes (chars line) = 0%nat).
  { unfold has_char in H. unfold count_quotes.
    induction (chars line) as [|c l IH]; [reflexivity|].
    cbn in H. apply orb_false_iff in H as [Hc Hl].
    rewrite filter_cons_False by congruence. now apply IH. }
  destruct (count_commas_split (chars line) [] Hq eq_refl) as (Hjoin & Hlen & Hcells).
  unfold splitCsvLine. rewrite length_map.
  split; [rewrite Hjoin; apply ShopProps.of_chars_chars|]. split; [exact Hlen|].
  now apply Hcells.
Qed.

Lemma plain_line_cells_witness :
  join "," (splitCsvLine "milk-1,Whole Milk,,Dairy") = "milk-1,Whole Milk,,Dairy" /\
  length (splitCsvLine "milk-1,Whole Milk,,Dairy") = 4%nat.
Proof.
  destruct (plain_line_cells "milk-1,Whole Milk,,Dairy" eq_refl) as (Hjoin & Hlen & _).
  split; [exact Hjoin | exact Hlen].
Defined.

(** *** Customer ids read from the clickstream file *)

Lemma distinct_spec (l : list string) :
  forall seen,
    NoDup (CustomerMap.distinct l seen) /\
    (forall x, In x (CustomerMap.distinct l seen) -> In x l /\ ~ In x seen).
Proof.
  induction l as [|x l IH]; intros seen; cbn.
  - split; [constructor | intros x []].
  - destruct (bool_decide (x ∈ seen)) eqn:Hx.
    + destruct (IH seen) as [Hnd Hin]. split; [exact Hnd|].
      intros y Hy. destruct (Hin y Hy). auto.
    + apply bool_decide_eq_false in Hx. rewrite list_elem_of_In in Hx.
      destruct (IH (x :: seen)) as [Hnd Hin]. split.
      * apply NoDup_cons. split; [|exact Hnd].
        rewrite list_elem_of_In. intros Hy. destruct (Hin x Hy) as [_ Hno].
        apply Hno. now left.
      * intros y [<-|Hy]; [split; [now left | exact Hx]|].
        destruct (Hin y Hy) as [Hl Hno]. split; [now right|].
        intros Hs. apply Hno. now right.
Qed.

Lemma first_cell_plain (l : list ascii) :
  existsb (fun c => is_char c COMMA) (CustomerMap.first_cell l) = false.
Proof.
  induction l as [|c l IH]; cbn; [reflexivity|].
  destruct (is_char c COMMA) eqn:Hc; [reflexivity|]. cbn. now rewrite Hc.
Qed.

(** X14. The customer ids the customer-map generator collects from the
    clickstream file are pairwise distinct, and none of them is empty, is
    the column title customer_id or contains a comma. *)
Theorem found_ids_clean (csvText : string) :
  NoDup (CustomerMap.found_ids csvText) /\
  Forall (fun id => id <> EmptyString /\ id <> "customer_id" /\
                    has_char COMMA id = false)
         (CustomerMap.found_ids csvText).
Proof.
  unfold CustomerMap.found_ids.
  match goal with |- context [CustomerMap.distinct ?l []] =>
    destruct (distinct_spec l []) as [Hnd Hin] end.
  split; [exact Hnd|].
  apply Forall_forall. intros id Hid. apply list_elem_of_In in Hid.
  destruct (Hin id Hid) as [Hl _]. apply filter_In in Hl as [Hcell Hkeep].
  apply andb_true_iff in Hkeep as [Htr Hne]. apply negb_true_iff in Hne.
  split; [now destruct id|]. split.
  - intros ->. discriminate.
  - apply in_map_iff in Hcell as (line & <- & _).
    unfold has_char. rewrite ShopProps.chars_of_chars. apply first_cell_plain.
Qed.

End TextProps.

(** ** Image filler *)

Module FillImagesProps.
Import JsString Catalog TextShape FillImages.

Lemma chars_app (a b : string) : chars (a ++ b) = (chars a ++ chars b)%list.
Proof.
  unfold chars. induction a as [|c a IH]; [reflexivity|].
  change (String c a ++ b)%string with (String c (a ++ b)).
  cbn [list_ascii_of_string app]. now rewrite IH.
Qed.

(** A chunk without a comma is read into the current cell. *)
Lemma split_cells_chunk (w : list ascii) :
  forall cur t,
    existsb (fun c => is_char c COMMA) w = false ->
    split_cells (w ++ t) cur = split_cells t (rev w ++ cur).
Proof.
  induction w as [|c w IH]; intros cur t H; [reflexivity|].
  cbn in H. apply orb_false_iff in H as [Hc Hw].
  cbn [app split_cells]. rewrite Hc. cbn [andb].
  rewrite (IH _ _ Hw). cbn [rev]. now rewrite <- app_assoc.
Qed.

(** Inside double quotes, where an odd number of quotes follows, commas do
    not separate. *)
Lemma split_cells_quoted (w : list ascii) :
  forall cur r,
    count_quotes w = 0%nat -> Nat.even (count_quotes r) = false ->
    split_cells (w ++ r) cur = split_cells r (rev w ++ cur).
Proof.
  induction w as [|c w IH]; intros cur r Hw Hr; [reflexivity|].
  rewrite TextProps.count_quotes_cons in Hw.
  assert (Hw' : count_quotes w = 0%nat) by lia.
  cbn [app split_cells].
  rewrite TextProps.count_quotes_app, Hw'. cbn [Nat.add]. rewrite Hr, andb_false_r.
  rewrite (IH _ _ Hw' Hr). cbn [rev]. now rewrite <- app_assoc.
Qed.

Lemma clean_no_quote (cell : string) :
  clean cell = true -> count_quotes (chars cell) = 0%nat.
Proof.
  unfold clean. intros H. apply andb_true_iff in H as [H _]. revert H.
  induction (chars cell) as [|c l IH]; [reflexivity|].
  cbn [forallb]. intros H. apply andb_true_iff in H as [Hq Hl].
  apply negb_true_iff in Hq.
  rewrite TextProps.count_quotes_cons, Hq, (IH Hl). reflexivity.
Qed.

Lemma clean_has_no_quote (cell : string) :
  clean cell = true -> has_char QUOTE cell = false.
Proof.
  unfold clean, has_char. intros H. apply andb_true_iff in H as [H _]. revert H.
  induction (chars cell) as [|c l IH]; [reflexivity|].
  cbn. intros H. apply andb_true_iff in H as [Hq Hl].
  apply negb_true_iff in Hq. now rewrite Hq, (IH Hl).
Qed.

Lemma clean_one_line (cell : string) :
  clean cell = true -> has_line_terminator (chars cell) = false.
Proof.
  unfold clean. intros H. apply andb_true_iff in H as [_ H].
  now apply negb_true_iff in H.
Qed.

Lemma quotes_kept (l : list ascii) :
  count_quotes l = 0%nat ->
  flat_map (fun c => if is_char c QUOTE then [QUOTE; QUOTE] else [c]) l = l.
Proof.
  induction l as [|c l IH]; [reflexivity|].
  rewrite TextProps.count_quotes_cons. intros H. cbn.
  destruct (is_char c QUOTE); [lia|]. cbn. rewrite IH by lia. reflexivity.
Qed.

(** The text written for a clean cell. *)
Lemma formatCell_clean (cell : string) :
  clean cell = true ->
  chars (formatCell (Some cell))
  = if has_char COMMA cell then (QUOTE :: chars cell ++ [QUOTE])%list
    else chars cell.
Proof.
  intros H. unfold formatCell.
  rewrite (clean_has_no_quote _ H), orb_false_r.
  rewrite (quotes_kept _ (clean_no_quote _ H)), ShopProps.of_chars_chars.
  destruct (has_char COMMA cell); [|reflexivity].
  change (chars (String QUOTE (cell ++ String QUOTE EmptyString)))
    with (QUOTE :: chars (cell ++ String QUOTE EmptyString)).
  now rewrite chars_app.
Qed.

Lemma formatCell_quotes (cell : string) :
  clean cell = true ->
  Nat.even (count_quotes (chars (formatCell (Some cell)))) = true.
Proof.
  intros H. rewrite (formatCell_clean _ H).
  pose proof (clean_no_quote _ H) as Hq.
  destruct (has_char COMMA cell).
  - rewrite TextProps.count_quotes_cons, TextProps.count_quotes_app, Hq.
    reflexivity.
  - now rewrite Hq.
Qed.

(** A formatted clean cell is read into the current cell as a whole. *)
Lemma split_cells_formatted (cell : string) (cur t : list ascii) :
  clean cell = true -> Nat.even (count_quotes t) = true ->
  split_cells (chars (formatCell (Some cell)) ++ t) cur
  = split_cells t (rev (chars (formatCell (Some cell))) ++ cur).
Proof.
  intros H Ht. rewrite (formatCell_clean _ H).
  pose proof (clean_no_quote _ H) as Hq.
  destruct (has_char COMMA cell) eqn:Hc.
  - cbn [app split_cells]. change (is_char QUOTE COMMA) with false. cbn [andb].
    rewrite <- app_assoc. rewrite (split_cells_quoted _ _ _ Hq).
    + cbn [app split_cells]. change (is_char QUOTE COMMA) with false. cbn [andb].
      f_equal. cbn [rev]. rewrite rev_app_distr. cbn. now rewrite <- app_assoc.
    + cbn [app]. rewrite TextProps.count_quotes_cons.
      change (is_char QUOTE QUOTE) with true.
      rewrite Nat.even_succ, <- Nat.negb_even, Ht. reflexivity.
  - now apply split_cells_chunk.
Qed.

Lemma unquote_formatted (cell : string) :
  clean cell = true -> unquote (formatCell (Some cell)) = cell.
Proof.
  intros H. destruct (has_char COMMA cell) eqn:Hc.
  - unfold unquote. rewrite (formatCell_clean _ H), Hc.
    rewrite rev_app_distr. cbn [rev app].
    change (is_char QUOTE QUOTE) with true. cbn [andb].
    rewrite rev_involutive, (clean_one_line _ H). cbn [negb].
    apply ShopProps.of_chars_chars.
  - pose proof (clean_no_quote _ H) as Hq.
    assert (Hfmt : formatCell (Some cell) = cell).
    { unfold formatCell.
      rewrite (clean_has_no_quote _ H), Hc, (quotes_kept _ Hq). cbn [orb].
      apply ShopProps.of_chars_chars. }
    rewrite Hfmt.
    rewrite <- (ShopProps.of_chars_chars cell).
    now apply TextProps.unquote_plain.
Qed.

Lemma chars_join_cons (x y : string) (l : list string) :
  chars (join "," (x :: y :: l))
  = (chars x ++ COMMA :: chars (join "," (y :: l)))%list.
Proof.
  rewrite TextProps.join_cons by discriminate. now rewrite chars_app.
Qed.

(** Reading a line written from clean cells yields the written cells. *)
Lemma split_written_line (cells : list string) :
  cells <> [] -> Forall (fun c => clean c = true) cells ->
  let line := chars (join "," (map (fun c => formatCell (Some c)) cells)) in
  split_cells line [] = map (fun c => formatCell (Some c)) cells /\
  Nat.even (count_quotes line) = true.
Proof.
  induction cells as [|c cells IH]; [congruence|]. intros _ Hall.
  apply Forall_cons_1 in Hall as [Hc Hall].
  destruct cells as [|c' cells].
  - cbn [map join String.concat]. cbn zeta.
    rewrite <- (app_nil_r (chars (formatCell (Some c)))).
    rewrite (split_cells_formatted c [] [] Hc eq_refl). cbn [split_cells].
    rewrite !app_nil_r, rev_involutive, ShopProps.of_chars_chars.
    split; [reflexivity | now apply formatCell_quotes].
  - destruct (IH ltac:(discriminate) Hall) as [IHs IHq]. cbn zeta in *.
    cbn [map] in *. rewrite chars_join_cons.
    set (rest := chars (join "," (formatCell (Some c')
                   :: map (fun c => formatCell (Some c)) cells))) in *.
    assert (Hrest : Nat.even (count_quotes (COMMA :: rest)) = true)
      by (rewrite TextProps.count_quotes_cons; exact IHq).
    split.
    + rewrite (split_cells_formatted c [] _ Hc Hrest). cbn [split_cells].
      change (is_char COMMA COMMA) with true. rewrite IHq. cbn [andb].
      rewrite IHs, app_nil_r, rev_involutive, ShopProps.of_chars_chars.
      reflexivity.
    + rewrite TextProps.count_quotes_app, Nat.even_add,
        (formatCell_quotes _ Hc), Hrest. reflexivity.
Qed.

Lemma read_back (cells : list string) :
  cells <> [] -> Forall (fun c => clean c = true) cells ->
  splitCsvLine (join "," (map (fun c => formatCell (Some c)) cells)) = cells.
Proof.
  intros Hne Hall. unfold splitCsvLine.
  rewrite (proj1 (split_written_line cells Hne Hall)), map_map.
  rewrite <- (map_id cells) at 2. apply map_ext_in. intros c Hc.
  apply unquote_formatted. rewrite Forall_forall in Hall.
  now apply Hall, list_elem_of_In.
Qed.

(** X15. Writing a row and reading it back: for a non-empty list of cells
    that hold no double quote and no line terminator (commas are allowed),
    the line made by formatting every cell and joining the results with
    commas is split by [splitCsvLine] into exactly those cells. *)
Theorem written_row_reads_back (cells : list string) :
  cells <> [] -> Forall (fun c => clean c = true) cells ->
  splitCsvLine (join "," (map (fun c => formatCell (Some c)) cells)) = cells.
Proof.
  exact (read_back cells).
Qed.

Lemma written_row_reads_back_witness :
  let cells := ["milk-1"; "Milk, whole"; EmptyString; "Dairy"] in
  join "," (map (fun c => formatCell (Some c)) cells)
    = "milk-1," ++ String QUOTE "Milk, whole" ++ String QUOTE ",,Dairy" /\
  splitCsvLine (join "," (map (fun c => formatCell (Some c)) cells)) = cells.
Proof.
  intros cells. split; [reflexivity|].
  apply (written_row_reads_back cells); [discriminate|].
  repeat constructor.
Defined.

(** *** The image chosen for a row *)

Lemma random_index_range (u : Q) (n : nat) :
  (0 <= u)%Q -> (u < 1)%Q -> (0 < n)%nat ->
  0 <= random_index u n < Z.of_nat n.
Proof.
  intros H0 H1 Hn. unfold random_index.
  set (k := inject_Z (Z.of_nat n)).
  assert (Hk : (0 < k)%Q) by (unfold k; rewrite <- (Zlt_Qlt 0); lia).
  split.
  - rewrite <- (Qfloor_Z 0). apply Qfloor_resp_le.
    apply Qmult_le_0_compat; [exact H0 | now apply Qlt_le_weak].
  - rewrite Zlt_Qlt. eapply Qle_lt_trans; [apply Qfloor_le|].
    fold k. eapply Qlt_le_trans;
      [apply Qmult_lt_compat_r; [exact Hk | exact H1]|].
    rewrite Qmult_1_l. apply Qle_refl.
Qed.

Lemma pick_member (u : Q) (arr : list string) (x : string) :
  pick u arr = Some x -> In x arr.
Proof.
  unfold pick. destruct (random_index u (length arr) <? 0); [discriminate|].
  intros H. apply list_elem_of_In. eapply list_elem_of_lookup_2. exact H.
Qed.

Lemma pick_defined (u : Q) (arr : list string) :
  (0 <= u)%Q -> (u < 1)%Q -> arr <> [] -> exists x, pick u arr = Some x.
Proof.
  intros H0 H1 Hne.
  assert (Hlen : (0 < length arr)%nat) by (destruct arr; [congruence | cbn; lia]).
  destruct (random_index_range u (length arr) H0 H1 Hlen) as [Hlo Hhi].
  unfold pick. replace (random_index u (length arr) <? 0) with false
    by (symmetry; apply Z.ltb_ge; exact Hlo).
  apply lookup_lt_is_Some_2. lia.
Qed.

Lemma category_pools :
  NoDup (map fst categoryEntries) /\
  Forall (fun arr => arr <> []) (map snd categoryEntries).
Proof.
  split.
  - apply (bool_decide_unpack _). vm_compute. exact I.
  - repeat constructor; discriminate.
Qed.

Lemma category_pool (key : string) (arr : list string) :
  categoryImages !! key = Some arr ->
  In arr (map snd categoryEntries) /\ arr <> [].
Proof.
  intros H. destruct category_pools as [Hnd Hne].
  apply (CustomerMapProps.fromEntries_lookup _ _ _ Hnd) in H.
  assert (Hin : In arr (map snd categoryEntries))
    by (apply in_map_iff; now exists (key, arr)).
  split; [exact Hin|]. rewrite Forall_forall in Hne.
  now apply Hne, list_elem_of_In.
Qed.

Lemma curated_clean : Forall (fun url => clean url = true) curated.
Proof.
  apply Forall_forall. intros url Hurl. apply list_elem_of_In in Hurl.
  assert (H : forallb clean curated = true) by (vm_compute; reflexivity).
  rewrite forallb_forall in H. now apply H.
Qed.

Lemma In_curated_pool (arr : list string) (x : string) :
  In arr (map snd categoryEntries) -> In x arr -> In x curated.
Proof.
  intros Harr Hx. unfold curated. apply in_or_app. right.
  apply in_or_app. left. apply in_concat. now exists arr.
Qed.

Lemma In_curated_fallback (x : string) : In x fallbackImages -> In x curated.
Proof.
  intros Hx. unfold curated. apply in_or_app. right. apply in_or_app. now right.
Qed.

(** Whatever is chosen comes from the curated images. *)
Lemma chooseImage_member (u : Q) (name category subCategory : option string)
    (url : string) :
  chooseImage u name category subCategory = Some url -> In url curated.
Proof.
  unfold chooseImage.
  destruct (find _ keywordImages) as [kv|] eqn:Hkw.
  - intros [= <-]. apply find_some in Hkw as [Hin _].
    unfold curated. apply in_or_app. left. now apply in_map.
  - unfold Js.get.
    destruct (categoryImages !! toLowerCase (or_empty subCategory))
      as [arr|] eqn:Hsub.
    + intros Hp. destruct (category_pool _ _ Hsub) as [Harr _].
      eapply In_curated_pool; [exact Harr | now apply pick_member in Hp].
    + destruct (Js.inherited (toLowerCase (or_empty subCategory)));
        [discriminate|].
      destruct (categoryImages !! toLowerCase (or_empty category))
        as [arr|] eqn:Hcat.
      * intros Hp. destruct (category_pool _ _ Hcat) as [Harr _].
        eapply In_curated_pool; [exact Harr | now apply pick_member in Hp].
      * destruct (Js.inherited (toLowerCase (or_empty category)));
          [discriminate|].
        intros Hp. apply In_curated_fallback. now apply pick_member in Hp.
Qed.

(** X16. For a draw in [0, 1) the image chooser returns one of the curated
    images, unless the lower-cased sub-category or category is the name of
    an inherited object member (constructor, __proto__), in which case it
    may return undefined; it never returns anything but a curated image,
    and no curated image holds a comma, a double quote or a line break. *)
Theorem chosen_image_is_curated (u : Q) (name category subCategory : option string) :
  (0 <= u)%Q -> (u < 1)%Q ->
  Js.inherited (toLowerCase (or_empty subCategory)) = false ->
  Js.inherited (toLowerCase (or_empty category)) = false ->
  exists url,
    chooseImage u name category subCategory = Some url /\
    In url curated /\ clean url = true /\ has_char COMMA url = false.
Proof.
  intros H0 H1 Hsub Hcat.
  assert (Hsome : exists url, chooseImage u name category subCategory = Some url).
  { unfold chooseImage.
    destruct (find _ keywordImages) as [kv|]; [eauto|].
    unfold Js.get. rewrite Hsub, Hcat.
    destruct (categoryImages !! toLowerCase (or_empty subCategory))
      as [arr|] eqn:Es.
    - apply (pick_defined u arr H0 H1). now destruct (category_pool _ _ Es).
    - destruct (categoryImages !! toLowerCase (or_empty category))
        as [arr|] eqn:Ec.
      + apply (pick_defined u arr H0 H1). now destruct (category_pool _ _ Ec).
      + apply (pick_defined u fallbackImages H0 H1). discriminate. }
  destruct Hsome as [url Hurl]. exists url. split; [exact Hurl|].
  pose proof (chooseImage_member _ _ _ _ _ Hurl) as Hin.
  split; [exact Hin|].
  assert (Hall : forallb (fun x => clean x && negb (has_char COMMA x)) curated
                 = true) by (vm_compute; reflexivity).
  rewrite forallb_forall in Hall. specialize (Hall url Hin).
  apply andb_true_iff in Hall as [Hc Hn]. split; [exact Hc|].
  now apply negb_true_iff in Hn.
Qed.

(** A pork pie is given the pork keyword image whatever its category, and
    an unknown category with the draw 0.99 the last fallback image. *)
Lemma chosen_image_is_curated_witness :
  (exists url, chooseImage (1 # 2) (Some "Pork Pie") (Some "Meat") (Some "Pies")
               = Some url /\ In url curated /\ clean url = true /\
               has_char COMMA url = false) /\
  (exists url, chooseImage (99 # 100) (Some "Quinoa") (Some "Grains") None
               = Some url /\ In url curated /\ clean url = true /\
               has_char COMMA url = false).
Proof.
  split.
  - apply (chosen_image_is_curated (1 # 2) (Some "Pork Pie") (Some "Meat")
             (Some "Pies")); reflexivity || discriminate.
  - apply (chosen_image_is_curated (99 # 100) (Some "Quinoa") (Some "Grains")
             None); reflexivity || discriminate.
Defined.

(** *** Rows *)

Lemma formatCell_default (v : option string) :
  formatCell v = formatCell (Some (default EmptyString v)).
Proof. destruct v; reflexivity. Qed.

(** The cells written for a row, holes and [undefined] read as empty. *)
Lemma written_cells (u : Q) (cells : list string) :
  let img := default EmptyString
               (chooseImage u (cells !! 1%nat) (cells !! 4%nat) (cells !! 5%nat)) in
  map (default EmptyString) (updated_cells u cells)
  = if needs_image cells then
      if (imageUrlIdx <? length cells)%nat then <[imageUrlIdx := img]> cells
      else (cells ++ replicate (imageUrlIdx - length cells) EmptyString
              ++ [img])%list
    else cells.
Proof.
  intros img. unfold updated_cells.
  assert (Hid : map (default EmptyString) (map Some cells) = cells).
  { rewrite map_map. rewrite <- (map_id cells) at 2. now apply map_ext. }
  destruct (needs_image cells); [|exact Hid].
  unfold set_image. rewrite length_map.
  destruct (imageUrlIdx <? length cells)%nat.
  - change (map (default EmptyString)) with (fmap (M := list) (default EmptyString)).
    rewrite list_fmap_insert. change (fmap (M := list) (default EmptyString))
      with (map (default EmptyString)). now rewrite Hid.
  - rewrite !map_app, Hid.
    change (map (default EmptyString) (replicate ?n None))
      with (fmap (M := list) (default EmptyString) (replicate n (@None string))).
    now rewrite fmap_replicate.
Qed.

Lemma needs_image_false (cells : list string) :
  needs_image cells = false ->
  exists img, cells !! imageUrlIdx = Some img /\ img <> EmptyString /\
              img <> two_quotes /\ (imageUrlIdx < length cells)%nat.
Proof.
  unfold needs_image. destruct (cells !! imageUrlIdx) as [img|] eqn:Himg;
    [|discriminate].
  intros H. apply orb_false_iff in H as [Ht Hq]. apply negb_false_iff in Ht.
  exists img. split; [reflexivity|]. split; [now destruct img|]. split.
  - intros ->. now rewrite String.eqb_refl in Hq.
  - now apply lookup_lt_Some in Himg.
Qed.

Lemma written_cells_shape (u : Q) (cells : list string) :
  let written := map (default EmptyString) (updated_cells u cells) in
  let img := default EmptyString
               (chooseImage u (cells !! 1%nat) (cells !! 4%nat) (cells !! 5%nat)) in
  length written = Nat.max (length cells) 8 /\
  (forall i, i <> imageUrlIdx -> (i < length cells)%nat ->
     written !! i = cells !! i) /\
  (forall i, (length cells <= i < imageUrlIdx)%nat ->
     written !! i = Some EmptyString) /\
  written !! imageUrlIdx
    = Some (if needs_image cells then img
            else default EmptyString (cells !! imageUrlIdx)).
Proof.
  intros written img. subst written. rewrite written_cells. fold img.
  unfold imageUrlIdx in *.
  destruct (needs_image cells) eqn:Hneed.
  - destruct (7 <? length cells)%nat eqn:Hlen.
    + apply Nat.ltb_lt in Hlen. rewrite length_insert.
      split; [lia|]. split; [|split].
      * intros i Hi _. apply list_lookup_insert_ne. congruence.
      * intros i Hi. lia.
      * now apply list_lookup_insert_eq.
    + apply Nat.ltb_ge in Hlen. rewrite !length_app, length_replicate.
      cbn [length]. split; [lia|]. split; [|split].
      * intros i _ Hi. now apply lookup_app_l.
      * intros i Hi. rewrite lookup_app_r by lia.
        rewrite lookup_app_l by (rewrite length_replicate; lia).
        apply lookup_replicate_2. lia.
      * rewrite lookup_app_r by lia.
        rewrite lookup_app_r by (rewrite length_replicate; lia).
        rewrite length_replicate.
        replace (7 - length cells - (7 - length cells))%nat with 0%nat by lia.
        reflexivity.
  - destruct (needs_image_false cells Hneed) as (x & Hx & _ & _ & Hlen).
    unfold imageUrlIdx in *. split; [lia|]. split; [auto|]. split.
    + intros i Hi. lia.
    + now rewrite Hx.
Qed.

Lemma written_cells_clean (u : Q) (cells : list string) :
  Forall (fun c => clean c = true) (kept cells) ->
  Forall (fun c => clean c = true)
         (map (default EmptyString) (updated_cells u cells)).
Proof.
  intros Hall. rewrite written_cells. unfold kept in Hall.
  assert (Himg : clean (default EmptyString
                   (chooseImage u (cells !! 1%nat) (cells !! 4%nat)
                      (cells !! 5%nat))) = true).
  { destruct (chooseImage u _ _ _) as [url|] eqn:Hurl; [|reflexivity].
    pose proof curated_clean as Hc. rewrite Forall_forall in Hc.
    apply Hc, list_elem_of_In. eapply chooseImage_member. exact Hurl. }
  destruct (needs_image cells); [|exact Hall].
  apply Forall_app in Hall as [Hpre Hpost].
  destruct (imageUrlIdx <? length cells)%nat eqn:Hlen.
  - apply Nat.ltb_lt in Hlen.
    rewrite insert_take_drop by exact Hlen.
    apply Forall_app. split; [exact Hpre|]. now constructor.
  - apply Nat.ltb_ge in Hlen. rewrite take_ge in Hpre by exact Hlen.
    apply Forall_app. split; [exact Hpre|]. apply Forall_app. split.
    + now apply Forall_replicate.
    + now constructor.
Qed.

Lemma needs_image_cases (cells : list string) :
  needs_image cells = true <->
  cells !! imageUrlIdx = None \/ cells !! imageUrlIdx = Some EmptyString \/
  cells !! imageUrlIdx = Some two_quotes.
Proof.
  unfold needs_image. destruct (cells !! imageUrlIdx) as [c|]; [|tauto].
  split.
  - intros H. apply orb_true_iff in H as [H|H].
    + right. left. destruct c; [reflexivity | discriminate].
    + right. right. apply String.eqb_eq in H. now subst.
  - intros [H|[[= ->]|[= ->]]]; [discriminate | reflexivity | reflexivity].
Qed.

Lemma update_row_written (u : Q) (line : string) :
  nonblank line = true ->
  update_row u line
  = Some (join "," (map (fun c => formatCell (Some c))
                      (map (default EmptyString)
                         (updated_cells u (splitCsvLine line))))).
Proof.
  intros Hnb. unfold update_row. unfold nonblank in Hnb. rewrite Hnb. cbn [negb].
  do 2 f_equal. rewrite map_map. apply map_ext. intros v. apply formatCell_default.
Qed.

Lemma clean_cells (cells : list string) :
  forallb clean cells = true -> Forall (fun c => clean c = true) cells.
Proof.
  intros H. apply Forall_forall. intros c Hc. apply list_elem_of_In in Hc.
  rewrite forallb_forall in H. now apply H.
Qed.

(** X17. The image filler rewrites a non-blank row cell by cell, provided
    the cells it keeps (all of them, or all but the image cell when that
    is replaced) hold no double quote and no line terminator.  The image
    cell is replaced exactly when it is missing, empty or the text of two
    double quotes.  Read back, the written row has the cells of the row
    read, padded with empty cells up to eight; the image cell holds the
    image it had when that is not replaced, and otherwise the image chosen
    from the name, category and sub-category cells (the empty text when
    none is chosen); every other cell is what it was. *)
Theorem row_is_rewritten (u : Q) (line : string) :
  nonblank line = true ->
  Forall (fun c => clean c = true) (kept (splitCsvLine line)) ->
  let cells := splitCsvLine line in
  exists row,
    update_row u line = Some row /\
    length (splitCsvLine row) = Nat.max (length cells) 8 /\
    (forall i, i <> imageUrlIdx -> (i < length cells)%nat ->
       splitCsvLine row !! i = cells !! i) /\
    (forall i, (length cells <= i < imageUrlIdx)%nat ->
       splitCsvLine row !! i = Some EmptyString) /\
    (needs_image cells = true <->
       cells !! imageUrlIdx = None \/ cells !! imageUrlIdx = Some EmptyString \/
       cells !! imageUrlIdx = Some two_quotes) /\
    (needs_image cells = false -> splitCsvLine row = cells) /\
    (needs_image cells = true ->
     splitCsvLine row !! imageUrlIdx
       = Some (default EmptyString
                 (chooseImage u (cells !! 1%nat) (cells !! 4%nat)
                    (cells !! 5%nat)))).
Proof.
  intros Hnb Hclean cells.
  eexists. split; [apply (update_row_written u line Hnb)|]. fold cells.
  pose proof (written_cells_shape u cells) as (Hlen & Hother & Hpad & Himg).
  pose proof (written_cells_clean u cells Hclean) as Hwc.
  rewrite read_back;
    [|intros Hnil; rewrite Hnil in Hlen; cbn in Hlen; lia | exact Hwc].
  split; [exact Hlen|]. split; [exact Hother|]. split; [exact Hpad|].
  split; [apply needs_image_cases|]. split.
  - intros Hkeep. rewrite written_cells. now rewrite Hkeep.
  - intros Hneed. now rewrite Himg, Hneed.
Qed.

(** A row without an image and a row whose image cell reads as two double
    quotes are given the pork keyword image; a row that has an image is
    read back as it was. *)
Lemma row_is_rewritten_witness :
  let quoted := ("s3,Pork Pie,d,b,Meat,Pies,1.5,"
                 ++ String QUOTE (String QUOTE two_quotes) ++ ",3")%string in
  (exists row, update_row (1 # 2) "s1,Pork Pie,d,b,Meat,Pies,1.5,,3" = Some row /\
     splitCsvLine row !! imageUrlIdx = Some (photo "1551024709-8f23befc6f87")) /\
  (splitCsvLine quoted !! imageUrlIdx = Some two_quotes /\
   exists row, update_row (1 # 2) quoted = Some row /\
     splitCsvLine row !! imageUrlIdx = Some (photo "1551024709-8f23befc6f87")) /\
  (exists row, update_row (1 # 2) "s2,Milk,d,b,Dairy,Milk,1.1,pic.png,9" = Some row /\
     splitCsvLine row = splitCsvLine "s2,Milk,d,b,Dairy,Milk,1.1,pic.png,9").
Proof.
  intros quoted. split; [|split].
  - destruct (row_is_rewritten (1 # 2) "s1,Pork Pie,d,b,Meat,Pies,1.5,,3")
      as (row & Hrow & _ & _ & _ & _ & _ & Himg);
      [vm_compute; reflexivity
      | apply clean_cells; vm_compute; reflexivity |].
    exists row. split; [exact Hrow|].
    rewrite Himg by (vm_compute; reflexivity). vm_compute. reflexivity.
  - split; [vm_compute; reflexivity|].
    destruct (row_is_rewritten (1 # 2) quoted)
      as (row & Hrow & _ & _ & _ & _ & _ & Himg);
      [vm_compute; reflexivity
      | apply clean_cells; vm_compute; reflexivity |].
    exists row. split; [exact Hrow|].
    rewrite Himg by (vm_compute; reflexivity). vm_compute. reflexivity.
  - destruct (row_is_rewritten (1 # 2) "s2,Milk,d,b,Dairy,Milk,1.1,pic.png,9")
      as (row & Hrow & _ & _ & _ & _ & Hkeep & _);
      [vm_compute; reflexivity
      | apply clean_cells; vm_compute; reflexivity |].
    exists row. split; [exact Hrow|].
    apply Hkeep. vm_compute. reflexivity.
Defined.

(** *** The file written *)

Lemma join_truthy (x y : string) (l : list string) :
  truthy (join "," (x :: y :: l)) = true.
Proof.
  rewrite TextProps.join_cons by discriminate. now destruct x.
Qed.

Lemma update_row_truthy (u : Q) (line row : string) :
  update_row u line = Some row -> truthy row = true.
Proof.
  unfold update_row. destruct (negb (truthy (trim line))); [discriminate|].
  intros [= <-].
  pose proof (written_cells_shape u (splitCsvLine line)) as (Hlen & _).
  rewrite length_map in Hlen.
  destruct (updated_cells u (splitCsvLine line)) as [|x [|y l]];
    [cbn in Hlen; lia | cbn in Hlen; lia |].
  apply join_truthy.
Qed.

Lemma update_row_blank (u : Q) (line : string) :
  update_row u line = None <-> nonblank line = false.
Proof.
  unfold update_row, nonblank. destruct (truthy (trim line)); cbn; split;
    congruence.
Qed.

Lemma filter_Boolean_rows (rows : list string) :
  forall draw : nat -> Q,
    let updated := imap (fun i line => update_row (draw i) line) rows in
    filter_Boolean updated = omap (fun r => r) updated /\
    length (filter_Boolean updated) = length (List.filter nonblank rows).
Proof.
  induction rows as [|line rows IH]; intros draw; [split; reflexivity|].
  cbn zeta. rewrite imap_cons.
  destruct (IH (draw ∘ S)) as [IHf IHl]. cbn zeta in IHf, IHl.
  unfold filter_Boolean in *. cbn [omap list_omap List.filter].
  change (list_omap ?f ?l) with (omap f l).
  destruct (update_row (draw 0%nat) line) as [row|] eqn:Hrow.
  - rewrite (update_row_truthy _ _ _ Hrow).
    destruct (nonblank line) eqn:Hnb;
      [|apply (proj2 (update_row_blank (draw 0%nat) line)) in Hnb; congruence].
    split; [f_equal; exact IHf | cbn [length]; f_equal; exact IHl].
  - apply (proj1 (update_row_blank _ _)) in Hrow. rewrite Hrow.
    split; [exact IHf | exact IHl].
Qed.

(** X18. The file written holds the title line of the file read and then
    exactly one line for every row that is not blank, in order, each ending
    in a line feed: the filter that drops the blank rows drops nothing
    else, since a rewritten row is never the empty text. *)
Theorem filled_file_rows (draw : nat -> Q) (raw : string) :
  let headerLine := fst (readCsv raw) in
  let rows := snd (readCsv raw) in
  let written := omap (fun r => r)
                   (imap (fun i line => update_row (draw i) line) rows) in
  fill draw raw = (join newline (headerLine :: written) ++ newline)%string /\
  length written = length (List.filter nonblank rows) /\
  Forall (fun row => row <> EmptyString) written.
Proof.
  intros headerLine rows written. subst headerLine rows written.
  unfold fill. destruct (readCsv raw) as [headerLine rows]. cbn [fst snd].
  destruct (filter_Boolean_rows rows draw) as [Hf Hl]. cbn zeta in Hf, Hl.
  rewrite <- Hf. split; [reflexivity|]. split; [exact Hl|].
  apply Forall_forall. intros row Hrow.
  unfold filter_Boolean in Hrow. apply list_elem_of_omap in Hrow as (r & _ & Hr).
  destruct r as [s|]; [|discriminate].
  destruct (truthy s) eqn:Hs; [|discriminate].
  injection Hr as <-. intros ->. discriminate.
Qed.

(** *** From the file written to the catalogue *)

(** The record of a row under titles that are pairwise distinct. *)
Lemma make_record_lookup (headers cells : list string) (k v : string) :
  NoDup headers ->
  make_record headers cells !! k = Some v <->
  exists i, headers !! i = Some k /\ v = default EmptyString (cells !! i).
Proof.
  intros Hnd. unfold make_record.
  rewrite CustomerMapProps.fromEntries_lookup.
  - rewrite <- list_elem_of_In, elem_of_lookup_imap. split.
    + intros (i & h & [= -> ->] & Hh). now exists i.
    + intros (i & Hh & ->). now exists i, k.
  - change (map fst) with (fmap (M := list) (@fst string string)).
    rewrite fmap_imap.
    rewrite (imap_ext _ (fun _ h => h) headers) by reflexivity.
    assert (Hkeys : forall l : list string,
              imap (fun (_ : nat) (h : string) => h) l = l).
    { induction l as [|x l IH]; [reflexivity|]. rewrite imap_cons. f_equal.
      exact IH. }
    now rewrite Hkeys.
Qed.

Lemma record_with_image (headers cells cells' : list string) (img : string) :
  NoDup headers -> headers !! imageUrlIdx = Some "image_url" ->
  (forall i, i <> imageUrlIdx ->
     default EmptyString (cells' !! i) = default EmptyString (cells !! i)) ->
  cells' !! imageUrlIdx = Some img ->
  make_record headers cells' = <["image_url" := img]> (make_record headers cells).
Proof.
  intros Hnd Hcol Hother Himg. apply map_eq. intros k.
  destruct (decide (k = "image_url")) as [->|Hk].
  - rewrite lookup_insert_eq. apply make_record_lookup; [exact Hnd|].
    exists imageUrlIdx. now rewrite Himg.
  - rewrite lookup_insert_ne by congruence. apply option_eq. intros v.
    rewrite !make_record_lookup by exact Hnd.
    split; intros (i & Hi & ->); exists i; (split; [exact Hi|]).
    + apply Hother. intros ->. congruence.
    + symmetry. apply Hother. intros ->. congruence.
Qed.

Lemma product_with_image (record : gmap string string) (img : string) :
  product_of_record (<["image_url" := img]> record)
  = option_map (with_image img) (product_of_record record).
Proof.
  unfold product_of_record.
  rewrite !lookup_insert_ne by discriminate. rewrite lookup_insert_eq.
  destruct (match first_truthy (record !! "sku_id") with
            | Some s => Some s
            | None => _ end) as [sku|]; [|reflexivity].
  cbn. unfold with_image. cbn.
  rewrite lookup_insert_ne by discriminate. now destruct img.
Qed.

(** X19. The image filler feeds the catalogue generator.  Take pairwise
    distinct column titles with image_url in the eighth place and a
    non-blank row whose kept cells (all of them, or all but the image cell
    when that is replaced) hold no double quote and no line terminator.
    Then the product that the catalogue generator builds from the rewritten
    row is the product it builds from the row as read, with the image
    replaced by the image cell of the rewritten row: the image chosen when
    the image cell of the row was missing, empty or two double quotes, and
    the row's own image otherwise. *)
Theorem filled_row_product (u : Q) (headers : list string) (line : string) :
  NoDup headers -> headers !! imageUrlIdx = Some "image_url" ->
  nonblank line = true ->
  Forall (fun c => clean c = true) (kept (splitCsvLine line)) ->
  let cells := splitCsvLine line in
  let img :=
    if needs_image cells
    then default EmptyString
           (chooseImage u (cells !! 1%nat) (cells !! 4%nat) (cells !! 5%nat))
    else default EmptyString (cells !! imageUrlIdx) in
  (needs_image cells = true <->
     cells !! imageUrlIdx = None \/ cells !! imageUrlIdx = Some EmptyString \/
     cells !! imageUrlIdx = Some two_quotes) /\
  exists row,
    update_row u line = Some row /\
    to_product headers row = option_map (with_image img) (to_product headers line).
Proof.
  intros Hnd Hcol Hnb Hclean cells img.
  split; [apply needs_image_cases|].
  eexists. split; [apply (update_row_written u line Hnb)|]. fold cells.
  pose proof (written_cells_shape u cells) as (Hlen & Hother & Hpad & Himg).
  pose proof (written_cells_clean u cells Hclean) as Hwc.
  unfold to_product. rewrite read_back;
    [|intros Hnil; rewrite Hnil in Hlen; cbn in Hlen; lia | exact Hwc].
  fold cells. fold img in Himg.
  rewrite (record_with_image headers cells _ img Hnd Hcol); [|
    |exact Himg].
  - apply product_with_image.
  - intros i Hi. destruct (decide (i < length cells)%nat) as [Hlt|Hge].
    + now rewrite Hother.
    + rewrite (proj2 (lookup_ge_None cells i)) by lia.
      destruct (decide (i < imageUrlIdx)%nat) as [Hpre|Hpost].
      * rewrite Hpad by lia. reflexivity.
      * rewrite (proj2 (lookup_ge_None _ i)); [reflexivity|].
        rewrite Hlen. unfold imageUrlIdx in *. lia.
Qed.

Lemma filled_row_product_witness :
  let headers := ["sku_id"; "product_name"; "description"; "brand"; "category";
                  "sub_category"; "price"; "image_url"; "stock_quantity"] in
  exists row p,
    update_row (1 # 2) "s1,Pork Pie,d,b,Meat,Pies,1.5,,3" = Some row /\
    to_product headers row = Some p /\
    Catalog.image p = photo "1551024709-8f23befc6f87" /\
    Catalog.name p = Some "Pork Pie".
Proof.
  intros headers.
  destruct (filled_row_product (1 # 2) headers "s1,Pork Pie,d,b,Meat,Pies,1.5,,3")
    as (_ & row & Hrow & Hp);
    [apply (bool_decide_unpack _); vm_compute; exact I
    | reflexivity | vm_compute; reflexivity
    | apply clean_cells; vm_compute; reflexivity |].
  exists row. eexists. split; [exact Hrow|].
  split; [rewrite Hp; vm_compute; reflexivity|]. split; vm_compute; reflexivity.
Defined.

End FillImagesProps.

(** ** The discount game *)

Module GameProps.
Import Game.

Lemma drawn_discount_range (u : Q) :
  (0 <= u)%Q -> (u < 1)%Q -> 1 <= drawn_discount u <= 5.
Proof.
  intros H0 H1. unfold drawn_discount.
  assert (Hlo : 0 <= Qfloor (u * 5)).
  { rewrite <- (Qfloor_Z 0). apply Qfloor_resp_le.
    apply Qmult_le_0_compat; [exact H0 | discriminate]. }
  assert (Hhi : Qfloor (u * 5) < 5).
  { rewrite Zlt_Qlt. eapply Qle_lt_trans; [apply Qfloor_le|].
    eapply Qlt_le_trans; [apply Qmult_lt_compat_r; [reflexivity | exact H1]|].
    rewrite Qmult_1_l. apply Qle_refl. }
  lia.
Qed.

(** Popping a balloon that is not popped raises the count by one. *)
Lemma popped_after_pop (l : list Balloon) :
  forall idx b, l !! idx = Some b -> popped b = false ->
  length (List.filter popped (<[idx := pop b]> l))
  = S (length (List.filter popped l)).
Proof.
  induction l as [|x l IH]; intros [|idx] b Hb Hp; try discriminate.
  - cbn in Hb. injection Hb as ->. cbn. now rewrite Hp.
  - cbn in Hb. cbn. destruct (popped x); cbn; [f_equal|]; now apply IH.
Qed.

Lemma popped_at_most (l : list Balloon) :
  (length (List.filter popped l) <= length l)%nat.
Proof.
  induction l as [|x l IH]; cbn; [lia|]. destruct (popped x); cbn; lia.
Qed.

Lemma init_balloons_fresh (place : nat -> string * string) :
  length (init_balloons place) = 7%nat /\
  List.filter popped (init_balloons place) = [].
Proof. split; reflexivity. Qed.

Lemma shape_mount (align : string) : shape (mount align) /\ bounded (mount align).
Proof.
  unfold shape, bounded, mount, popped_balloons. cbn.
  repeat split; try lia; try discriminate; auto.
Qed.

Lemma shape_tick (g : GameState) : shape g -> shape (tick g).
Proof.
  unfold shape, tick, popped_balloons.
  intros ((Hv & He & Hd) & Hrest).
  destruct (100 <=? sliderValue g + sliderDir g * 2) eqn:H100;
    [|destruct (sliderValue g + sliderDir g * 2 <=? 0) eqn:H0];
    cbn; (split; [|exact Hrest]).
  - repeat split; auto; lia.
  - repeat split; auto; lia.
  - apply Z.leb_gt in H100, H0. split; [lia|]. split; [|exact Hd].
    rewrite Z.even_add, He.
    destruct Hd as [-> | ->]; reflexivity.
Qed.

Lemma shape_submit (place : nat -> string * string) (g : GameState) :
  step g = StageSlider -> shape g -> shape (handleSliderSubmit place g).
Proof.
  unfold shape, handleSliderSubmit, popped_balloons.
  intros Hs (Ha & Hb & Hc & Hd & He & Hf & Hg & Hh).
  destruct (He (or_intror Hs)) as (Hnil & Hzero & Hfin).
  assert (Hbadge : showBadge g = false).
  { destruct (showBadge g); [|reflexivity].
    rewrite (Hb eq_refl) in Hs. discriminate. }
  rewrite Hnil in Hc. cbn in Hc.
  destruct (verdict (sliderValue g)); cbn; rewrite ?Hnil, ?Hfin, ?Hbadge; cbn;
    repeat split; try tauto; try discriminate;
    try (intros [H|H]; discriminate); try (right; reflexivity);
    try (match goal with H : _ \/ _ |- _ => destruct H; discriminate end).
Qed.

Lemma shape_pop (idx : nat) (u : Q) (g : GameState) :
  step g = StageBalloon -> shape g -> shape (popBalloon idx u g).
Proof.
  intros Hs Hshape. unfold popBalloon.
  destruct (balloons g !! idx) as [b|] eqn:Hb; [|exact Hshape].
  destruct (popped b) eqn:Hp; [exact Hshape|].
  pose proof (popped_after_pop _ _ _ Hb Hp) as Hcount.
  pose proof (popped_at_most (<[idx := pop b]> (balloons g))) as Hmost.
  rewrite length_insert in Hmost.
  unfold shape, popped_balloons in *. cbn.
  destruct Hshape as (Ha & Hbd & Hc & Hd & He & Hf & Hg & Hh).
  assert (Hlen : length (balloons g) = 7%nat).
  { destruct Hd as [Hnil|Hlen]; [|exact Hlen]. now rewrite Hnil in Hb. }
  rewrite length_insert. repeat split; try tauto;
    try (intros Hbadge; rewrite (Hbd Hbadge) in Hs; discriminate);
    try (now right);
    try (match goal with
         | H : step g = _ \/ _ |- _ => rewrite Hs in H; destruct H; discriminate
         | H : step g = StageDone |- _ => rewrite Hs in H; discriminate
         end).
  - match goal with H : (_ || _)%bool = true |- _ =>
      apply orb_true_iff in H as [Hfin|Hfin] end.
    + destruct (Hf Hfin) as [_ H7]. lia.
    + apply Nat.eqb_eq in Hfin. lia.
  - intros Hdone. rewrite Hs in Hdone. discriminate.
  - intros Hdone. rewrite Hs in Hdone. discriminate.
Qed.

Lemma shape_finish (g : GameState) : shape g -> shape (finish g).
Proof.
  intros Hshape. unfold finish.
  destruct (finishing g) eqn:Hfin; [|exact Hshape].
  unfold shape, popped_balloons in *. cbn.
  destruct Hshape as (Ha & Hbd & Hc & Hd & He & Hf & Hg & Hh).
  destruct (Hf Hfin) as [Hs H7].
  repeat split; try tauto; try discriminate;
    try (match goal with H : _ \/ _ |- _ => destruct H; discriminate end);
    try (now right).
Qed.

Lemma shape_play (g : GameState) (m : Move) : shape g -> shape (play g m).
Proof.
  intros Hshape. unfold play.
  destruct m as [|place|idx u|]; destruct (step g) eqn:Hs;
    auto using shape_tick, shape_submit, shape_pop, shape_finish.
Qed.

Lemma bounded_play (g : GameState) (m : Move) :
  shape g -> bounded g -> fair m -> bounded (play g m).
Proof.
  intros Hshape Hb Hfair. unfold play.
  destruct m as [|place|idx u|]; destruct (step g) eqn:Hs; try exact Hb.
  - unfold tick.
    destruct (100 <=? sliderValue g + sliderDir g * 2);
      [|destruct (sliderValue g + sliderDir g * 2 <=? 0)]; exact Hb.
  - unfold handleSliderSubmit.
    destruct (verdict (sliderValue g)); try exact Hb.
    unfold bounded, popped_balloons. cbn. lia.
  - unfold popBalloon.
    destruct (balloons g !! idx) as [b|] eqn:Hbal; [|exact Hb].
    destruct (popped b) eqn:Hp; [exact Hb|].
    unfold bounded, popped_balloons in *. cbn.
    rewrite (popped_after_pop _ _ _ Hbal Hp).
    destruct Hfair as [H0 H1].
    pose proof (drawn_discount_range u H0 H1). lia.
  - unfold finish. destruct (finishing g); exact Hb.
  - unfold finish. destruct (finishing g); exact Hb.
  - unfold finish. destruct (finishing g); exact Hb.
  - unfold finish. destruct (finishing g); exact Hb.
Qed.

Lemma game_invariant (moves : list Move) :
  forall g, shape g -> bounded g -> Forall fair moves ->
  shape (fold_left play moves g) /\ bounded (fold_left play moves g).
Proof.
  induction moves as [|m moves IH]; intros g Hs Hb Hfair; [now split|].
  apply Forall_cons_1 in Hfair as [Hm Hfair]. cbn [fold_left].
  apply IH; [now apply shape_play | now apply bounded_play | exact Hfair].
Qed.

Lemma game_shape (moves : list Move) :
  forall g, shape g -> shape (fold_left play moves g).
Proof.
  induction moves as [|m moves IH]; intros g Hs; [exact Hs|].
  cbn [fold_left]. apply IH. now apply shape_play.
Qed.

Lemma ticks_stay (n : nat) (g : GameState) :
  step g = StageSlider -> step (fold_left play (repeat Tick n) g) = StageSlider.
Proof.
  revert g. induction n as [|n IH]; intros g Hs; [exact Hs|].
  cbn [repeat fold_left]. apply IH. unfold play. rewrite Hs. unfold tick.
  destruct (100 <=? sliderValue g + sliderDir g * 2);
    [|destruct (sliderValue g + sliderDir g * 2 <=? 0)]; exact Hs.
Qed.

Lemma verdict_even (v : Z) :
  Z.even v = true ->
  (verdict v = Win <-> 20 <= v <= 60) /\
  (verdict v = ToBalloons <-> 62 <= v <= 90) /\
  (verdict v = Lose <-> v <= 18 \/ 92 <= v).
Proof.
  intros He. apply Z.even_spec in He as [k ->]. unfold verdict.
  destruct (20 <=? 2 * k) eqn:H20; destruct (2 * k <=? 60) eqn:H60;
    destruct (61 <=? 2 * k) eqn:H61; destruct (2 * k <=? 90) eqn:H90; cbn;
    repeat split; intros; try discriminate; try reflexivity; lia.
Qed.

(** X20. The slider of the discount game, started at 50 and moved by two
    every tick, stays on the even numbers from 0 to 100 and repeats itself
    every 100 ticks.  On the positions it visits a submit wins exactly from
    20 to 60, leads to the balloons exactly from 62 to 90, and loses
    exactly up to 18 and from 92: the value 61 that opens the balloon
    branch is never visited. *)
Theorem slider_positions (n : nat) :
  let g := play_all "bottom" (repeat Tick n) in
  let v := sliderValue g in
  step g = StageSlider /\
  0 <= v <= 100 /\ Z.even v = true /\
  (verdict v = Win <-> 20 <= v <= 60) /\
  (verdict v = ToBalloons <-> 62 <= v <= 90) /\
  (verdict v = Lose <-> v <= 18 \/ 92 <= v) /\
  play_all "bottom" (repeat Tick (n + 100)) = g.
Proof.
  intros g v.
  assert (Hshape : shape g)
    by (apply game_shape; apply (shape_mount "bottom")).
  destruct Hshape as ((Hv & He & _) & _).
  split; [apply ticks_stay; reflexivity|].
  split; [exact Hv|]. split; [exact He|].
  destruct (verdict_even v He) as (Hw & Hb & Hl).
  split; [exact Hw|]. split; [exact Hb|]. split; [exact Hl|].
  subst g. unfold play_all.
  rewrite Nat.add_comm, repeat_app, fold_left_app.
  f_equal; vm_compute; reflexivity.
Qed.

(** X21. In the balloon step of the discount game, for draws of
    [Math.random()] in [0, 1): the counter shown is the number of balloons
    popped, which is at most seven; the discount is at most 10, at least
    the number of balloons popped (up to 10) and at most five times that
    number; a click on a popped balloon changes nothing; and once the last
    balloon is popped the discount ends between 7 and 10. *)
Theorem balloon_discount_bounds (align : string) (moves : list Move) :
  Forall fair moves ->
  let g := play_all align moves in
  let k := Z.of_nat (popped_balloons g) in
  poppedCount g = popped_balloons g /\
  (popped_balloons g <= 7)%nat /\
  0 <= balloonDiscount g <= 10 /\
  Z.min 10 k <= balloonDiscount g <= 5 * k /\
  (forall idx u b, balloons g !! idx = Some b -> popped b = true ->
     popBalloon idx u g = g) /\
  (finishing g = true \/
   (step g = StageDone /\ showBadge g = true /\ balloons g <> []) ->
   k = 7 /\ 7 <= balloonDiscount g <= 10).
Proof.
  intros Hfair g k.
  destruct (game_invariant moves (mount align)
              (proj1 (shape_mount align)) (proj2 (shape_mount align)) Hfair)
    as [Hshape Hbound].
  fold (play_all align moves) in Hshape, Hbound. fold g in Hshape, Hbound.
  destruct Hshape as (_ & _ & Hc & Hd & _ & Hf & _ & Hh).
  unfold bounded in Hbound. fold k in Hbound.
  assert (Hk : (popped_balloons g <= 7)%nat).
  { unfold popped_balloons. pose proof (popped_at_most (balloons g)) as Hm.
    destruct Hd as [Hnil|Hlen]; [rewrite Hnil in *; cbn in *; lia | lia]. }
  split; [exact Hc|]. split; [exact Hk|]. split; [lia|]. split; [lia|]. split.
  - intros idx u b Hb Hp. unfold popBalloon. now rewrite Hb, Hp.
  - intros [Hfin | (Hs & Hbadge & Hne)].
    + destruct (Hf Hfin) as [_ H7]. lia.
    + destruct (Hh Hs Hbadge) as [[Hnil _] | H7]; [congruence | lia].
Qed.

(** Six ticks bring the slider to 62, a submit opens the balloons, and
    seven pops with mixed draws end the step. *)
Lemma balloon_discount_bounds_witness :
  let place := fun _ : nat => ("50%", "40%") in
  let moves := (repeat Tick 6 ++
                [Submit place; Pop 0 (1 # 2); Pop 3 0; Pop 3 (9 # 10);
                 Pop 1 (1 # 5); Pop 2 0; Pop 4 0; Pop 5 0; Pop 6 0; Finish])%list in
  let g := play_all "bottom" moves in
  popped_balloons g = 7%nat /\ 7 <= balloonDiscount g <= 10 /\
  poppedCount g = 7%nat.
Proof.
  intros place moves g.
  assert (Hfair : Forall fair moves).
  { repeat constructor; cbn; discriminate || reflexivity. }
  destruct (balloon_discount_bounds "bottom" moves Hfair)
    as (Hc & _ & _ & _ & _ & Hend).
  fold g in Hc, Hend.
  assert (H7 : popped_balloons g = 7%nat) by (vm_compute; reflexivity).
  split; [exact H7|]. split; [|now rewrite Hc].
  apply Hend. right. repeat split; vm_compute; congruence.
Defined.

(** X22. The badge of the discount game is shown in the done step only,
    so it never reads the slider code 20% Discount: WIN20 that the
    component holds for the slider step: whenever it is shown it reads the
    balloon discount, and after a win on the slider it reads
    0% Discount: BALLOON0. *)
Theorem badge_reads_balloon_code (align : string) (moves : list Move) :
  let g := play_all align moves in
  (showBadge g = true -> step g = StageDone) /\
  (forall text, badge g = Some text ->
     text = (pretty (balloonDiscount g) ++ "% Discount: BALLOON"
             ++ pretty (balloonDiscount g))%string) /\
  (forall place, step g = StageSlider -> verdict (sliderValue g) = Win ->
     badge (play g (Submit place)) = Some "0% Discount: BALLOON0").
Proof.
  intros g.
  assert (Hshape : shape g) by (apply game_shape; apply (shape_mount align)).
  destruct Hshape as (_ & Hb & _ & _ & He & _).
  split; [exact Hb|]. split.
  - unfold badge. intros text. destruct (showBadge g) eqn:Hbadge; [|discriminate].
    rewrite (Hb eq_refl). now intros [= <-].
  - intros place Hs Hw. destruct (He (or_intror Hs)) as (_ & Hzero & _).
    unfold play. rewrite Hs. unfold handleSliderSubmit. rewrite Hw.
    unfold badge. cbn. rewrite Hzero. reflexivity.
Qed.

Lemma badge_reads_balloon_code_witness :
  let g := play_all "bottom" (repeat Tick 3) in
  sliderValue g = 56 /\
  badge (play g (Submit (fun _ => ("50%", "40%")))) = Some "0% Discount: BALLOON0".
Proof.
  intros g. split; [reflexivity|].
  apply (proj2 (proj2 (badge_reads_balloon_code "bottom" (repeat Tick 3))));
    reflexivity.
Defined.

End GameProps.

(** ** Requests of the recommendation client *)

Module RequestProps.
Import RecoClient.

Lemma or_default_truthy (a : option string) (b : string) :
  b <> EmptyString -> or_default a b <> EmptyString.
Proof.
  intros Hb. unfold or_default. destruct a as [s|]; [|exact Hb].
  destruct s; [exact Hb | discriminate].
Qed.

(** What is sent for one table path: the caller's string as it is, [null]
    for [null], and for a path left undefined the override of the build
    environment when that is set and not empty, else the built-in path;
    so the empty text is sent exactly when the caller passed it. *)
Lemma path_sent (a : PathArg) (override : option string) (builtin : string) :
  builtin <> EmptyString ->
  let sent := param a (or_default override builtin) in
  (forall s, a = Path s -> sent = Text s) /\
  (a = Null -> sent = NullValue) /\
  (a = Unset ->
   (forall s, override = Some s -> s <> EmptyString -> sent = Text s) /\
   (override = None \/ override = Some EmptyString -> sent = Text builtin)) /\
  (sent = Text EmptyString <-> a = Path EmptyString).
Proof.
  intros Hb sent. subst sent.
  split; [now intros s ->|]. split; [now intros ->|]. split.
  - intros ->. cbn. split.
    + intros s -> Hs. destruct s; [congruence | reflexivity].
    + intros [->| ->]; reflexivity.
  - destruct a as [| |s]; cbn.
    + split; [|discriminate]. intros [= H].
      now apply or_default_truthy in H.
    + split; discriminate.
    + split; [now intros [= ->] | now intros [= ->]].
Qed.

(** X23. The request body of the recommendation client.  A customer id
    that is a string is sent unchanged; the member of [Object.prototype]
    that a sign-in under an inherited name leaves in the profile is sent as
    the empty object under [__proto__] and is left out of the body
    otherwise.  Each of the three table paths is sent as the caller passed
    it when that is a string, as [null] for [null], and, when left
    undefined, as the override of the build environment if that is set and
    not empty, else as the built-in path; so a path is sent empty exactly
    when the caller passed the empty text for it. *)
Theorem request_paths (env : Env) (a : Args) :
  let r := request_of env a in
  let sent_as (arg : PathArg) (override : option string) (builtin : string)
              (f : Field) :=
    (forall s, arg = Path s -> f = Text s) /\
    (arg = Null -> f = NullValue) /\
    (arg = Unset ->
     (forall s, override = Some s -> s <> EmptyString -> f = Text s) /\
     (override = None \/ override = Some EmptyString -> f = Text builtin)) /\
    (f = Text EmptyString <-> arg = Path EmptyString) in
  (forall id, customerId a = Interaction.Str id -> customer_id r = Text id) /\
  (forall k, customerId a = Interaction.PrototypeMember k ->
     customer_id r = if String.eqb k "__proto__" then EmptyObject else LeftOut) /\
  sent_as (productsPath a) (VITE_RECO_PRODUCTS_PATH env) "data/products.csv"
          (products_path r) /\
  sent_as (transactionsPath a) (VITE_RECO_TRANSACTIONS_PATH env)
          "data/transactions.csv" (transactions_path r) /\
  sent_as (clickstreamPath a) (VITE_RECO_CLICKSTREAM_PATH env)
          "data/clickstream.csv" (clickstream_path r).
Proof.
  intros r sent_as. subst r sent_as. unfold request_of. cbn beta.
  cbn [customer_id products_path transactions_path clickstream_path].
  split; [now intros id ->|]. split; [now intros k ->|].
  split; [apply path_sent; discriminate|].
  split; apply path_sent; discriminate.
Qed.

(** A shopper signed in as citrus-otter-01, and a visitor who signed in
    under the name constructor. *)
Lemma request_paths_witness :
  let env := {| VITE_RECO_PRODUCTS_PATH := Some EmptyString;
                VITE_RECO_TRANSACTIONS_PATH := Some "tx.csv";
                VITE_RECO_CLICKSTREAM_PATH := None |} in
  let a := {| customerId := Interaction.Str "C001"; productsPath := Unset;
              transactionsPath := Unset; clickstreamPath := Path "clicks.csv" |} in
  let b := {| customerId := Interaction.PrototypeMember "constructor";
              productsPath := Null; transactionsPath := Unset;
              clickstreamPath := Unset |} in
  request_of env a
  = {| customer_id := Text "C001"; products_path := Text "data/products.csv";
       transactions_path := Text "tx.csv";
       clickstream_path := Text "clicks.csv" |} /\
  customer_id (request_of env b) = LeftOut /\
  products_path (request_of env b) = NullValue.
Proof.
  intros env a b.
  destruct (request_paths env a) as (Hid & _ & Hp & Ht & Hc).
  destruct (request_paths env b) as (_ & Hmember & Hnull & _).
  split; [reflexivity|]. split.
  - apply (Hmember "constructor"). reflexivity.
  - apply Hnull. reflexivity.
Defined.

End RequestProps.

(** ** What the provider hands to the API stub *)

Module TrackingProps.
Import Interaction Tracking.

Section Tables.

Variable u2c c2u : gmap string string.

Lemma sent_step (s : Provider) (a : Step) :
  sent (step u2c c2u s a) = (sent s ++ emitted a)%list.
Proof.
  destruct a as [u n1 n2| |cu e n]; cbn.
  - unfold login. destruct (fetchUserProfile _ _ _ _ _); cbn;
      now rewrite app_nil_r.
  - now rewrite app_nil_r.
  - reflexivity.
Qed.

Lemma run_snoc (trace : list Step) (a : Step) :
  run u2c c2u (trace ++ [a]) = step u2c c2u (run u2c c2u trace) a.
Proof. unfold run. now rewrite fold_left_app. Qed.

Lemma sent_run (trace : list Step) :
  sent (run u2c c2u trace) = flat_map emitted trace.
Proof.
  induction trace as [|a trace IH] using rev_ind; [reflexivity|].
  rewrite run_snoc, sent_step, IH, flat_map_app. cbn. now rewrite app_nil_r.
Qed.

Lemma history_of_tracks (trace : list Step) :
  forallb is_track trace = true ->
  interactions (run u2c c2u trace) = take 50 (rev (sent (run u2c c2u trace))).
Proof.
  induction trace as [|a trace IH] using rev_ind; intros Htr; [reflexivity|].
  rewrite forallb_app in Htr. apply andb_true_iff in Htr as [Htr Ha].
  rewrite run_snoc, sent_step. destruct a as [| |cu e n]; try discriminate.
  cbn [step emitted]. unfold trackInteraction. cbn [interactions].
  rewrite (IH Htr), rev_app_distr. cbn [rev app].
  apply (InteractionProps.take_app_take_le [payload cu e n]). lia.
Qed.

End Tables.

(** X24. The provider hands the API stub exactly one payload for every
    tracked event, in call order, and none for a login or a logout; each
    payload carries the fields of the event together with a user and a
    time stamp.  As long as the visitor has neither logged in nor out, the
    history shown is the 50 most recent of the payloads sent, newest
    first. *)
Theorem sent_log (u2c c2u : gmap string string) (trace : list Step) :
  let s := run u2c c2u trace in
  sent s = flat_map emitted trace /\
  Forall (fun p => user p <> None /\ timestamp p <> None) (sent s) /\
  length (sent s) = length (List.filter is_track trace) /\
  (forallb is_track trace = true -> interactions s = take 50 (rev (sent s))).
Proof.
  intros s. subst s. split; [apply sent_run|]. split; [|split].
  - rewrite sent_run. apply Forall_forall. intros p Hp.
    apply list_elem_of_In, in_flat_map in Hp as (a & _ & Hp).
    destruct a as [| |cu e n]; try contradiction.
    destruct Hp as [<-|[]]. cbn. split; discriminate.
  - rewrite sent_run. induction trace as [|a trace IH]; [reflexivity|].
    cbn [flat_map List.filter]. rewrite length_app, IH.
    now destruct a.
  - apply history_of_tracks.
Qed.

(** A search and a product view by a visitor who is not signed in. *)
Lemma sent_log_witness :
  let trace := [DoTrack None (search_event "milk") 1700000000000;
                DoTrack None (handleProductClick "milk-1") 1700000005000] in
  let s := run ∅ ∅ trace in
  map type (sent s) = [Some "search"; Some "view"] /\
  interactions s = rev (sent s).
Proof.
  intros trace s.
  destruct (sent_log ∅ ∅ trace) as (Hsent & _ & _ & Hhist). fold s in Hsent, Hhist.
  split; [rewrite Hsent; reflexivity|].
  rewrite (Hhist eq_refl). reflexivity.
Defined.

End TrackingProps.

(** ** The feed of latest interactions *)

Module FeedProps.
Import Interaction Feed.

Lemma recorded_type (e : Event) :
  recorded e -> exists ty, type e = Some ty /\ In ty page_types.
Proof.
  intros H. apply InteractionProps.recorded_page_typed in H.
  unfold page_typed in H. apply andb_true_iff in H as [H _].
  destruct (type e) as [ty|]; [|discriminate].
  exists ty. split; [reflexivity|].
  apply bool_decide_eq_true_1 in H. now apply list_elem_of_In.
Qed.

Lemma truthy_text_absent (s : option string) :
  s = None \/ s = Some EmptyString -> truthy_text s = None.
Proof. now intros [->| ->]. Qed.

Lemma truthy_text_present (s : option string) (x : string) :
  s = Some x -> x <> EmptyString -> truthy_text s = Some x.
Proof. intros -> Hx. cbn. now destruct x. Qed.

(** X25. The feed labels every event that names a product as a view of
    that product, an add to the basket and a click on a home-page pick
    included; an event without a product is labelled by its search text,
    otherwise by its type, and by the word Interaction when it has none of
    the three.  For the events the pages record the label Interaction never
    appears.  The feed shows at most six rows, the first being the head of
    the history, and renders nothing exactly when the history is empty. *)
Theorem feed_labels :
  let absent := fun s : option string => s = None \/ s = Some EmptyString in
  (forall item pid, productId item = Some pid -> pid <> EmptyString ->
     label item = ("Viewed " ++ pid)%string) /\
  (forall item q, absent (productId item) ->
     query item = Some q -> q <> EmptyString ->
     label item = ("Searched " ++ String Catalog.QUOTE q
                   ++ String Catalog.QUOTE EmptyString)%string) /\
  (forall item ty, absent (productId item) -> absent (query item) ->
     type item = Some ty -> ty <> EmptyString -> label item = ty) /\
  (forall item, absent (productId item) -> absent (query item) ->
     absent (type item) -> label item = "Interaction") /\
  (forall cu pid src now, pid <> EmptyString ->
     label (payload cu (add_event pid src) now) = ("Viewed " ++ pid)%string /\
     label (payload cu (hero_click pid) now) = ("Viewed " ++ pid)%string) /\
  (forall cu e now, recorded e -> label (payload cu e now) <> "Interaction") /\
  (forall l, feed l = None <-> l = []) /\
  (forall l rows, feed l = Some rows ->
     length rows = Nat.min 6 (length l) /\
     head rows = option_map (fun i => (label i, timestamp i)) (head l)).
Proof.
  intros absent. subst absent. cbn beta.
  split; [|split; [|split; [|split; [|split; [|split; [|split]]]]]].
  - intros item pid Hpid Hne. unfold label.
    now rewrite (truthy_text_present _ _ Hpid Hne).
  - intros item q Hp Hq Hne. unfold label.
    now rewrite (truthy_text_absent _ Hp), (truthy_text_present _ _ Hq Hne).
  - intros item ty Hp Hq Hty Hne. unfold label.
    now rewrite (truthy_text_absent _ Hp), (truthy_text_absent _ Hq),
      (truthy_text_present _ _ Hty Hne).
  - intros item Hp Hq Hty. unfold label.
    now rewrite (truthy_text_absent _ Hp), (truthy_text_absent _ Hq),
      (truthy_text_absent _ Hty).
  - intros cu pid src now Hne. unfold label. cbn. now destruct pid.
  - intros cu e now Hrec. unfold label. cbn [payload productId query type].
    destruct (truthy_text (productId e)) as [pid|]; [discriminate|].
    destruct (truthy_text (query e)) as [q|]; [discriminate|].
    destruct (recorded_type e Hrec) as (ty & -> & Hty).
    cbn in Hty. intuition (subst; discriminate).
  - intros l. destruct l; cbn; split; congruence.
  - intros l rows. destruct l as [|i l]; [discriminate|].
    unfold feed. intros H.
    assert (Hrows : rows = map (fun item => (label item, timestamp item))
                             (take 6 (i :: l))) by congruence.
    rewrite Hrows. split; [|reflexivity].
    now rewrite length_map, length_take.
Qed.

Lemma feed_labels_witness :
  label (payload None (handleProductClick "milk-1") 1700000000000) = "Viewed milk-1" /\
  label (payload None (add_event "milk-1" "product_list") 1700000000000)
    = "Viewed milk-1" /\
  label (payload None (search_event "berries") 1700000000000)
    = "Searched " ++ String Catalog.QUOTE "berries"
      ++ String Catalog.QUOTE EmptyString /\
  label (payload None (login_submit "kazeem") 1700000000000) = "login" /\
  label (payload None (login_submit "kazeem") 1700000000000) <> "Interaction".
Proof.
  pose proof feed_labels as (Hview & Hsearch & Htype & _ & Hadd & Hrec & _).
  split; [|split; [|split; [|split]]].
  - apply (Hview _ "milk-1"); [reflexivity | discriminate].
  - apply (Hadd None "milk-1" "product_list"). discriminate.
  - apply (Hsearch _ "berries"); [now left | reflexivity | discriminate].
  - apply (Htype _ "login"); [now left | now left | reflexivity | discriminate].
  - apply Hrec. apply rec_login.
Defined.

End FeedProps.

(** ** Prices of the generated catalogue *)

Module LoaderProps.
Import Catalog.









End LoaderProps.

(** ** Searching from the product list *)

Module ListPageProps.
Import JsString ListPage.

Section Strip.

Variable p1 : ascii -> bool.
Variable p2 : ascii -> ascii -> bool.
Variable p3 : ascii -> ascii -> ascii -> bool.

Lemma strip_spec_bounded (n : nat) :
  forall l, (length l <= n)%nat ->
    (exists sp, l = (sp ++ strip p1 p2 p3 l)%list) /\
    matched p1 p2 p3 (strip p1 p2 p3 l) = false.
Proof.
  induction n as [|n IH]; intros l Hl.
  - destruct l; [|cbn in Hl; lia]. split; [now exists [] | reflexivity].
  - destruct l as [|a l1]; [split; [now exists [] | reflexivity]|].
    cbn [length] in Hl. cbn [strip].
    destruct (p1 a) eqn:H1.
    { destruct (IH l1 ltac:(lia)) as [[sp Hsp] Hm]. split; [|exact Hm].
      exists (a :: sp). cbn. now rewrite <- Hsp. }
    destruct l1 as [|b l2].
    { split; [now exists []|]. cbn. now rewrite H1. }
    cbn [length] in Hl.
    destruct (p2 a b) eqn:H2.
    { destruct (IH l2 ltac:(lia)) as [[sp Hsp] Hm]. split; [|exact Hm].
      exists (a :: b :: sp). cbn. now rewrite <- Hsp. }
    destruct l2 as [|c l3].
    { split; [now exists []|]. cbn. now rewrite H1, H2. }
    cbn [length] in Hl.
    destruct (p3 a b c) eqn:H3.
    { destruct (IH l3 ltac:(lia)) as [[sp Hsp] Hm]. split; [|exact Hm].
      exists (a :: b :: c :: sp). cbn. now rewrite <- Hsp. }
    split; [now exists []|]. cbn. now rewrite H1, H2, H3.
Qed.

Lemma strip_spec (l : list ascii) :
  (exists sp, l = (sp ++ strip p1 p2 p3 l)%list) /\
  matched p1 p2 p3 (strip p1 p2 p3 l) = false.
Proof. now apply (strip_spec_bounded (length l)). Qed.

Lemma strip_fixed (l : list ascii) :
  matched p1 p2 p3 l = false -> strip p1 p2 p3 l = l.
Proof.
  destruct l as [|a [|b [|c l3]]]; cbn; [reflexivity|..].
  - rewrite orb_false_r. now intros ->.
  - rewrite orb_false_r. intros H. apply orb_false_iff in H as [-> ->].
    reflexivity.
  - intros H. apply orb_false_iff in H as [-> H].
    apply orb_false_iff in H as [-> ->]. reflexivity.
Qed.

Lemma matched_prefix (x y : list ascii) :
  matched p1 p2 p3 (x ++ y) = false -> matched p1 p2 p3 x = false.
Proof.
  destruct x as [|a [|b [|c l3]]]; cbn; [reflexivity|..].
  - intros H. apply orb_false_iff in H as [-> _]. reflexivity.
  - intros H. apply orb_false_iff in H as [-> H].
    destruct y; cbn in H; apply orb_false_iff in H as [-> _]; reflexivity.
  - now intros ->.
Qed.

End Strip.

(** A trimmed text has no white space at either end, and trimming it again
    changes nothing. *)
Lemma trim_trimmed (s : string) :
  starts_spaced (chars (trim s)) = false /\
  ends_spaced (rev (chars (trim s))) = false /\
  trim (trim s) = trim s.
Proof.
  unfold trim at 1 2. rewrite ShopProps.chars_of_chars.
  unfold starts_spaced, ends_spaced, drop_spaces, drop_spaces_end.
  destruct (strip_spec is_space is_space2 is_space3 (chars s)) as [_ Ha].
  set (a := strip is_space is_space2 is_space3 (chars s)) in *.
  set (q2 := fun c b => is_space2 b c).
  set (q3 := fun c b a => is_space3 a b c).
  destruct (strip_spec is_space q2 q3 (rev a)) as [[sp Hsp] Hb].
  set (b := strip is_space q2 q3 (rev a)) in *.
  assert (Hstart : matched is_space is_space2 is_space3 (rev b) = false).
  { assert (Hrev : a = (rev b ++ rev sp)%list)
      by (rewrite <- (rev_involutive a), Hsp, rev_app_distr; reflexivity).
    rewrite Hrev in Ha. now apply matched_prefix in Ha. }
  split; [exact Hstart|]. rewrite rev_involutive. split; [exact Hb|].
  unfold trim, drop_spaces, drop_spaces_end. fold a. fold q2 q3. fold b.
  rewrite ShopProps.chars_of_chars.
  rewrite (strip_fixed _ _ _ _ Hstart), rev_involutive.
  now rewrite (strip_fixed _ _ _ _ Hb).
Qed.

Lemma falsy_empty (s : string) : truthy s = false -> s = EmptyString.
Proof. destruct s; [reflexivity | discriminate]. Qed.

(** X27. Pressing search on the product list looks up the trimmed query,
    whatever the lookup of the API service answers for it.  When the
    lookup succeeds the page shows its results from page 1 and is no longer
    loading, and it records a search event exactly when the trimmed query
    is not empty; the recorded term is that trimmed query, with no white
    space at either end.  When the lookup throws, the items and the page
    number stay as they were, the page is left loading, and nothing is
    recorded. *)
Theorem search_is_run (fetch : string -> option (list Catalog.StoreProduct))
    (st : PageState) :
  let term := trim (query st) in
  let out := handleSearchRun fetch st in
  (forall results, fetch term = Some results ->
     items (fst out) = results /\ page (fst out) = 1%nat /\
     loading (fst out) = false /\
     snd out = Interaction.handleSearch (query st) /\
     (term <> EmptyString ->
      snd out = Some (Interaction.search_event term) /\
      lastAutoSearch (fst out) = term /\
      starts_spaced (chars term) = false /\
      ends_spaced (rev (chars term)) = false /\
      trim term = term) /\
     (term = EmptyString -> snd out = None)) /\
  (fetch term = None ->
     snd out = None /\ items (fst out) = items st /\
     page (fst out) = page st /\ loading (fst out) = true).
Proof.
  intros term out. subst out. unfold handleSearchRun, loadProducts. fold term.
  split.
  - intros results ->. unfold Interaction.handleSearch. fold term.
    destruct (truthy term) eqn:Ht; cbn.
    + repeat split; try apply (trim_trimmed (query st)).
      intros Hempty. rewrite Hempty in Ht. discriminate.
    + pose proof (falsy_empty _ Ht) as Hempty.
      repeat split; try reflexivity; congruence.
  - intros ->. repeat split.
Qed.

(** A search for milk, typed with a no-break space before it and a space
    after it, on a catalogue read from a CSV. *)
Lemma search_is_run_witness :
  let catalogue :=
    default [] (Catalog.products ["sku_id"; "product_name"; "category"]
                  ["milk-1,Whole Milk,Dairy"; "bread-1,Sourdough Bread,Bakery"]) in
  let nbsp := String (ascii_of_nat 194) (String (ascii_of_nat 160) EmptyString) in
  let st := {| query := nbsp ++ " milk "; items := catalogue; page := 2;
               loading := false; lastAutoSearch := EmptyString |} in
  let out := handleSearchRun (Shop.fetchProducts catalogue) st in
  map Catalog.id (items (fst out)) = ["milk-1"] /\ page (fst out) = 1%nat /\
  snd out = Some (Interaction.search_event "milk").
Proof.
  intros catalogue nbsp st out. vm_compute in catalogue.
  destruct (Shop.fetchProducts catalogue (trim (query st))) as [results|] eqn:Hres;
    [|vm_compute in Hres; discriminate].
  destruct (proj1 (search_is_run (Shop.fetchProducts catalogue) st) results Hres)
    as (Hitems & Hpage & _ & _ & Hev & _).
  fold out in Hitems, Hpage, Hev.
  split; [|split; [exact Hpage|]].
  - rewrite Hitems. vm_compute in Hres. injection Hres as <-. reflexivity.
  - apply Hev. discriminate.
Defined.

End ListPageProps.
